(** * Glenn Berry SQL diagnostic tool: query-pack parser and execution engine

    A shallow embedding of [QueryParser] (version resolution, pack parsing,
    classification, section index) and of [ExecutionEngine] (sequential
    execution with retries, progress events and continue-on-error), followed
    by the properties proved about them. *)

From Stdlib Require Import ZArith NArith List Bool Ascii String Lia Arith.
From Stdlib Require Import Numbers.DecimalString Sorting.Sorted Permutation.
From Stdlib Require Numbers.DecimalNat Numbers.DecimalFacts.
Import ListNotations.

Local Open Scope string_scope.
Local Open Scope list_scope.

(** ** JavaScript string primitives

    A string is a sequence of code units.  The packs are SQL text; the model
    covers code units 0..255 (Latin-1), on which [toLowerCase], [trim] and the
    regular-expression classes below are exactly the ECMAScript ones. *)
Module JsString.

Definition code (c : ascii) : N := N_of_ascii c.

(** LineTerminator: LF and CR (U+2028 and U+2029 lie outside the range). *)
Definition isLineTerminator (c : ascii) : bool :=
  (code c =? 10)%N || (code c =? 13)%N.

(** WhiteSpace or LineTerminator, the set used by [trim] and by [\s]:
    TAB, LF, VT, FF, CR, SP and NBSP. *)
Definition isWhiteSpace (c : ascii) : bool :=
  ((9 <=? code c)%N && (code c <=? 13)%N) || (code c =? 32)%N || (code c =? 160)%N.

Definition isDigit (c : ascii) : bool :=
  (48 <=? code c)%N && (code c <=? 57)%N.

Definition digitValue (c : ascii) : Z := (Z.of_N (code c) - 48)%Z.

(** [String.prototype.toLowerCase] on one code unit: A-Z and the Latin-1
    capitals U+00C0..U+00DE (U+00D7, the multiplication sign, excepted). *)
Definition toLowerChar (c : ascii) : ascii :=
  let n := code c in
  if ((65 <=? n)%N && (n <=? 90)%N)
     || ((192 <=? n)%N && (n <=? 222)%N && negb (n =? 215)%N)
  then ascii_of_N (n + 32)
  else c.

Fixpoint toLowerCase (s : string) : string :=
  match s with
  | EmptyString => EmptyString
  | String c s' => String (toLowerChar c) (toLowerCase s')
  end.

Fixpoint startsWith (s p : string) : bool :=
  match p with
  | EmptyString => true
  | String a p' =>
      match s with
      | EmptyString => false
      | String b s' => Ascii.eqb a b && startsWith s' p'
      end
  end.

(** [s.includes(sub)]: [sub] occurs in [s] at some position. *)
Fixpoint includes (s sub : string) : bool :=
  if startsWith s sub then true
  else match s with
       | EmptyString => false
       | String _ s' => includes s' sub
       end.

Fixpoint trimStart (s : string) : string :=
  match s with
  | EmptyString => EmptyString
  | String c s' => if isWhiteSpace c then trimStart s' else s
  end.

Fixpoint trimEnd (s : string) : string :=
  match s with
  | EmptyString => EmptyString
  | String c s' =>
      match trimEnd s' with
      | EmptyString => if isWhiteSpace c then EmptyString else String c EmptyString
      | t => String c t
      end
  end.

Definition trim (s : string) : string := trimEnd (trimStart s).

Definition isEmpty (s : string) : bool :=
  match s with EmptyString => true | _ => false end.

Fixpoint drop (n : nat) (s : string) : string :=
  match n, s with
  | O, _ => s
  | S n', String _ s' => drop n' s'
  | S _, EmptyString => EmptyString
  end.

(** [s.split(sep)] for a one-character separator: the pieces between the
    occurrences, [[s]] when there is none. *)
Fixpoint splitOn (sep : ascii) (s : string) : list string :=
  match s with
  | EmptyString => [EmptyString]
  | String c s' =>
      if Ascii.eqb c sep then EmptyString :: splitOn sep s'
      else match splitOn sep s' with
           | [] => [String c EmptyString]
           | piece :: rest => String c piece :: rest
           end
  end.

(** [lines.join(sep)]. *)
Fixpoint join (sep : string) (l : list string) : string :=
  match l with
  | [] => EmptyString
  | [x] => x
  | x :: rest => x ++ sep ++ join sep rest
  end.

Definition nl : string := String (ascii_of_N 10) EmptyString.

(** Template-literal printing of a non-negative integer. *)
Definition ofNat (n : nat) : string := NilZero.string_of_uint (Nat.to_uint n).

(** [parseInt(s)]: leading white space, an optional sign, an optional
    [0x] prefix, then the longest run of digits of the radix; [None] is
    NaN (no digit read). *)
Definition isHexDigit (c : ascii) : bool :=
  isDigit c
  || ((65 <=? code c)%N && (code c <=? 70)%N)
  || ((97 <=? code c)%N && (code c <=? 102)%N).

Definition hexValue (c : ascii) : Z :=
  if isDigit c then digitValue c
  else if (code c <=? 70)%N then (Z.of_N (code c) - 55)%Z
  else (Z.of_N (code c) - 87)%Z.

Fixpoint readDigits (radix : Z) (isD : ascii -> bool) (val : ascii -> Z)
         (acc : option Z) (s : string) : option Z :=
  match s with
  | EmptyString => acc
  | String c s' =>
      if isD c
      then readDigits radix isD val
             (Some (match acc with Some a => (a * radix + val c)%Z | None => val c end)) s'
      else acc
  end.

Definition parseIntUnsigned (s : string) : option Z :=
  if startsWith s "0x" || startsWith s "0X"
  then readDigits 16 isHexDigit hexValue None (drop 2 s)
  else readDigits 10 isDigit digitValue None s.

Definition parseIntString (s : string) : option Z :=
  match trimStart s with
  | String "-" s' => option_map Z.opp (parseIntUnsigned s')
  | String "+" s' => parseIntUnsigned s'
  | s' => parseIntUnsigned s'
  end.

End JsString.

(** ** QueryParser: version resolution, pack parsing, classification and
    the section index *)
Module QueryParser.
Import JsString.

(** A JavaScript object literal, as its properties in the order written. *)
Definition JsObject (V : Type) : Type := list (string * V).

Fixpoint getProperty {V : Type} (o : JsObject V) (k : string) : option V :=
  match o with
  | [] => None
  | (k', v) :: o' => if String.eqb k' k then Some v else getProperty o' k
  end.

(** Mapping of SQL Server versions to query pack filenames. *)
Definition queryPackFiles : JsObject string :=
  [ ("2025", "sql-server-2025-queries.sql");
    ("2022", "sql-server-2022-queries.sql");
    ("2019", "sql-server-2019-queries.sql");
    ("2017", "sql-server-2017-queries.sql");
    ("2016", "sql-server-2016-queries.sql");
    ("2016SP2", "sql-server-2016SP2-queries.sql");
    ("2014", "sql-server-2014-queries.sql");
    ("2012", "sql-server-2012-queries.sql");
    ("2008", "sql-server-2008-queries.sql");
    ("2008R2", "sql-server-2008R2-queries.sql");
    ("2008STD", "sql-server-2008STD-queries.sql");
    ("2005", "sql-server-2005-queries.sql") ].

Fixpoint allDigits (s : string) : bool :=
  match s with
  | EmptyString => true
  | String c s' => isDigit c && allDigits s'
  end.

Definition decimalValue (s : string) : Z :=
  match readDigits 10 isDigit digitValue None s with
  | Some n => n
  | None => 0
  end.

(** An integer-index property name: canonical decimal digits below 2^32 - 1. *)
Definition isArrayIndex (k : string) : bool :=
  match k with
  | EmptyString => false
  | String c rest =>
      allDigits k
      && (negb (Ascii.eqb c "0") || isEmpty rest)
      && (decimalValue k <? 4294967295)%Z
  end.

Fixpoint insertIndexKey (k : string) (l : list string) : list string :=
  match l with
  | [] => [k]
  | k' :: l' =>
      if (decimalValue k <? decimalValue k')%Z then k :: l
      else k' :: insertIndexKey k l'
  end.

(** [Object.keys]: integer-index names in ascending numeric order, then the
    other names in the order they were written. *)
Definition Object_keys {V : Type} (o : JsObject V) : list string :=
  let names := map fst o in
  fold_right insertIndexKey [] (filter isArrayIndex names)
    ++ filter (fun k => negb (isArrayIndex k)) names.

(** An element of the version array: a Number (possibly NaN) or a string. *)
Inductive VersionKey : Type :=
| VNum (n : Z)
| VNaN
| VStr (s : string).

(** [isNaN(key)] on a property name.  The names of [queryPackFiles] are digit
    runs, some with a letter suffix: a blank name reads as 0, a run of
    digits as its value, and anything else as NaN (signs, fractions,
    exponents and radix prefixes do not occur among them). *)
Definition isNaN (key : string) : bool :=
  negb (allDigits (trim key)).

(** [key => isNaN(key) ? key : parseInt(key)] *)
Definition toVersion (key : string) : VersionKey :=
  if isNaN key then VStr key
  else match parseIntString key with
       | Some n => VNum n
       | None => VNaN
       end.

(** [parseInt(version)] on an element of the version array ([None] is NaN).
    A Number below 10^21 prints as its digits, so [parseInt] returns it. *)
Definition parseIntVersion (v : VersionKey) : option Z :=
  match v with
  | VNum n => Some n
  | VNaN => None
  | VStr s => parseIntString s
  end.

(** The comparator [(a, b) => parseInt(b) - parseInt(a)]; a NaN result
    counts as 0 for [sort]. *)
Definition compareDescending (a b : VersionKey) : Z :=
  match parseIntVersion a, parseIntVersion b with
  | Some aNum, Some bNum => (bNum - aNum)%Z
  | _, _ => 0%Z
  end.

(** [Array.prototype.sort] is stable: an element moves in front only of
    those the comparator orders strictly after it. *)
Fixpoint insertSorted {A : Type} (cmp : A -> A -> Z) (x : A) (l : list A) : list A :=
  match l with
  | [] => [x]
  | y :: l' => if (cmp x y <? 0)%Z then x :: l else y :: insertSorted cmp x l'
  end.

Definition sort {A : Type} (cmp : A -> A -> Z) (l : list A) : list A :=
  fold_left (fun acc x => insertSorted cmp x acc) l [].

(** The versions whose pack file exists under the pack directory, newest
    first.  [existsSync] answers for a file name of that directory. *)
Definition availableVersions (existsSync : string -> bool) : list VersionKey :=
  sort compareDescending
    (map toVersion
       (filter (fun key =>
                  match getProperty queryPackFiles key with
                  | Some filename => existsSync filename
                  | None => false
                  end)
               (Object_keys queryPackFiles))).

(** [for (const version of availableVersions) if (parseInt(version) <= target) return version] *)
Fixpoint firstNotNewer (targetVersion : Z) (l : list VersionKey) : option VersionKey :=
  match l with
  | [] => None
  | version :: l' =>
      match parseIntVersion version with
      | Some versionNum =>
          if (versionNum <=? targetVersion)%Z then Some version
          else firstNotNewer targetVersion l'
      | None => firstNotNewer targetVersion l'
      end
  end.

(** [arr[arr.length - 1]]; [None] is [undefined]. *)
Fixpoint lastElement {A : Type} (l : list A) : option A :=
  match l with
  | [] => None
  | [x] => Some x
  | _ :: l' => lastElement l'
  end.

Definition getClosestAvailableVersion (existsSync : string -> bool)
           (targetVersion : Z) : option VersionKey :=
  let available := availableVersions existsSync in
  match firstNotNewer targetVersion available with
  | Some version => Some version
  | None => lastElement available
  end.

(** [parseInt(version)] on an integer Number.  Below 10^21 in magnitude the
    number prints as its decimal digits and [parseInt] reads them all back.
    From 10^21 on it prints in exponent notation ([d.ddd...e+NN]) and
    [parseInt] stops at the point or the [e]: the result is the one leading
    digit of that printed form, [lead n], between 1 and 9, with the sign. *)
Definition parseIntNumber (lead : Z -> Z) (version : Z) : Z :=
  if (Z.abs version <? 10 ^ 21)%Z then version
  else (Z.sgn version * lead (Z.abs version))%Z.

Definition mapVersionToKey (lead : Z -> Z) (version : Z) : Z :=
  let versionNum := parseIntNumber lead version in
  if (2005 <=? versionNum)%Z && (versionNum <=? 2025)%Z then versionNum
  else if (17 <=? versionNum)%Z then 2025%Z
  else if (16 <=? versionNum)%Z then 2022%Z
  else if (15 <=? versionNum)%Z then 2019%Z
  else if (14 <=? versionNum)%Z then 2017%Z
  else if (13 <=? versionNum)%Z then 2016%Z
  else if (12 <=? versionNum)%Z then 2014%Z
  else if (11 <=? versionNum)%Z then 2012%Z
  else if (10 <=? versionNum)%Z then 2008%Z
  else if (9 <=? versionNum)%Z then 2005%Z
  else 2019%Z.

(** [this.queryPackFiles[versionKey]]: the Number is turned into its
    property name. *)
Definition propertyName (versionKey : Z) : string :=
  NilZero.string_of_int (Z.to_int versionKey).

Definition packFileOf (versionKey : Z) : option string :=
  getProperty queryPackFiles (propertyName versionKey).

(** *** Pack parsing *)

Record Query : Type := mkQuery {
  id : string;
  name : string;
  section : string;
  description : string;
  query : string;
  estimatedDuration : Z;
  queryNumber : option nat   (* absent on the built-in sample queries *)
}.

Record QueryInfo : Type := mkQueryInfo {
  info_name : string;
  info_section : string;
  info_description : string;
  info_query : string
}.

(** The delimiter [/^------$/m] matches at a position when it is the start
    of a line, six hyphens follow, and then the input or the line ends. *)
Definition delimiterAt (atLineStart : bool) (s : string) : bool :=
  atLineStart
  && startsWith s "------"
  && match drop 6 s with
     | EmptyString => true
     | String c _ => isLineTerminator c
     end.

(** [sqlContent.split(/^------$/gm)]: [atLineStart] tells whether the
    position follows a line terminator (or is the start of the input),
    [skip] counts the hyphens of a matched delimiter still to pass. *)
Fixpoint splitDelimiter (atLineStart : bool) (skip : nat) (s : string) : list string :=
  match s with
  | EmptyString => [EmptyString]
  | String c s' =>
      match skip with
      | S k => splitDelimiter false k s'
      | O =>
          if delimiterAt atLineStart s
          then EmptyString :: splitDelimiter false 5 s'
          else match splitDelimiter (isLineTerminator c) 0 s' with
               | [] => [String c EmptyString]
               | piece :: rest => String c piece :: rest
               end
      end
  end.

Definition splitQueryBlocks (sqlContent : string) : list string :=
  splitDelimiter true 0 sqlContent.

(** **** The annotation pattern
    [/--.*?\(Query\s+(\d+)\)\s*\(([^)]+)\)/i] *)

Fixpoint skipWhile (p : ascii -> bool) (s : string) : string :=
  match s with
  | EmptyString => EmptyString
  | String c s' => if p c then skipWhile p s' else s
  end.

Fixpoint takeWhile (p : ascii -> bool) (s : string) : string :=
  match s with
  | EmptyString => EmptyString
  | String c s' => if p c then String c (takeWhile p s') else EmptyString
  end.

Definition expect (c : ascii) (s : string) : option string :=
  match s with
  | String c' s' => if Ascii.eqb c' c then Some s' else None
  | EmptyString => None
  end.

(** One letter under the [i] flag: the letter in either case. *)
Definition expectLetter (upper lower : ascii) (s : string) : option string :=
  match s with
  | String c s' => if Ascii.eqb c upper || Ascii.eqb c lower then Some s' else None
  | EmptyString => None
  end.

(** [p+] for a character class: at least one, then as many as there are.
    Each class below is disjoint from what follows it, so the greedy
    choice is the only one that can match. *)
Definition some (p : ascii -> bool) (s : string) : option string :=
  match s with
  | String c s' => if p c then Some (skipWhile p s') else None
  | EmptyString => None
  end.

Definition andThen {A B : Type} (x : option A) (f : A -> option B) : option B :=
  match x with
  | Some a => f a
  | None => None
  end.

Notation "x >>= f" := (andThen x f) (at level 50, left associativity).

Definition notCloseParen (c : ascii) : bool := negb (Ascii.eqb c ")").

(** [\(Query\s+(\d+)\)\s*\(([^)]+)\)] at the start of [s]: capture 2. *)
Definition matchAnnotation (s : string) : option string :=
  expect "(" s >>= expectLetter "Q" "q" >>= expectLetter "U" "u"
    >>= expectLetter "E" "e" >>= expectLetter "R" "r" >>= expectLetter "Y" "y"
    >>= some isWhiteSpace >>= some isDigit >>= expect ")"
    >>= (fun s1 => expect "(" (skipWhile isWhiteSpace s1))
    >>= (fun s2 =>
           let captured := takeWhile notCloseParen s2 in
           if isEmpty captured then None
           else expect ")" (skipWhile notCloseParen s2)
                  >>= (fun _ => Some captured)).

(** [.*?] followed by the annotation: the fewest characters of the line. *)
Fixpoint lazyDotThenAnnotation (s : string) : option string :=
  match matchAnnotation s with
  | Some captured => Some captured
  | None =>
      match s with
      | EmptyString => None
      | String c s' =>
          if isLineTerminator c then None else lazyDotThenAnnotation s'
      end
  end.

(** [block.match(queryPattern)]: the leftmost match; the result is
    [match[2]]. *)
Fixpoint matchQueryPattern (s : string) : option string :=
  match (if startsWith s "--" then lazyDotThenAnnotation (drop 2 s) else None) with
  | Some captured => Some captured
  | None =>
      match s with
      | EmptyString => None
      | String _ s' => matchQueryPattern s'
      end
  end.

(** *** Classification *)

Definition categorizeQuery (description block : string) : string :=
  let desc := toLowerCase description in
  let content := toLowerCase block in
  if includes desc "version" || includes desc "server properties"
     || includes desc "configuration" then "Instance Information"
  else if includes desc "memory" || includes desc "hardware"
          || includes desc "cpu" || includes desc "numa" then "Hardware & OS"
  else if includes desc "backup" || includes desc "maintenance"
          || includes desc "statistics" || includes desc "fragmentation" then "Maintenance"
  else if includes desc "wait" || includes desc "performance"
          || includes desc "execution" || includes desc "expensive" then "Performance"
  else if includes desc "database" || includes desc "file"
          || includes desc "table" || includes desc "index" then "Database Objects"
  else if includes desc "security" || includes desc "login"
          || includes desc "permission" then "Security"
  else if includes desc "alwayson" || includes desc "cluster"
          || includes desc "availability" then "High Availability"
  else if includes desc "job" || includes desc "agent"
          || includes desc "alert" then "SQL Server Agent"
  else if includes content "sys.dm_os_wait_stats"
          || includes content "sys.dm_exec_query_stats" then "Performance"
  else if includes content "sys.databases"
          || includes content "sys.master_files" then "Database Objects"
  else if includes content "msdb.dbo.backupset"
          || includes content "dbcc" then "Maintenance"
  else "General".

Definition estimateQueryDuration (query : string) : Z :=
  let queryLower := toLowerCase query in
  if includes queryLower "@@version" || includes queryLower "serverproperty"
     || includes queryLower "sys.configurations" then 500%Z
  else if includes queryLower "sys.dm_os_wait_stats"
          || includes queryLower "sys.dm_exec_query_stats"
          || includes queryLower "sys.dm_db_index_usage_stats" then 2000%Z
  else if includes queryLower "sys.dm_db_index_physical_stats"
          || includes queryLower "sys.dm_os_buffer_descriptors" then 5000%Z
  else if includes queryLower "cross apply"
          && includes queryLower "sys.dm_exec_sql_text" then 10000%Z
  else 3000%Z.

(** *** Extraction of one block *)

(** The loop over the lines of a block: comment and blank lines are passed
    over until the first other line, from which every line is kept. *)
Fixpoint collectSqlLines (inQuery : bool) (lines : list string) : list string :=
  match lines with
  | [] => []
  | line :: rest =>
      let trimmedLine := trim line in
      if negb inQuery && (startsWith trimmedLine "--" || isEmpty trimmedLine)
      then collectSqlLines inQuery rest
      else line :: collectSqlLines true rest
  end.

Definition extractQueryInfo (block : string) (queryNumber : nat) : option QueryInfo :=
  let '(name, section, description) :=
    match matchQueryPattern block with
    | Some captured =>
        let description := trim captured in
        (description, categorizeQuery description block, description)
    | None =>
        (("Query " ++ ofNat queryNumber)%string, "General", "SQL Server diagnostic query")
    end in
  let lines := splitOn (ascii_of_N 10) block in
  let sqlLines := collectSqlLines false lines in
  let query := trim (join nl sqlLines) in
  if isEmpty query || (String.length query <? 10)%nat then None
  else Some (mkQueryInfo name section description query).

(** The loop of [parseGlenBerryQueries] over the blocks it visits. *)
Fixpoint parseBlocks (queryBlocks : list string) (queryNumber : nat) : list Query :=
  match queryBlocks with
  | [] => []
  | raw :: rest =>
      let block := trim raw in
      if isEmpty block || (String.length block <? 50)%nat
      then parseBlocks rest queryNumber
      else
        match extractQueryInfo block queryNumber with
        | Some queryInfo =>
            if isEmpty (info_query queryInfo) then parseBlocks rest queryNumber
            else
              mkQuery ("glen-berry-" ++ ofNat queryNumber)%string
                      (info_name queryInfo)
                      (info_section queryInfo)
                      (info_description queryInfo)
                      (info_query queryInfo)
                      (estimateQueryDuration (info_query queryInfo))
                      (Some queryNumber)
                :: parseBlocks rest (S queryNumber)
        | None => parseBlocks rest queryNumber
        end
  end.

(** [for (let i = 0; i < queryBlocks.length - 1; i++)]: every block but the
    last one. *)
Definition parseGlenBerryQueries (sqlContent : string) (version : Z) : list Query :=
  let queryBlocks := splitQueryBlocks sqlContent in
  parseBlocks (removelast queryBlocks) 1.

(** *** The built-in sample queries *)

Definition getSampleQueries (version : Z) : list Query :=
  [
    mkQuery "version-info"
      "SQL and OS Version Information"
      "Instance Information"
      "Get SQL Server and OS version information"
      "SELECT @@SERVERNAME AS [Server Name], @@VERSION AS [SQL Server and OS Version Info];"
      1000%Z None;
    mkQuery "server-properties"
      "Server Properties"
      "Instance Information"
      "Get selected server properties"
      "
          SELECT SERVERPROPERTY('MachineName') AS [MachineName], 
          SERVERPROPERTY('ServerName') AS [ServerName],  
          SERVERPROPERTY('InstanceName') AS [Instance], 
          SERVERPROPERTY('IsClustered') AS [IsClustered], 
          SERVERPROPERTY('Edition') AS [Edition], 
          SERVERPROPERTY('ProductLevel') AS [ProductLevel],
          SERVERPROPERTY('ProductVersion') AS [ProductVersion],
          SERVERPROPERTY('Collation') AS [Collation];
        "
      1000%Z None;
    mkQuery "configuration-values"
      "Configuration Values"
      "Instance Information"
      "Get instance-level configuration values"
      "
          SELECT name, value, value_in_use, minimum, maximum, [description], is_dynamic, is_advanced
          FROM sys.configurations WITH (NOLOCK)
          ORDER BY name;
        "
      2000%Z None;
    mkQuery "hardware-info"
      "Hardware Information"
      "Hardware & OS"
      "Get hardware information from SQL Server"
      "
          SELECT cpu_count AS [Logical CPU Count], 
          scheduler_count, 
          physical_memory_kb/1024 AS [Physical Memory (MB)], 
          max_workers_count AS [Max Workers Count], 
          affinity_type_desc AS [Affinity Type], 
          sqlserver_start_time AS [SQL Server Start Time],
          DATEDIFF(hour, sqlserver_start_time, GETDATE()) AS [SQL Server Up Time (hrs)],
          virtual_machine_type_desc AS [Virtual Machine Type]
          FROM sys.dm_os_sys_info WITH (NOLOCK);
        "
      1000%Z None;
    mkQuery "memory-usage"
      "Memory Usage"
      "Hardware & OS"
      "Get memory usage information"
      "
          SELECT total_physical_memory_kb/1024 AS [Physical Memory (MB)], 
          available_physical_memory_kb/1024 AS [Available Memory (MB)], 
          total_page_file_kb/1024 AS [Page File Commit Limit (MB)],
          available_page_file_kb/1024 AS [Available Page File (MB)], 
          system_cache_kb/1024 AS [System Cache (MB)],
          system_memory_state_desc AS [System Memory State]
          FROM sys.dm_os_sys_memory WITH (NOLOCK);
        "
      1000%Z None;
    mkQuery "database-files"
      "Database Files"
      "Database Files"
      "File names and paths for all databases"
      "
          SELECT DB_NAME([database_id]) AS [Database Name], 
          [file_id], [name], physical_name, [type_desc], state_desc,
          is_percent_growth, growth, 
          CONVERT(bigint, growth/128.0) AS [Growth in MB], 
          CONVERT(bigint, size/128.0) AS [Total Size in MB], max_size
          FROM sys.master_files WITH (NOLOCK)
          ORDER BY DB_NAME([database_id]), [file_id];
        "
      2000%Z None;
    mkQuery "wait-stats"
      "Wait Statistics"
      "Performance"
      "Get wait statistics since last restart"
      "
          SELECT TOP(50) wait_type, 
          wait_time_ms, 
          signal_wait_time_ms,
          wait_time_ms - signal_wait_time_ms AS resource_wait_time_ms,
          waiting_tasks_count,
          wait_time_ms / waiting_tasks_count AS avg_wait_time_ms
          FROM sys.dm_os_wait_stats WITH (NOLOCK)
          WHERE waiting_tasks_count > 0
          AND wait_type NOT IN (
            'BROKER_EVENTHANDLER', 'BROKER_RECEIVE_WAITFOR', 'BROKER_TASK_STOP',
            'BROKER_TO_FLUSH', 'BROKER_TRANSMITTER', 'CHECKPOINT_QUEUE',
            'CHKPT', 'CLR_AUTO_EVENT', 'CLR_MANUAL_EVENT', 'CLR_SEMAPHORE',
            'DBMIRROR_DBM_EVENT', 'DBMIRROR_EVENTS_QUEUE', 'DBMIRROR_WORKER_QUEUE',
            'DBMIRRORING_CMD', 'DIRTY_PAGE_POLL', 'DISPATCHER_QUEUE_SEMAPHORE',
            'EXECSYNC', 'FSAGENT', 'FT_IFTS_SCHEDULER_IDLE_WAIT', 'FT_IFTSHC_MUTEX',
            'HADR_CLUSAPI_CALL', 'HADR_FILESTREAM_IOMGR_IOCOMPLETION', 'HADR_LOGCAPTURE_WAIT',
            'HADR_NOTIFICATION_DEQUEUE', 'HADR_TIMER_TASK', 'HADR_WORK_QUEUE',
            'KSOURCE_WAKEUP', 'LAZYWRITER_SLEEP', 'LOGMGR_QUEUE', 'ONDEMAND_TASK_QUEUE',
            'PWAIT_ALL_COMPONENTS_INITIALIZED', 'QDS_PERSIST_TASK_MAIN_LOOP_SLEEP',
            'QDS_CLEANUP_STALE_QUERIES_TASK_MAIN_LOOP_SLEEP', 'REQUEST_FOR_DEADLOCK_SEARCH',
            'RESOURCE_QUEUE', 'SERVER_IDLE_CHECK', 'SLEEP_BPOOL_FLUSH', 'SLEEP_DBSTARTUP',
            'SLEEP_DCOMSTARTUP', 'SLEEP_MASTERDBREADY', 'SLEEP_MASTERMDREADY',
            'SLEEP_MASTERUPGRADED', 'SLEEP_MSDBSTARTUP', 'SLEEP_SYSTEMTASK', 'SLEEP_TASK',
            'SLEEP_TEMPDBSTARTUP', 'SNI_HTTP_ACCEPT', 'SP_SERVER_DIAGNOSTICS_SLEEP',
            'SQLTRACE_BUFFER_FLUSH', 'SQLTRACE_INCREMENTAL_FLUSH_SLEEP', 'SQLTRACE_WAIT_ENTRIES',
            'WAIT_FOR_RESULTS', 'WAITFOR', 'WAITFOR_TASKSHUTDOWN', 'WAIT_XTP_HOST_WAIT',
            'WAIT_XTP_OFFLINE_CKPT_NEW_LOG', 'WAIT_XTP_CKPT_CLOSE', 'XE_DISPATCHER_JOIN',
            'XE_DISPATCHER_WAIT', 'XE_TIMER_EVENT'
          )
          ORDER BY wait_time_ms DESC;
        "
      3000%Z None;
    mkQuery "backup-history"
      "Backup History"
      "Maintenance"
      "Last backup information by database"
      "
          SELECT ISNULL(d.[name], bs.[database_name]) AS [Database], 
          d.recovery_model_desc AS [Recovery Model], 
          d.log_reuse_wait_desc AS [Log Reuse Wait Desc],
          MAX(CASE WHEN [type] = 'D' THEN bs.backup_finish_date ELSE NULL END) AS [Last Full Backup],
          MAX(CASE WHEN [type] = 'I' THEN bs.backup_finish_date ELSE NULL END) AS [Last Differential Backup],
          MAX(CASE WHEN [type] = 'L' THEN bs.backup_finish_date ELSE NULL END) AS [Last Log Backup]
          FROM sys.databases AS d WITH (NOLOCK)
          LEFT OUTER JOIN msdb.dbo.backupset AS bs WITH (NOLOCK)
          ON bs.[database_name] = d.[name]
          AND bs.backup_finish_date > GETDATE()- 30
          WHERE d.name <> N'tempdb'
          GROUP BY ISNULL(d.[name], bs.[database_name]), d.recovery_model_desc, d.log_reuse_wait_desc, d.[name] 
          ORDER BY d.recovery_model_desc, d.[name];
        "
      2000%Z None
  ].

(** *** The parser object and its section index *)

(** A [Map] from section name to the array of its queries, kept in the
    order in which the names were first set. *)
Definition SectionMap : Type := list (string * list Query).

Record Parser : Type := mkParser {
  queries : list Query;
  sections : SectionMap
}.

Fixpoint mapHas (m : SectionMap) (key : string) : bool :=
  match m with
  | [] => false
  | (k, _) :: m' => String.eqb k key || mapHas m' key
  end.

(** [m.set(key, [])] for a key that [m] does not hold yet. *)
Definition mapSetNew (m : SectionMap) (key : string) : SectionMap :=
  m ++ [(key, [])].

(** [m.get(key).push(query)]: the array held under [key] grows in place. *)
Fixpoint mapPush (m : SectionMap) (key : string) (q : Query) : SectionMap :=
  match m with
  | [] => []
  | (k, qs) :: m' =>
      if String.eqb k key then (k, qs ++ [q]) :: m'
      else (k, qs) :: mapPush m' key q
  end.

Definition organizeStep (m : SectionMap) (q : Query) : SectionMap :=
  let m1 := if mapHas m (section q) then m else mapSetNew m (section q) in
  mapPush m1 (section q) q.

Definition organizeSections (p : Parser) : Parser :=
  mkParser (queries p) (fold_left organizeStep (queries p) []).

(** [loadQueries]: [loaded] is what [loadGlenBerryQueries] resolved to
    (it absorbs its own errors and resolves to the empty array then). *)
Definition loadQueries (loaded : list Query) (p : Parser) (sqlServerVersion : Z) : Parser :=
  let p1 :=
    if (0 <? List.length loaded)%nat then mkParser loaded (sections p)
    else mkParser (getSampleQueries sqlServerVersion) (sections p) in
  organizeSections p1.

Record SectionSummary : Type := mkSectionSummary {
  summary_name : string;
  queryCount : nat;
  summary_estimatedDuration : Z
}.

(** The sum is over Numbers that hold small integers (the durations are
    estimates in milliseconds), where the addition of Numbers is exact. *)
Definition summarize (entry : string * list Query) : SectionSummary :=
  mkSectionSummary (fst entry) (List.length (snd entry))
    (fold_left (fun sum q => (sum + estimatedDuration q)%Z) (snd entry) 0%Z).

Definition getSections (loadGlenBerryQueries : Z -> list Query)
           (p : Parser) (version : Z) : Parser * list SectionSummary :=
  let p1 :=
    if (List.length (sections p) =? 0)%nat
    then loadQueries (loadGlenBerryQueries version) p version
    else p in
  (p1, map summarize (sections p1)).


(** *** The list of local versions *)

(** [Object.entries]: the properties in the order of [Object.keys]. *)
Definition Object_entries {V : Type} (o : JsObject V) : list (string * V) :=
  flat_map (fun k => match getProperty o k with
                     | Some v => [(k, v)]
                     | None => []
                     end)
           (Object_keys o).

(** The loop of [getAvailableVersions] over the entries.  [pathExists]
    answers for a file name of the pack directory, or rejects ([None]); a
    rejection leaves the loop. *)
Fixpoint collectLocalVersions (pathExists : string -> option bool)
         (entries : list (string * string)) (localVersions : list VersionKey)
  : option (list VersionKey) :=
  match entries with
  | [] => Some localVersions
  | (version, filename) :: rest =>
      match pathExists filename with
      | None => None
      | Some present =>
          collectLocalVersions pathExists rest
            (if present then localVersions ++ [toVersion version] else localVersions)
      end
  end.

Definition getAvailableVersions (pathExists : string -> option bool) : list VersionKey :=
  match collectLocalVersions pathExists (Object_entries queryPackFiles) [] with
  | Some localVersions => sort compareDescending localVersions
  | None => [VNum 2019]   (* Default fallback *)
  end.

End QueryParser.

(** ** The pack sources: local file, download, closest local version *)
Module PackSource.
Import JsString QueryParser.

(** Fallback URLs for online download if local files don't exist. *)
Definition fallbackUrls : JsObject string :=
  [
    ("2025",
     "https://www.dropbox.com/scl/fi/8qtdi3w5ix2bra8ytk7oy/SQL-Server-2025-Diagnostic-Information-Queries.sql?rlkey=kv1t4fdwe60nkd7fl0jukhnnq&dl=1");
    ("2022",
     "https://www.dropbox.com/s/6rb2f97ocvkq7fw/SQL%20Server%202022%20Diagnostic%20Information%20Queries.sql?dl=1");
    ("2019",
     "https://www.dropbox.com/s/k1vauzxxhyh1fnb/SQL%20Server%202019%20Diagnostic%20Information%20Queries.sql?dl=1");
    ("2017",
     "https://www.dropbox.com/scl/fi/0q4sbb7xb3x3vmbhkdga3/SQL-Server-2017-Diagnostic-Information-Queries.sql?rlkey=nli5q22tgqqw7oxvoqyeujmmc&dl=1");
    ("2016",
     "https://www.dropbox.com/s/w6gi8j76k64fgbg/SQL%20Server%202016%20SP1%20Diagnostic%20Information%20Queries.sql?dl=1");
    ("2016SP2",
     "https://www.dropbox.com/s/pkpxihdkq3odgbj/SQL%20Server%202016%20SP2%20Diagnostic%20Information%20Queries.sql?dl=1");
    ("2014",
     "https://www.dropbox.com/s/uttp0843e5078vs/SQL%20Server%202014%20Diagnostic%20Information%20Queries.sql?dl=1");
    ("2012",
     "https://www.dropbox.com/s/3l4yotzedk45xeh/SQL%20Server%202012%20Diagnostic%20Information%20Queries.sql?dl=1");
    ("2008",
     "https://www.dropbox.com/s/fq6hyw899fe3crv/SQL%20Server%202008%20R2%20Diagnostic%20Information%20Queries.sql?dl=1");
    ("2008R2",
     "https://www.dropbox.com/s/fq6hyw899fe3crv/SQL%20Server%202008%20R2%20Diagnostic%20Information%20Queries.sql?dl=1");
    ("2008STD",
     "https://www.dropbox.com/s/mjxw1w9tgw7eo6g/SQL%20Server%202008%20Diagnostic%20Information%20Queries.sql?dl=1");
    ("2005",
     "https://www.dropbox.com/s/3kkskuheyzauih9/SQL%20Server%202005%20Diagnostic%20Information%20Queries.sql?dl=1") ].

(** The outside of the parser: the pack directory and the network.
    [fileExists] answers for a file name of the pack directory; [readFile]
    gives its content, or fails ([None]); [httpGet] gives the body answered
    for a URL, or fails ([None]: no answer in time, or a status outside
    2xx). *)
Record World : Type := mkWorld {
  fileExists : string -> bool;
  readFile : string -> option string;
  httpGet : string -> option string
}.

(** What a load does to the outside, in order. *)
Inductive IO : Type :=
| ReadFile (filename : string)
| HttpGet (url : string).

(** A version as the callers hand it over: a Number (the server's major
    version or a year, possibly NaN) or a string (a path parameter, or one
    of the suffixed names of the table). *)
Definition Version : Type := VersionKey.

(** [parseInt(version)]; [None] is NaN. *)
Definition parseIntValue (lead : Z -> Z) (version : Version) : option Z :=
  match version with
  | VNum n => Some (parseIntNumber lead n)
  | VNaN => None
  | VStr s => parseIntString s
  end.

(** The tests of [mapVersionToKey] on the number read; every comparison
    with NaN fails, which leaves the default. *)
Definition keyOfNumber (versionNum : option Z) : Z :=
  match versionNum with
  | None => 2019%Z
  | Some versionNum =>
      if (2005 <=? versionNum)%Z && (versionNum <=? 2025)%Z then versionNum
      else if (17 <=? versionNum)%Z then 2025%Z
      else if (16 <=? versionNum)%Z then 2022%Z
      else if (15 <=? versionNum)%Z then 2019%Z
      else if (14 <=? versionNum)%Z then 2017%Z
      else if (13 <=? versionNum)%Z then 2016%Z
      else if (12 <=? versionNum)%Z then 2014%Z
      else if (11 <=? versionNum)%Z then 2012%Z
      else if (10 <=? versionNum)%Z then 2008%Z
      else if (9 <=? versionNum)%Z then 2005%Z
      else 2019%Z
  end.

(** [mapVersionToKey] on any version. *)
Definition mapVersionValueToKey (lead : Z -> Z) (version : Version) : Z :=
  keyOfNumber (parseIntValue lead version).

Definition urlOf (versionKey : Z) : option string :=
  getProperty fallbackUrls (propertyName versionKey).

(** The characters a numeric string literal is written with: white space,
    digits, sign, point, exponent mark, the hexadecimal digits, the radix
    marks [x], [o], [b] and the letters of [Infinity]. *)
Definition literalChars : string := "+-.abcdefABCDEFxXoOInity".

Fixpoint occursIn (c : ascii) (s : string) : bool :=
  match s with
  | EmptyString => false
  | String c' s' => Ascii.eqb c c' || occursIn c s'
  end.

Definition isLiteralChar (c : ascii) : bool :=
  isWhiteSpace c || isDigit c || occursIn c literalChars.

Fixpoint allLiteralChars (s : string) : bool :=
  match s with
  | EmptyString => true
  | String c s' => isLiteralChar c && allLiteralChars s'
  end.

(** The Number a version stands for in the comparison
    [versionNum <= targetVersion] ([None] is NaN).  A string converts as
    [Number(s)] does: a run of digits (blanks around it aside) is its value,
    the empty string 0, and a string with a character that no numeric
    literal has is NaN.  For what is left, the signed, fractional, exponent,
    radix and [Infinity] literals and the malformed strings over these
    characters, [numberOfLiteral s] stands for the conversion: [None] for
    NaN, else the integer that compares as the Number does against the
    years of the table. *)
Definition toNumber (numberOfLiteral : string -> option Z) (version : Version) : option Z :=
  match version with
  | VNum n => Some n
  | VNaN => None
  | VStr s =>
      if allDigits (trim s) then Some (decimalValue (trim s))
      else if allLiteralChars s then numberOfLiteral s
      else None
  end.

(** The loop of [getClosestAvailableVersion] for a target of any kind:
    [parseInt(version) <= targetVersion]. *)
Fixpoint firstNotNewerThan (targetVersion : option Z) (l : list VersionKey)
  : option VersionKey :=
  match l with
  | [] => None
  | version :: l' =>
      match parseIntVersion version, targetVersion with
      | Some versionNum, Some target =>
          if (versionNum <=? target)%Z then Some version
          else firstNotNewerThan targetVersion l'
      | _, _ => firstNotNewerThan targetVersion l'
      end
  end.

Definition getClosestAvailableVersionOf (numberOfLiteral : string -> option Z)
           (existsSync : string -> bool) (targetVersion : Version) : option VersionKey :=
  let available := availableVersions existsSync in
  match firstNotNewerThan (toNumber numberOfLiteral targetVersion) available with
  | Some version => Some version
  | None => lastElement available
  end.

(** [a !== b]: Numbers by value (NaN differs from itself), strings by
    content, a Number and a string always differ. *)
Definition strictlyDiffers (a b : Version) : bool :=
  match a, b with
  | VNum x, VNum y => negb (x =? y)%Z
  | VStr s, VStr t => negb (String.eqb s t)
  | _, _ => true
  end.

(** Truthiness of a version: not 0, not NaN, not the empty string. *)
Definition truthy (v : Version) : bool :=
  match v with
  | VNum n => negb (n =? 0)%Z
  | VNaN => false
  | VStr s => negb (isEmpty s)
  end.

(** The parser does not look at its second argument; a Number is handed on
    as it is. *)
Definition parsePack (sqlContent : string) (sqlServerVersion : Version) : list Query :=
  parseGlenBerryQueries sqlContent
    (match sqlServerVersion with VNum n => n | _ => 0%Z end).

(** [loadLocalQueryPack]: the content, or [null], with what was read. *)
Definition loadLocalQueryPack (lead : Z -> Z) (world : World) (sqlServerVersion : Version)
  : option string * list IO :=
  let versionKey := mapVersionValueToKey lead sqlServerVersion in
  match packFileOf versionKey with
  | None => (None, [])
  | Some filename =>
      if negb (fileExists world filename) then (None, [])
      else (readFile world filename, [ReadFile filename])
  end.

(** The queries loaded, with what was done to the outside. *)
Definition Loaded : Type := (list Query * list IO)%type.

Definition after (io : list IO) (r : option Loaded) : option Loaded :=
  match r with
  | Some (queries, io') => Some (queries, io ++ io')
  | None => None
  end.

(** [downloadAndParseQueries]; [loadAgain] is [loadGlenBerryQueries]. *)
Definition downloadAndParseQueries (loadAgain : Version -> option Loaded)
           (lead : Z -> Z) (numberOfLiteral : string -> option Z) (world : World)
           (sqlServerVersion : Version) : option Loaded :=
  let versionKey := mapVersionValueToKey lead sqlServerVersion in
  match urlOf versionKey with
  | None => loadAgain (VNum 2019)
  | Some url =>
      match httpGet world url with
      | Some data => Some (parsePack data sqlServerVersion, [HttpGet url])
      | None =>
          match getClosestAvailableVersionOf numberOfLiteral (fileExists world)
                                             sqlServerVersion with
          | Some fallbackVersion =>
              if truthy fallbackVersion && strictlyDiffers fallbackVersion sqlServerVersion
              then after [HttpGet url] (loadAgain fallbackVersion)
              else Some ([], [HttpGet url])
          | None => Some ([], [HttpGet url])
          end
      end
  end.

(** [loadGlenBerryQueries].  It calls itself through
    [downloadAndParseQueries]; [fuel] bounds the depth of these calls, and
    [None] means that the bound was reached. *)
Fixpoint loadGlenBerryQueries (fuel : nat) (lead : Z -> Z)
         (numberOfLiteral : string -> option Z) (world : World)
         (sqlServerVersion : Version) : option Loaded :=
  match fuel with
  | O => None
  | S fuel' =>
      match loadLocalQueryPack lead world sqlServerVersion with
      | (Some sqlContent, io) =>
          if negb (isEmpty sqlContent) then Some (parsePack sqlContent sqlServerVersion, io)
          else after io (downloadAndParseQueries
                           (loadGlenBerryQueries fuel' lead numberOfLiteral world)
                           lead numberOfLiteral world sqlServerVersion)
      | (None, io) =>
          after io (downloadAndParseQueries
                      (loadGlenBerryQueries fuel' lead numberOfLiteral world)
                      lead numberOfLiteral world sqlServerVersion)
      end
  end.

End PackSource.

(** ** ExecutionEngine *)
Module ExecutionEngine.
Import QueryParser.

(** A thrown [Error]. *)
Record JsError : Type := mkError { message : string }.

Definition Row : Type := string.

(** What the connection manager resolves to: an array of rows, an object
    with a [recordset], or anything else ([undefined] included). *)
Inductive QueryResult : Type :=
| ResultArray (rows : list Row)
| ResultRecordset (rows : list Row)
| ResultOther.

Record Config : Type := mkConfig {
  timeout : option Z;
  maxRetries : option Z;
  retryDelay : option Z;
  continueOnError : bool
}.

(** [value || fallback] on a Number that may be absent: 0 is falsy. *)
Definition orDefault (value : option Z) (fallback : Z) : Z :=
  match value with
  | Some v => if (v =? 0)%Z then fallback else v
  | None => fallback
  end.

Record Progress : Type := mkProgress {
  completed : nat;
  total : nat;
  currentQuery : string
}.

(** What the engine does to the outside, in order: a call of the
    connection manager with what it answered, a wait between two attempts,
    a call of the progress callback. *)
Inductive Event : Type :=
| Executed (text : string) (timeoutMs : Z) (answer : QueryResult + JsError)
| Slept (ms : Z)
| Progressed (p : Progress).

(** The collaborators, over a state [S] of the outside world:
    the connection manager, the timer and the clock. *)
Record Env (S : Type) : Type := mkEnv {
  connectionExecute : S -> string -> Z -> S * (QueryResult + JsError);
  sleep : S -> Z -> S;
  now : S -> S * Z
}.
Arguments connectionExecute {S}.
Arguments sleep {S}.
Arguments now {S}.

(** The progress callback: it may change the world and may throw. *)
Definition ProgressCallback (S : Type) : Type :=
  S -> Progress -> S * option JsError.

(** Computations of the engine: the world is threaded, the events are
    collected in order, and the result is a value or a thrown error. *)
Definition M (S A : Type) : Type := S -> S * list Event * (A + JsError).

Definition ret {S A : Type} (a : A) : M S A := fun s => (s, [], inl a).

Definition throw {S A : Type} (e : JsError) : M S A := fun s => (s, [], inr e).

Definition bind {S A B : Type} (m : M S A) (k : A -> M S B) : M S B :=
  fun s =>
    match m s with
    | (s1, ev1, inl a) =>
        match k a s1 with
        | (s2, ev2, r) => (s2, ev1 ++ ev2, r)
        end
    | (s1, ev1, inr e) => (s1, ev1, inr e)
    end.

Definition tryCatch {S A : Type} (m : M S A) (handler : JsError -> M S A) : M S A :=
  fun s =>
    match m s with
    | (s1, ev1, inl a) => (s1, ev1, inl a)
    | (s1, ev1, inr e) =>
        match handler e s1 with
        | (s2, ev2, r) => (s2, ev1 ++ ev2, r)
        end
    end.

Notation "x <- m ;; k" := (bind m (fun x => k))
  (at level 61, m at next level, right associativity).
Notation "m ;; k" := (bind m (fun _ => k))
  (at level 61, right associativity).

Record Outcome : Type := mkOutcome {
  outcome_id : string;
  outcome_name : string;
  outcome_section : string;
  outcome_description : string;
  success : bool;
  error : option string;       (* present on a failure only *)
  executionTime : Z;
  rowCount : nat;
  data : list Row;
  timestamp : Z                (* the clock reading that is printed *)
}.

Record Results : Type := mkResults {
  results_data : list Outcome;
  successful : nat;
  failed : nat;
  results_executionTime : Z
}.

(** The engine over its collaborators.  Calls of the logger are left out:
    they return nothing and take no part in the control flow. *)
Section Engine.
Context {S : Type} (env : Env S) (config : Config).

Definition callExecute (text : string) (timeoutMs : Z) : M S QueryResult :=
  fun s =>
    let '(s1, r) := connectionExecute env s text timeoutMs in
    (s1, [Executed text timeoutMs r], r).

Definition callSleep (ms : Z) : M S unit :=
  fun s => (sleep env s ms, [Slept ms], inl tt).

Definition clock : M S Z :=
  fun s => let '(s1, t) := now env s in (s1, [], inl t).

Definition notify (progressCallback : option (ProgressCallback S)) (p : Progress) : M S unit :=
  match progressCallback with
  | None => ret tt
  | Some callback =>
      fun s =>
        match callback s p with
        | (s1, None) => (s1, [Progressed p], inl tt)
        | (s1, Some e) => (s1, [Progressed p], inr e)
        end
  end.

(** The [while (retries <= maxRetries)] loop of [executeQuery].  Every
    pass that comes back to the test has raised [retries] by one, so
    the loop makes at most [maxRetries + 1] passes; [fuel] counts the
    passes still allowed, and the loop falls through (to [undefined])
    where the test fails. *)
Fixpoint retryLoop (fuel : nat) (text : string) (timeoutMs maxRetries retryDelay retries : Z)
  : M S QueryResult :=
  match fuel with
  | O => ret ResultOther
  | Datatypes.S fuel' =>
      if (retries <=? maxRetries)%Z
      then
        tryCatch
          (callExecute text timeoutMs)
          (fun error =>
             let retries := (retries + 1)%Z in
             if (retries >? maxRetries)%Z then throw error
             else
               (if (retryDelay >? 0)%Z then callSleep retryDelay else ret tt) ;;
               retryLoop fuel' text timeoutMs maxRetries retryDelay retries)
      else ret ResultOther
  end.

Definition executeQuery (q : Query) : M S QueryResult :=
  let timeoutMs := orDefault (timeout config) 30000 in
  let retries := 0%Z in
  let maxRetries := orDefault (maxRetries config) 3 in
  let retryDelay := orDefault (retryDelay config) 1000 in
  retryLoop (Z.to_nat (maxRetries + 1)) (query q) timeoutMs maxRetries retryDelay retries.

Definition rowsOf (queryResult : QueryResult) : list Row :=
  match queryResult with
  | ResultArray rows => rows
  | ResultRecordset rows => rows
  | ResultOther => []
  end.

(** The [try] block of one pass of the [for] loop. *)
Definition tryRecord (progressCallback : option (ProgressCallback S))
           (i totalCount : nat) (q : Query) : M S Outcome :=
  notify progressCallback (mkProgress i totalCount (name q)) ;;
  queryStartTime <- clock ;;
  queryResult <- executeQuery q ;;
  queryEndTime <- clock ;;
  let rowCount := List.length (rowsOf queryResult) in
  let resultData := rowsOf queryResult in
  stamp <- clock ;;
  ret (mkOutcome (id q) (name q) (section q) (description q)
         true None (queryEndTime - queryStartTime)%Z rowCount resultData stamp).

(** The [catch] block: the failure is recorded. *)
Definition failureOutcome (q : Query) (e : JsError) (stamp : Z) : Outcome :=
  mkOutcome (id q) (name q) (section q) (description q)
    false (Some (message e)) 0%Z 0%nat [] stamp.

(** The state in which the [for] loop of [executeQueries] ends: the world,
    the events, the local [results], and the error thrown out of the
    loop, if one was. *)
Definition LoopEnd : Type := S * list Event * Results * option JsError.

Fixpoint forLoop (progressCallback : option (ProgressCallback S))
         (i totalCount : nat) (rest : list Query) (results : Results) (s : S) : LoopEnd :=
  match rest with
  | [] => (s, [], results, None)
  | q :: rest' =>
      match tryRecord progressCallback i totalCount q s with
      | (s1, ev1, inl outcome) =>
          let results1 :=
            mkResults (results_data results ++ [outcome])
                      (Datatypes.S (successful results)) (failed results)
                      (results_executionTime results) in
          match forLoop progressCallback (Datatypes.S i) totalCount rest' results1 s1 with
          | (s2, ev2, results2, thrown) => (s2, ev1 ++ ev2, results2, thrown)
          end
      | (s1, ev1, inr e) =>
          let '(s1', stamp) := now env s1 in
          let results1 :=
            mkResults (results_data results ++ [failureOutcome q e stamp])
                      (successful results) (Datatypes.S (failed results))
                      (results_executionTime results) in
          if negb (continueOnError config) then (s1', ev1, results1, Some e)
          else
            match forLoop progressCallback (Datatypes.S i) totalCount rest' results1 s1' with
            | (s2, ev2, results2, thrown) => (s2, ev1 ++ ev2, results2, thrown)
            end
      end
  end.

Definition emptyResults : Results := mkResults [] 0 0 0%Z.

Definition executeQueries (queries : list Query)
           (progressCallback : option (ProgressCallback S)) : M S Results :=
  fun s =>
    let '(s0, startTime) := now env s in
    match forLoop progressCallback 0 (List.length queries) queries emptyResults s0 with
    | (s1, ev1, _, Some e) => (s1, ev1, inr e)
    | (s1, ev1, results, None) =>
        match
          (notify progressCallback
             (mkProgress (List.length queries) (List.length queries) "Complete") ;;
           endTime <- clock ;;
           ret (mkResults (results_data results) (successful results) (failed results)
                  (endTime - startTime)%Z)) s1
        with
        | (s2, ev2, r) => (s2, ev1 ++ ev2, r)
        end
    end.

(** [testConnection]: one query with its own timeout of 5 seconds, outside
    the retry loop.  [result.length] is read off the answer: an array has
    one; on an object with a [recordset] it is [undefined], and
    [undefined > 0] is false; on [undefined] or [null] reading it throws,
    which the [catch] turns into [false] as well. *)
Definition testConnection : M S bool :=
  tryCatch
    (result <- callExecute "SELECT 1 as test" 5000 ;;
     match result with
     | ResultArray rows => ret (0 <? List.length rows)%nat
     | ResultRecordset _ => ret false
     | ResultOther => ret false
     end)
    (fun error => ret false).

End Engine.

(** *** Readings of an event list *)

Fixpoint progressOf (events : list Event) : list Progress :=
  match events with
  | [] => []
  | Progressed p :: rest => p :: progressOf rest
  | _ :: rest => progressOf rest
  end.

(** The calls of the connection manager: text and answer. *)
Fixpoint executionsOf (events : list Event) : list (string * (QueryResult + JsError)) :=
  match events with
  | [] => []
  | Executed text _ answer :: rest => (text, answer) :: executionsOf rest
  | _ :: rest => executionsOf rest
  end.

Fixpoint sleepsOf (events : list Event) : list Z :=
  match events with
  | [] => []
  | Slept ms :: rest => ms :: sleepsOf rest
  | _ :: rest => sleepsOf rest
  end.

(** The timeouts handed to the connection manager, call by call. *)
Fixpoint timeoutsOf (events : list Event) : list Z :=
  match events with
  | [] => []
  | Executed _ timeoutMs _ :: rest => timeoutMs :: timeoutsOf rest
  | _ :: rest => timeoutsOf rest
  end.

(** The progress events of a full run over [queries]: one per record,
    numbered from [i], each with the record's name. *)
Fixpoint recordProgress (i totalCount : nat) (queries : list Query) : list Progress :=
  match queries with
  | [] => []
  | q :: rest => mkProgress i totalCount (name q) :: recordProgress (Datatypes.S i) totalCount rest
  end.

End ExecutionEngine.

(** ** ConnectionManager.executeQuery

    The connection manager in front of the driver's pool.  The pool is a
    collaborator: [poolQuery] runs a text on it with the request timeout
    (when one was set) and answers with the result's [recordset] (absent for
    a statement that returns no rows) or rejects. *)
Module ConnectionManager.
Import ExecutionEngine.

Record Manager (P : Type) : Type := mkManager {
  isConnected : bool;
  pool : P
}.
Arguments mkManager {P}.
Arguments isConnected {P}.
Arguments pool {P}.

Definition PoolQuery (P : Type) : Type :=
  P -> string -> option Z -> P * (option (list Row) + JsError).

(** [if (timeout) request.timeout = timeout]: 0 sets nothing. *)
Definition requestTimeout (timeoutMs : Z) : option Z :=
  if (timeoutMs =? 0)%Z then None else Some timeoutMs.

Definition executeQuery {P : Type} (poolQuery : PoolQuery P)
           (m : Manager P) (text : string) (timeoutMs : Z)
  : Manager P * (QueryResult + JsError) :=
  if negb (isConnected m) then (m, inr (mkError "Not connected to SQL Server"))
  else
    match poolQuery (pool m) text (requestTimeout timeoutMs) with
    | (pool', inl (Some recordset)) =>
        (mkManager (isConnected m) pool', inl (ResultArray recordset))
    | (pool', inl None) => (mkManager (isConnected m) pool', inl ResultOther)
    | (pool', inr error) => (mkManager (isConnected m) pool', inr error)
    end.

(** The engine's collaborators when the connection manager is this one:
    the world is the manager and a clock [C] with its timer. *)
Definition managedEnv {P C : Type} (poolQuery : PoolQuery P)
           (timer : C -> Z -> C) (read : C -> C * Z) : Env (Manager P * C) :=
  mkEnv (Manager P * C)
        (fun w text timeoutMs =>
           let '(m', answer) := executeQuery poolQuery (fst w) text timeoutMs in
           ((m', snd w), answer))
        (fun w ms => (fst w, timer (snd w) ms))
        (fun w => let '(c', t) := read (snd w) in ((fst w, c'), t)).

End ConnectionManager.

(** ** The classifier as the specification words it

    An ordered list of (keywords, label) rules tried on the description, a
    second ordered list tried on the body, and ["General"] when none fires;
    in each list the first rule that matches decides. *)
Module ClassifierSpec.
Import JsString.

Definition Rule : Type := (list string * string)%type.

Definition descriptionRules : list Rule :=
  [ (["version"; "server properties"; "configuration"], "Instance Information");
    (["memory"; "hardware"; "cpu"; "numa"], "Hardware & OS");
    (["backup"; "maintenance"; "statistics"; "fragmentation"], "Maintenance");
    (["wait"; "performance"; "execution"; "expensive"], "Performance");
    (["database"; "file"; "table"; "index"], "Database Objects");
    (["security"; "login"; "permission"], "Security");
    (["alwayson"; "cluster"; "availability"], "High Availability");
    (["job"; "agent"; "alert"], "SQL Server Agent") ].

Definition contentRules : list Rule :=
  [ (["sys.dm_os_wait_stats"; "sys.dm_exec_query_stats"], "Performance");
    (["sys.databases"; "sys.master_files"], "Database Objects");
    (["msdb.dbo.backupset"; "dbcc"], "Maintenance") ].

Definition ruleMatches (text : string) (r : Rule) : bool :=
  existsb (fun keyword => includes text keyword) (fst r).

Fixpoint firstMatch (rules : list Rule) (text : string) : option string :=
  match rules with
  | [] => None
  | r :: rules' => if ruleMatches text r then Some (snd r) else firstMatch rules' text
  end.

Definition classifySection (description body : string) : string :=
  match firstMatch descriptionRules (toLowerCase description) with
  | Some label => label
  | None =>
      match firstMatch contentRules (toLowerCase body) with
      | Some label => label
      | None => "General"
      end
  end.

End ClassifierSpec.

(** ** Notions used to state the properties *)
Module Notions.
Import JsString QueryParser ExecutionEngine.

(** A version is available when the pack file of one of the table's names
    exists. *)
Definition isAvailable (existsSync : string -> bool) (v : VersionKey) : Prop :=
  exists key filename,
    In (key, filename) queryPackFiles
    /\ existsSync filename = true
    /\ toVersion key = v.

(** The year a version stands for: its numeric component. *)
Definition yearOf (v : VersionKey) : Z :=
  match parseIntVersion v with
  | Some n => n
  | None => 0%Z
  end.

(** The version reads as a number. *)
Definition parses (v : VersionKey) : Prop := parseIntVersion v <> None.

(** The order of the sorted version array. *)
Definition newerOrSame (a b : VersionKey) : Prop := (yearOf a >= yearOf b)%Z.

(** The record made from an accepted block. *)
Definition recordOf (info : QueryInfo) (n : nat) : Query :=
  mkQuery ("glen-berry-" ++ ofNat n)%string
          (info_name info) (info_section info) (info_description info)
          (info_query info) (estimateQueryDuration (info_query info)) (Some n).

(** The test that passes over a block: [!block || block.length < 50]. *)
Definition tooShort (raw : string) : bool :=
  isEmpty (trim raw) || (String.length (trim raw) <? 50)%nat.

(** A block that the loop of [parseGlenBerryQueries] accepts: long enough
    once trimmed, and with a statement that [extractQueryInfo] finds.  The
    number handed to [extractQueryInfo] only names a block without an
    annotation; it does not decide whether the block is accepted. *)
Definition accepted (raw : string) : bool :=
  negb (tooShort raw)
  && match extractQueryInfo (trim raw) 0 with
     | Some info => negb (isEmpty (info_query info))
     | None => false
     end.

(** The records of [queries] that carry the section [name], in their order. *)
Definition membersOf (name : string) (queries : list Query) : list Query :=
  filter (fun q => String.eqb (section q) name) queries.

Definition sumDurations (members : list Query) : Z :=
  fold_right Z.add 0%Z (map estimatedDuration members).

(** [m.get(key)]; [None] is [undefined]. *)
Fixpoint mapGet (m : SectionMap) (key : string) : option (list Query) :=
  match m with
  | [] => None
  | (k, members) :: m' => if String.eqb k key then Some members else mapGet m' key
  end.

(** The section index partitions [queries]: the names are distinct, the
    list under a name holds exactly the records of that section in their
    order and is not empty, and every record is in the list of its section. *)
Definition partitions (queries : list Query) (m : SectionMap) : Prop :=
  NoDup (map fst m)
  /\ (forall name members,
         In (name, members) m -> members = membersOf name queries /\ members <> [])
  /\ (forall q, In q queries ->
                exists members, In (section q, members) m /\ In q members)
  /\ (forall q name members, In (name, members) m -> In q members -> name = section q).

(** The index built so far, read through [mapGet]: the names are distinct
    and each name holds its members, the names without members being
    absent. *)
Definition indexes (done : list Query) (m : SectionMap) : Prop :=
  NoDup (map fst m)
  /\ forall name,
      mapGet m name =
      match membersOf name done with
      | [] => None
      | members => Some members
      end.

(** The counts of the index add up: each step files one record. *)
Definition totalCount (m : SectionMap) : nat :=
  list_sum (map (fun entry => List.length (snd entry)) m).

(** The pause between two attempts. *)
Definition pause {S : Type} (env : Env S) (retryDelay : Z) : M S unit :=
  if (retryDelay >? 0)%Z then callSleep env retryDelay else ret tt.

(** A progress callback that never throws (or none at all). *)
Definition quiet {S : Type} (progressCallback : option (ProgressCallback S)) : Prop :=
  forall callback, progressCallback = Some callback ->
                   forall s p, snd (callback s p) = None.

(** The event of telling the callback, when there is one. *)
Definition notifyEvents {S : Type} (progressCallback : option (ProgressCallback S))
           (p : Progress) : list Event :=
  match progressCallback with
  | Some _ => [Progressed p]
  | None => []
  end.

(** The connection manager answers [text] with rows, whatever the state. *)
Definition succeedsOn {S : Type} (env : Env S) (text : string) : Prop :=
  forall s ms, exists s' result, connectionExecute env s text ms = (s', inl result).

(** The connection manager answers [text] with an error, whatever the
    state, and the error carries a message. *)
Definition failsOn {S : Type} (env : Env S) (text : string) : Prop :=
  forall s ms, exists s' e,
      connectionExecute env s text ms = (s', inr e) /\ message e <> EmptyString.

(** The events of a run, cut by record: the piece of each record opens with
    the progress event that announces it (its index, the total, its name;
    nothing when there is no callback), and holds after it no progress event
    and no call but for the text of that record. *)
Fixpoint segmentsFor {S : Type} (progressCallback : option (ProgressCallback S))
         (i totalCount : nat) (queries : list Query)
         (segments : list (list Event)) : Prop :=
  match queries, segments with
  | [], [] => True
  | q :: queries', segment :: segments' =>
      (exists rest,
          segment = notifyEvents progressCallback (mkProgress i totalCount (name q)) ++ rest
          /\ progressOf rest = []
          /\ Forall (fun call => fst call = query q) (executionsOf rest))
      /\ segmentsFor progressCallback (Datatypes.S i) totalCount queries' segments'
  | _, _ => False
  end.

(** The outcomes that a run of the loop has added to [results]. *)
Definition addedOutcomes (results results' : Results) (outcomes : list Outcome) : Prop :=
  results_data results' = results_data results ++ outcomes
  /\ successful results'
     = (successful results + List.length (filter success outcomes))%nat
  /\ failed results'
     = (failed results + List.length (filter (fun o => negb (success o)) outcomes))%nat
  /\ results_executionTime results' = results_executionTime results.

(** An outcome that records the failure of [q] with the error [e]. *)
Definition recordsFailure (q : Query) (e : JsError) (outcome : Outcome) : Prop :=
  success outcome = false
  /\ error outcome = Some (message e)
  /\ rowCount outcome = 0%nat
  /\ executionTime outcome = 0%Z
  /\ data outcome = []
  /\ outcome_id outcome = id q
  /\ outcome_name outcome = name q.

(** *** A scenario: three records, the second of which the server refuses *)

Definition record1 : Query :=
  mkQuery "glen-berry-1" "Version Info" "Instance Information" "Version Info"
          "SELECT @@VERSION AS [Version];" 500 (Some 1%nat).

Definition record2 : Query :=
  mkQuery "glen-berry-2" "Top Waits" "Performance" "Top Waits"
          "SELECT wait_type FROM sys.dm_os_wait_stats;" 2000 (Some 2%nat).

Definition record3 : Query :=
  mkQuery "glen-berry-3" "Database Files" "Database Objects" "Database Files"
          "SELECT name FROM sys.master_files;" 3000 (Some 3%nat).

(** The world is a clock in milliseconds.  A call takes 5 ms and a reading
    of the clock 1 ms; the text of [record2] times out, any other text
    returns two rows. *)
Definition scenarioEnv : Env Z :=
  mkEnv Z
    (fun s text ms =>
       ((s + 5)%Z,
        if String.eqb text (query record2)
        then inr (mkError "Timeout: Request failed to complete in 30000ms")
        else inl (ResultArray ["row 1"; "row 2"]%string)))
    (fun s ms => (s + ms)%Z)
    (fun s => ((s + 1)%Z, s)).

(** A connection that refuses every text. *)
Definition refusingEnv : Env Z :=
  mkEnv Z
    (fun s text ms => ((s + 5)%Z, inr (mkError "Connection is closed")))
    (fun s ms => (s + ms)%Z)
    (fun s => ((s + 1)%Z, s)).

Definition scenarioCallback : ProgressCallback Z := fun s p => (s, None).

Definition scenarioConfig (continueOnError : bool) : Config :=
  mkConfig (Some 30000%Z) (Some 1%Z) (Some 1000%Z) continueOnError.

(** A key resolves to a pack when the table maps it to a file. *)
Definition resolvesToPack (versionKey : Z) : Prop :=
  exists filename, packFileOf versionKey = Some filename.

(** The release years among the names of [queryPackFiles]. *)
Definition releaseYears : list Z :=
  [2005; 2008; 2012; 2014; 2016; 2017; 2019; 2022; 2025]%Z.

(** A pack directory that holds the 2012, 2016 and 2019 packs only. *)
Definition packs_2012_2016_2019 (filename : string) : bool :=
  String.eqb filename "sql-server-2012-queries.sql"
  || String.eqb filename "sql-server-2016-queries.sql"
  || String.eqb filename "sql-server-2019-queries.sql".

(** A pack of four blocks and a remainder.  The second block holds
    comments only, so no statement is found in it; the remainder after the
    last delimiter looks like a query. *)
Definition examplePack : string :=
  ("-- SQL and OS Version information for current instance  (Query 1) (Version Info)" ++ nl
   ++ "SELECT @@SERVERNAME AS [Server Name], @@VERSION AS [SQL Server and OS Version Info];" ++ nl
   ++ "------" ++ nl
   ++ "-- Be sure to apply the latest cumulative update before reading the results" ++ nl
   ++ "-- (nothing to run in this block)" ++ nl
   ++ "------" ++ nl
   ++ "-- Get instance-level configuration values for instance  (Query 2) (Configuration Values)" ++ nl
   ++ "SELECT name, value, value_in_use FROM sys.configurations WITH (NOLOCK) ORDER BY name;" ++ nl
   ++ "------" ++ nl
   ++ "-- Isolate top waits for server instance since last restart  (Query 3) (Top Waits)" ++ nl
   ++ "SELECT wait_type, wait_time_ms FROM sys.dm_os_wait_stats WITH (NOLOCK);" ++ nl
   ++ "------" ++ nl
   ++ "-- Volume information for all LUNs with database files  (Query 4) (Volume Info)" ++ nl
   ++ "SELECT DISTINCT vs.volume_mount_point FROM sys.master_files AS f;" ++ nl)%string.

(** A pack whose only delimited block is short. *)
Definition shortBlockPack : string :=
  ("-- (Query 1) (Ping)" ++ nl ++ "SELECT 1 AS [Ping];" ++ nl
   ++ "------" ++ nl
   ++ "-- Volume information for all LUNs with database files  (Query 2) (Volume Info)" ++ nl
   ++ "SELECT DISTINCT vs.volume_mount_point FROM sys.master_files AS f;" ++ nl)%string.

End Notions.

(** ** Further notions: the closed sets of labels and tiers *)
Module Catalogue.
Import JsString QueryParser PackSource ExecutionEngine Notions.

(** The labels [categorizeQuery] can answer. *)
Definition sectionLabels : list string :=
  [ "Instance Information"; "Hardware & OS"; "Maintenance"; "Performance";
    "Database Objects"; "Security"; "High Availability"; "SQL Server Agent";
    "General" ]%string.

(** The estimates [estimateQueryDuration] can answer, in milliseconds. *)
Definition durationTiers : list Z := [500; 2000; 5000; 10000; 3000]%Z.

(** A line that the body extraction passes over while it looks for the
    first line of the statement: a comment or a blank line. *)
Definition isCommentOrBlank (line : string) : bool :=
  startsWith (trim line) "--" || isEmpty (trim line).

(** The statement text that [extractQueryInfo] cuts out of a block. *)
Definition bodyOf (block : string) : string :=
  trim (join nl (collectSqlLines false (splitOn (ascii_of_N 10) block))).


(** A Number goes before a string of the same year. *)
Definition rankOf (v : VersionKey) : nat :=
  match v with
  | VStr _ => 1
  | _ => 0
  end.

(** The order in which the sorted version array stands: newer years first,
    and within a year the plain year before the suffixed names. *)
Definition precedes (a b : VersionKey) : Prop :=
  (yearOf a > yearOf b)%Z \/ (yearOf a = yearOf b /\ (rankOf a <= rankOf b)%nat).

(** A version of the array that is a Number. *)
Definition isNumber (v : VersionKey) : Prop := rankOf v = 0%nat.

(** The names of [queryPackFiles]: the plain years, which [Object.keys]
    lists first, and the suffixed names. *)
Definition numericNames : list string :=
  ["2005"; "2008"; "2012"; "2014"; "2016"; "2017"; "2019"; "2022"; "2025"]%string.

Definition suffixedNames : list string := ["2016SP2"; "2008R2"; "2008STD"]%string.

(** A path check that answered that the file is there. *)
Definition answered (pathExists : string -> option bool) (filename : string) : bool :=
  match pathExists filename with
  | Some present => present
  | None => false
  end.

(** A refused call, as the log of executions has it. *)
Definition failedCall (text : string) (e : JsError) : string * (QueryResult + JsError) :=
  (text, inr e).

(** The shape of a recorded outcome: a success without an error, or a
    failure with its error message, no rows and no elapsed time. *)
Definition wellFormed (outcome : Outcome) : Prop :=
  rowCount outcome = List.length (data outcome)
  /\ ((success outcome = true /\ error outcome = None)
      \/ (success outcome = false /\ error outcome <> None
          /\ rowCount outcome = 0%nat /\ executionTime outcome = 0%Z)).

(** The error of a manager that is not connected. *)
Definition notConnected : JsError := mkError "Not connected to SQL Server".

(** The files read and the URLs requested by a load, in order. *)
Definition readsOf (io : list IO) : list string :=
  flat_map (fun a => match a with ReadFile filename => [filename] | HttpGet _ => [] end) io.

Definition requestsOf (io : list IO) : list string :=
  flat_map (fun a => match a with HttpGet url => [url] | ReadFile _ => [] end) io.

(** A load that ended with at most [n] reads and at most [n] requests. *)
Definition within (n : nat) (r : option Loaded) : Prop :=
  exists queries io,
    r = Some (queries, io)
    /\ (List.length (readsOf io) <= n)%nat /\ (List.length (requestsOf io) <= n)%nat.

(** Where a text comes from: the file read or the body answered. *)
Definition obtainedBy (world : World) (a : IO) (content : string) : Prop :=
  match a with
  | ReadFile filename => readFile world filename = Some content
  | HttpGet url => httpGet world url = Some content
  end.

(** A machine without network whose pack directory holds the 2016 SP2 and
    2008 R2 packs only. *)
Definition suffixedPacksOffline : World :=
  mkWorld (fun filename => String.eqb filename "sql-server-2016SP2-queries.sql"
                           || String.eqb filename "sql-server-2008R2-queries.sql")
          (fun _ => None)
          (fun _ => None).

(** The pack files of the suffixed names. *)
Definition suffixedPackFiles : list string :=
  ["sql-server-2016SP2-queries.sql"; "sql-server-2008R2-queries.sql";
   "sql-server-2008STD-queries.sql"]%string.

(** An action that gave nothing to parse: a file that could not be read or
    was empty, a request that failed. *)
Definition gaveNothing (world : World) (a : IO) : Prop :=
  match a with
  | ReadFile filename =>
      readFile world filename = None \/ readFile world filename = Some EmptyString
  | HttpGet url => httpGet world url = None
  end.

(** An action that settles the result: the parse of the non-empty file
    read or of the body answered, or nothing when the request failed. *)
Definition settles (world : World) (a : IO) (queries : list Query) : Prop :=
  match a with
  | ReadFile filename =>
      exists sqlContent version,
        readFile world filename = Some sqlContent /\ sqlContent <> EmptyString
        /\ queries = parseGlenBerryQueries sqlContent version
  | HttpGet url =>
      match httpGet world url with
      | Some data => exists version, queries = parseGlenBerryQueries data version
      | None => queries = []
      end
  end.

(** A machine without network whose pack directory holds the 2012, 2016 and
    2019 packs. *)
Definition localPacksOffline : World :=
  mkWorld packs_2012_2016_2019
          (fun filename =>
             if String.eqb filename "sql-server-2019-queries.sql" then Some examplePack
             else if String.eqb filename "sql-server-2012-queries.sql" then Some shortBlockPack
             else None)
          (fun _ => None).

(** A machine with neither packs nor network. *)
Definition nothingThere : World :=
  mkWorld (fun _ => false) (fun _ => None) (fun _ => None).

(** The first record of the example pack. *)
Definition exampleRecord : Query :=
  nth 0 (parseGlenBerryQueries examplePack 2019) record1.

(** A string made of characters of one class only. *)
Fixpoint allChars (p : ascii -> bool) (s : string) : bool :=
  match s with
  | EmptyString => true
  | String c s' => p c && allChars p s'
  end.

Definition notLineTerminator (c : ascii) : bool := negb (isLineTerminator c).

(** What the annotation pattern asks of a text: the comment marker, the
    rest of the line up to an opening parenthesis, the word [Query] in any
    case, blanks, digits, a closing parenthesis, blanks if any, and the
    description in parentheses, which is not empty and ends at the first
    closing parenthesis. *)
Definition annotatedWith (block captured : string) : Prop :=
  exists before lineRest word blanks digits gap rest,
    block = (before ++ "--" ++ lineRest ++ "(" ++ word ++ blanks ++ digits ++ ")"
               ++ gap ++ "(" ++ captured ++ ")" ++ rest)%string
    /\ allChars notLineTerminator lineRest = true
    /\ toLowerCase word = "query"%string
    /\ blanks <> EmptyString /\ allChars isWhiteSpace blanks = true
    /\ digits <> EmptyString /\ allChars isDigit digits = true
    /\ allChars isWhiteSpace gap = true
    /\ captured <> EmptyString /\ allChars notCloseParen captured = true.

(** A block with an annotation and a comment inside its statement. *)
Definition exampleBlock : string :=
  ("-- Hardware information from SQL Server  (Query 17) (Hardware Info)" ++ nl
   ++ nl
   ++ "SELECT cpu_count AS [Logical CPU Count]" ++ nl
   ++ "-- committed memory, in megabytes" ++ nl
   ++ "FROM sys.dm_os_sys_info WITH (NOLOCK);")%string.

End Catalogue.

(** * Properties *)

Import JsString QueryParser ExecutionEngine ClassifierSpec Notions.

(** ** Version resolution *)

Section VersionResolution.

Local Open Scope Z_scope.

Lemma parseIntNumber_small (lead : Z -> Z) (version : Z) :
  Z.abs version < 10 ^ 21 -> parseIntNumber lead version = version.
Proof.
  intros Hsmall. unfold parseIntNumber.
  destruct (Z.abs version <? 10 ^ 21) eqn:E; [reflexivity|].
  apply Z.ltb_ge in E. lia.
Qed.

Lemma parseIntNumber_large (lead : Z -> Z) (version : Z) :
  (forall n, 1 <= lead n <= 9) ->
  10 ^ 21 <= Z.abs version ->
  -9 <= parseIntNumber lead version <= 9.
Proof.
  intros Hlead Hbig. unfold parseIntNumber.
  destruct (Z.abs version <? 10 ^ 21) eqn:E.
  - apply Z.ltb_lt in E. lia.
  - specialize (Hlead (Z.abs version)).
    destruct version; simpl Z.sgn; lia.
Qed.

Lemma releaseYears_resolve (key : Z) :
  In key releaseYears -> resolvesToPack key.
Proof.
  unfold releaseYears, resolvesToPack. simpl.
  intros H.
  repeat (destruct H as [<- | H]; [eexists; vm_compute; reflexivity|]).
  contradiction.
Qed.

Lemma queryPackFiles_names_distinct : NoDup (map fst queryPackFiles).
Proof.
  unfold queryPackFiles. simpl.
  repeat (constructor; [simpl; intros H; repeat (destruct H as [H | H]; [discriminate H|]); exact H|]).
  constructor.
Qed.

(** The cascade of thresholds on a number outside 2005..2025. *)
Lemma mapVersionToKey_thresholds (lead : Z -> Z) (version : Z) :
  let versionNum := parseIntNumber lead version in
  ~ (2005 <= versionNum <= 2025) ->
  In (mapVersionToKey lead version) releaseYears
  /\ (versionNum < 9 -> mapVersionToKey lead version = 2019).
Proof.
  intros versionNum Hout. unfold mapVersionToKey. fold versionNum.
  destruct ((2005 <=? versionNum) && (versionNum <=? 2025)) eqn:Hyear.
  - apply andb_true_iff in Hyear as [H1 H2].
    apply Z.leb_le in H1, H2. lia.
  - repeat match goal with
           | |- context [(?a <=? versionNum)] =>
               let E := fresh "E" in
               destruct (a <=? versionNum) eqn:E;
               [apply Z.leb_le in E | apply Z.leb_gt in E]
           end;
      (split; [unfold releaseYears; simpl; tauto | intros; first [reflexivity | lia]]).
Qed.

End VersionResolution.

(** C9, the claim as stated, at the indicator 2006: the resolver hands the
    year back unchanged, and [queryPackFiles] maps no file to 2006. *)
Lemma mapVersionToKey_2006_has_no_pack :
  mapVersionToKey (fun _ => 1%Z) 2006 = 2006%Z
  /\ ~ resolvesToPack (mapVersionToKey (fun _ => 1%Z) 2006).
Proof.
  split; [reflexivity|].
  intros [filename H]. vm_compute in H. discriminate H.
Qed.

(** C9 (amended): [mapVersionToKey] is total on the integers and always
    answers with a year from 2005 to 2025.  An indicator from 2005 to 2025 is
    returned as it is (and resolves to a pack when it is a release year);
    every other indicator goes through the threshold table to a release
    year, which resolves to exactly one pack file; below 9 the answer is the
    baseline 2019. *)
Theorem mapVersionToKey_total (lead : Z -> Z) (version : Z) :
  (forall n, 1 <= lead n <= 9)%Z ->
  let key := mapVersionToKey lead version in
  (2005 <= key <= 2025)%Z
  /\ ((2005 <= version <= 2025)%Z ->
      key = version /\ (In version releaseYears -> resolvesToPack key))
  /\ (~ (2005 <= version <= 2025)%Z -> In key releaseYears /\ resolvesToPack key)
  /\ ((version < 9)%Z -> key = 2019%Z)
  /\ NoDup (map fst queryPackFiles).
Proof.
  intros Hlead key.
  assert (Hin : (2005 <= version <= 2025)%Z -> key = version).
  { intros Hr. unfold key, mapVersionToKey.
    rewrite parseIntNumber_small by (change (10 ^ 21)%Z with 1000000000000000000000%Z; lia).
    destruct ((2005 <=? version)%Z && (version <=? 2025)%Z) eqn:E; [reflexivity|].
    apply andb_false_iff in E as [E | E]; apply Z.leb_gt in E; lia. }
  assert (Hnum : ~ (2005 <= version <= 2025)%Z ->
                 ~ (2005 <= parseIntNumber lead version <= 2025)%Z
                 /\ ((version < 9)%Z -> (parseIntNumber lead version < 9)%Z)).
  { intros Hout.
    destruct (Z_lt_ge_dec (Z.abs version) (10 ^ 21)) as [Hs | Hb].
    - rewrite (parseIntNumber_small lead version Hs). split; [exact Hout | tauto].
    - pose proof (parseIntNumber_large lead version Hlead ltac:(lia)) as Hl.
      split; [lia|].
      intros Hneg. unfold parseIntNumber.
      destruct (Z.abs version <? 10 ^ 21)%Z eqn:E; [lia|].
      specialize (Hlead (Z.abs version)).
      destruct version; simpl Z.sgn; lia. }
  assert (Hout : ~ (2005 <= version <= 2025)%Z ->
                 In key releaseYears /\ ((version < 9)%Z -> key = 2019%Z)).
  { intros Ho. destruct (Hnum Ho) as [Hn Hlt].
    destruct (mapVersionToKey_thresholds lead version Hn) as [Hy Hb].
    split; [exact Hy | intros Hv; apply Hb, Hlt, Hv]. }
  assert (Hyears : forall k, In k releaseYears -> (2005 <= k <= 2025)%Z).
  { unfold releaseYears. simpl. intros k Hk.
    repeat (destruct Hk as [<- | Hk]; [lia|]). contradiction. }
  repeat split.
  - destruct (Z_le_gt_dec 2005 version); destruct (Z_le_gt_dec version 2025);
      try (apply Hyears, Hout; lia).
    rewrite Hin by lia. lia.
  - destruct (Z_le_gt_dec 2005 version); destruct (Z_le_gt_dec version 2025);
      try (apply Hyears, Hout; lia).
    rewrite Hin by lia. lia.
  - apply Hin. assumption.
  - intros Hy. rewrite Hin by assumption. apply releaseYears_resolve, Hy.
  - apply Hout. assumption.
  - apply releaseYears_resolve, Hout. assumption.
  - intros Hv. apply Hout; [lia | exact Hv].
  - apply queryPackFiles_names_distinct.
Qed.

Lemma mapVersionToKey_total_witness :
  let key := mapVersionToKey (fun _ => 1%Z) 15 in
  (2005 <= key <= 2025)%Z
  /\ ((2005 <= 15 <= 2025)%Z ->
      key = 15%Z /\ (In 15%Z releaseYears -> resolvesToPack key))
  /\ (~ (2005 <= 15 <= 2025)%Z -> In key releaseYears /\ resolvesToPack key)
  /\ ((15 < 9)%Z -> key = 2019%Z)
  /\ NoDup (map fst queryPackFiles).
Proof.
  apply (mapVersionToKey_total (fun _ => 1%Z) 15).
  intros n. lia.
Defined.

(** ** Closest available version *)

Section ClosestAvailable.

Local Open Scope Z_scope.

Lemma compareDescending_years (a b : VersionKey) :
  parses a -> parses b -> compareDescending a b = yearOf b - yearOf a.
Proof.
  unfold parses, compareDescending, yearOf. intros Ha Hb.
  destruct (parseIntVersion a); [|contradiction].
  destruct (parseIntVersion b); [reflexivity | contradiction].
Qed.

Lemma insertSorted_perm {A : Type} (cmp : A -> A -> Z) (x : A) (l : list A) :
  Permutation (insertSorted cmp x l) (x :: l).
Proof.
  induction l as [|y l IH]; simpl.
  - apply Permutation_refl.
  - destruct (cmp x y <? 0).
    + apply Permutation_refl.
    + eapply Permutation_trans; [apply perm_skip, IH | apply perm_swap].
Qed.

Lemma sort_from_perm {A : Type} (cmp : A -> A -> Z) (l acc : list A) :
  Permutation (fold_left (fun acc x => insertSorted cmp x acc) l acc) (acc ++ l).
Proof.
  revert acc. induction l as [|x l IH]; intros acc; simpl.
  - rewrite app_nil_r. apply Permutation_refl.
  - eapply Permutation_trans; [apply IH|].
    eapply Permutation_trans; [apply Permutation_app_tail, insertSorted_perm|].
    simpl. apply Permutation_middle.
Qed.

Lemma sort_perm {A : Type} (cmp : A -> A -> Z) (l : list A) :
  Permutation (sort cmp l) l.
Proof. unfold sort. apply (sort_from_perm cmp l []). Qed.

Lemma insertSorted_descending (x : VersionKey) (l : list VersionKey) :
  parses x -> Forall parses l ->
  StronglySorted newerOrSame l ->
  StronglySorted newerOrSame (insertSorted compareDescending x l).
Proof.
  intros Hx Hl Hs. induction Hs as [|y l Hs IH Hy]; simpl.
  - constructor; constructor.
  - inversion Hl as [|? ? Hpy Hpl]; subst.
    rewrite (compareDescending_years x y Hx Hpy).
    destruct (yearOf y - yearOf x <? 0) eqn:E.
    + apply Z.ltb_lt in E. constructor.
      * constructor; assumption.
      * constructor; [unfold newerOrSame; lia|].
        eapply Forall_impl; [|exact Hy].
        unfold newerOrSame. intros; lia.
    + apply Z.ltb_ge in E. constructor.
      * apply IH. assumption.
      * eapply Permutation_Forall; [apply Permutation_sym, insertSorted_perm|].
        constructor; [unfold newerOrSame; lia | exact Hy].
Qed.

Lemma sort_from_descending (l acc : list VersionKey) :
  Forall parses l -> Forall parses acc ->
  StronglySorted newerOrSame acc ->
  StronglySorted newerOrSame
    (fold_left (fun acc x => insertSorted compareDescending x acc) l acc).
Proof.
  revert acc. induction l as [|x l IH]; intros acc Hl Hacc Hs; simpl.
  - exact Hs.
  - inversion Hl; subst. apply IH; trivial.
    + eapply Permutation_Forall; [apply Permutation_sym, insertSorted_perm|].
      constructor; assumption.
    + apply insertSorted_descending; assumption.
Qed.

Lemma firstNotNewer_spec (target : Z) (l : list VersionKey) :
  Forall parses l -> StronglySorted newerOrSame l ->
  match firstNotNewer target l with
  | Some r =>
      In r l /\ yearOf r <= target
      /\ forall v, In v l -> yearOf v <= target -> yearOf v <= yearOf r
  | None => forall v, In v l -> target < yearOf v
  end.
Proof.
  intros Hp Hs. induction Hs as [|y l Hs IH Hy]; simpl.
  - intros v [].
  - inversion Hp as [|? ? Hpy Hpl]; subst.
    specialize (IH Hpl).
    unfold parses in Hpy.
    assert (Hyear : parseIntVersion y = Some (yearOf y)).
    { unfold yearOf. destruct (parseIntVersion y); [reflexivity | contradiction]. }
    rewrite Hyear.
    destruct (yearOf y <=? target) eqn:E.
    + apply Z.leb_le in E. split; [left; reflexivity|]. split; [exact E|].
      intros v [<- | Hv] _; [lia|].
      rewrite Forall_forall in Hy. specialize (Hy v Hv).
      unfold newerOrSame in Hy. lia.
    + apply Z.leb_gt in E.
      destruct (firstNotNewer target l) as [r|].
      * destruct IH as (Hin & Hle & Hmax).
        split; [right; exact Hin|]. split; [exact Hle|].
        intros v [<- | Hv] Hvt; [lia | apply Hmax; assumption].
      * intros v [<- | Hv]; [lia | apply IH, Hv].
Qed.

Lemma lastElement_spec (l : list VersionKey) :
  l <> [] -> StronglySorted newerOrSame l ->
  exists r, lastElement l = Some r /\ In r l
            /\ forall v, In v l -> yearOf r <= yearOf v.
Proof.
  intros Hne Hs. induction Hs as [|y l Hs IH Hy]; [contradiction|].
  destruct l as [|z l'].
  - exists y. simpl. split; [reflexivity|]. split; [left; reflexivity|].
    intros v [<- | []]. lia.
  - destruct IH as (r & Hr & Hin & Hmin); [discriminate|].
    exists r. split; [exact Hr|]. split; [right; exact Hin|].
    intros v [<- | Hv]; [|apply Hmin, Hv].
    rewrite Forall_forall in Hy. specialize (Hy r Hin).
    unfold newerOrSame in Hy. lia.
Qed.

(** The names of the table, as [Object.keys] lists them. *)
Lemma Object_keys_queryPackFiles :
  Object_keys queryPackFiles =
  ["2005"; "2008"; "2012"; "2014"; "2016"; "2017"; "2019"; "2022"; "2025";
   "2016SP2"; "2008R2"; "2008STD"]%string.
Proof. vm_compute. reflexivity. Qed.

Lemma table_versions_parse :
  Forall parses (map toVersion (Object_keys queryPackFiles)).
Proof.
  rewrite Object_keys_queryPackFiles.
  repeat (constructor; [vm_compute; discriminate|]). constructor.
Qed.

Lemma table_entry_iff (key filename : string) :
  In (key, filename) queryPackFiles
  <-> In key (Object_keys queryPackFiles)
      /\ getProperty queryPackFiles key = Some filename.
Proof.
  rewrite Object_keys_queryPackFiles. split.
  - unfold queryPackFiles. simpl. intros H.
    repeat (destruct H as [H | H];
            [injection H as <- <-; split; [tauto | reflexivity]|]).
    contradiction.
  - intros [Hk Hf]. simpl in Hk.
    repeat (destruct Hk as [<- | Hk];
            [vm_compute in Hf; injection Hf as <-; unfold queryPackFiles; simpl; tauto|]).
    contradiction.
Qed.

Lemma availableVersions_In (existsSync : string -> bool) (v : VersionKey) :
  In v (availableVersions existsSync) <-> isAvailable existsSync v.
Proof.
  unfold availableVersions, isAvailable. split.
  - intros H.
    apply (Permutation_in _ (sort_perm _ _)) in H.
    apply in_map_iff in H as (key & Hv & Hk).
    apply filter_In in Hk as [Hk Hp].
    destruct (getProperty queryPackFiles key) as [filename|] eqn:Hf; [|discriminate].
    exists key, filename. split; [|split; assumption].
    apply table_entry_iff. split; assumption.
  - intros (key & filename & Hin & He & Hv).
    apply table_entry_iff in Hin as [Hk Hf].
    apply (Permutation_in _ (Permutation_sym (sort_perm _ _))).
    apply in_map_iff. exists key. split; [exact Hv|].
    apply filter_In. split; [exact Hk|]. rewrite Hf. exact He.
Qed.

Lemma availableVersions_parse (existsSync : string -> bool) :
  Forall parses (availableVersions existsSync).
Proof.
  unfold availableVersions.
  eapply Permutation_Forall; [apply Permutation_sym, sort_perm|].
  pose proof table_versions_parse as Hall.
  rewrite Forall_forall in *. intros v Hv.
  apply in_map_iff in Hv as (key & <- & Hk).
  apply filter_In in Hk as [Hk _].
  apply Hall, in_map, Hk.
Qed.

Lemma availableVersions_descending (existsSync : string -> bool) :
  StronglySorted newerOrSame (availableVersions existsSync).
Proof.
  unfold availableVersions, sort.
  apply sort_from_descending; [|constructor|constructor].
  pose proof table_versions_parse as Hall.
  rewrite Forall_forall in *. intros v Hv.
  apply in_map_iff in Hv as (key & <- & Hk).
  apply filter_In in Hk as [Hk _].
  apply Hall, in_map, Hk.
Qed.

End ClosestAvailable.

(** For a target that is a number, [getClosestAvailableVersion] returns the
    available version of the greatest year not above the target; when every
    available version is above the target it returns the available version
    of the smallest year. *)
Lemma getClosestAvailableVersion_for_number (existsSync : string -> bool) (target : Z) :
  ((exists v, isAvailable existsSync v /\ (yearOf v <= target)%Z) ->
   exists r, getClosestAvailableVersion existsSync target = Some r
             /\ isAvailable existsSync r
             /\ (yearOf r <= target)%Z
             /\ forall v, isAvailable existsSync v -> (yearOf v <= target)%Z ->
                          (yearOf v <= yearOf r)%Z)
  /\ ((exists v, isAvailable existsSync v) ->
      (forall v, isAvailable existsSync v -> (target < yearOf v)%Z) ->
      exists r, getClosestAvailableVersion existsSync target = Some r
                /\ isAvailable existsSync r
                /\ forall v, isAvailable existsSync v -> (yearOf r <= yearOf v)%Z).
Proof.
  pose proof (firstNotNewer_spec target _ (availableVersions_parse existsSync)
                (availableVersions_descending existsSync)) as Hfirst.
  unfold getClosestAvailableVersion. cbv zeta.
  split.
  - intros (v & Hav & Hle).
    destruct (firstNotNewer target (availableVersions existsSync)) as [r|].
    + destruct Hfirst as (Hin & Hr & Hmax).
      exists r. split; [reflexivity|].
      split; [exact (proj1 (availableVersions_In existsSync r) Hin)|].
      split; [exact Hr|].
      intros v' Hv'. exact (Hmax v' (proj2 (availableVersions_In existsSync v') Hv')).
    + pose proof (Hfirst v (proj2 (availableVersions_In existsSync v) Hav)). lia.
  - intros (v & Hav) Hall.
    destruct (firstNotNewer target (availableVersions existsSync)) as [r|].
    + destruct Hfirst as (Hin & Hr & _).
      pose proof (Hall r (proj1 (availableVersions_In existsSync r) Hin)). lia.
    + destruct (lastElement_spec (availableVersions existsSync)) as (r & Hr & Hin & Hmin).
      * pose proof (proj2 (availableVersions_In existsSync v) Hav) as Hv.
        intros E. rewrite E in Hv. exact Hv.
      * apply availableVersions_descending.
      * exists r. split; [exact Hr|].
        split; [exact (proj1 (availableVersions_In existsSync r) Hin)|].
        intros v' Hv'. exact (Hmin v' (proj2 (availableVersions_In existsSync v') Hv')).
Qed.

(** With no pack file present there is nothing to return ([undefined]). *)
Lemma getClosestAvailableVersion_nothing_available
      (existsSync : string -> bool) (target : Z) :
  (forall v, ~ isAvailable existsSync v) ->
  getClosestAvailableVersion existsSync target = None.
Proof.
  intros Hnone. unfold getClosestAvailableVersion. cbv zeta.
  destruct (availableVersions existsSync) as [|v l] eqn:E; [reflexivity|].
  exfalso. apply (Hnone v).
  apply (proj1 (availableVersions_In existsSync v)). rewrite E. left. reflexivity.
Qed.

(** ** Classification *)

(** A rule list that fires behaves as its first matching rule. *)
Lemma firstMatch_first_wins (before after : list Rule) (r : Rule) (text : string) :
  Forall (fun r' => ruleMatches text r' = false) before ->
  ruleMatches text r = true ->
  firstMatch (before ++ r :: after) text = Some (snd r).
Proof.
  intros Hbefore Hr. induction Hbefore as [|r' before Hr' _ IH]; simpl.
  - rewrite Hr. reflexivity.
  - rewrite Hr'. exact IH.
Qed.

Lemma firstMatch_none (rules : list Rule) (text : string) :
  Forall (fun r => ruleMatches text r = false) rules ->
  firstMatch rules text = None.
Proof.
  intros H. induction H as [|r rules Hr _ IH]; simpl.
  - reflexivity.
  - rewrite Hr. exact IH.
Qed.

(** C7: [categorizeQuery] is the function of (description, body) that the
    specification describes: the description is tried against the ordered
    keyword rules, then, only if none fires, the body against the ordered
    content rules, and the answer is ["General"] if none fires either.  In
    each list the first rule that matches decides, whatever the later rules
    would say. *)
Theorem categorizeQuery_is_classifySection :
  (forall description body, categorizeQuery description body = classifySection description body)
  /\ (forall description body before r after,
         descriptionRules = before ++ r :: after ->
         Forall (fun r' => ruleMatches (toLowerCase description) r' = false) before ->
         ruleMatches (toLowerCase description) r = true ->
         categorizeQuery description body = snd r)
  /\ (forall description body before r after,
         Forall (fun r' => ruleMatches (toLowerCase description) r' = false) descriptionRules ->
         contentRules = before ++ r :: after ->
         Forall (fun r' => ruleMatches (toLowerCase body) r' = false) before ->
         ruleMatches (toLowerCase body) r = true ->
         categorizeQuery description body = snd r)
  /\ (forall description body,
         Forall (fun r' => ruleMatches (toLowerCase description) r' = false) descriptionRules ->
         Forall (fun r' => ruleMatches (toLowerCase body) r' = false) contentRules ->
         categorizeQuery description body = "General"%string).
Proof.
  assert (Heq : forall description body,
             categorizeQuery description body = classifySection description body).
  { intros description body.
    unfold categorizeQuery, classifySection, descriptionRules, contentRules.
    cbn [firstMatch ruleMatches existsb fst snd].
    repeat match goal with
           | |- context [includes ?text ?keyword] =>
               destruct (includes text keyword); cbn [orb]; try reflexivity
           end. }
  split; [exact Heq|].
  split; [|split].
  - intros description body before r after Hrules Hbefore Hr.
    rewrite Heq. unfold classifySection. rewrite Hrules.
    rewrite (firstMatch_first_wins before after r _ Hbefore Hr). reflexivity.
  - intros description body before r after Hdesc Hrules Hbefore Hr.
    rewrite Heq. unfold classifySection.
    rewrite (firstMatch_none _ _ Hdesc). rewrite Hrules.
    rewrite (firstMatch_first_wins before after r _ Hbefore Hr). reflexivity.
  - intros description body Hdesc Hcontent.
    rewrite Heq. unfold classifySection.
    rewrite (firstMatch_none _ _ Hdesc), (firstMatch_none _ _ Hcontent). reflexivity.
Qed.

(** Rules overlap, and the order decides: "fragmentation" (Maintenance) is
    tried before "index" (Database Objects); the body is looked at only when
    the description says nothing. *)
Example categorizeQuery_order_decides :
  categorizeQuery "Index Fragmentation" "SELECT 1" = "Maintenance"%string
  /\ categorizeQuery "Missing Indexes" "SELECT * FROM sys.dm_os_wait_stats" = "Database Objects"%string
  /\ categorizeQuery "Top Waits" "SELECT * FROM sys.databases" = "Performance"%string
  /\ categorizeQuery "Volume Info" "SELECT * FROM SYS.MASTER_FILES" = "Database Objects"%string
  /\ categorizeQuery "Volume Info" "SELECT 1" = "General"%string.
Proof. repeat split; vm_compute; reflexivity. Qed.

(** ** Pack parsing *)

Section PackParsing.

(** One pass of the loop, by cases. *)
Lemma parseBlocks_cons (raw : string) (rest : list string) (n : nat) :
  parseBlocks (raw :: rest) n =
  if tooShort raw then parseBlocks rest n
  else match extractQueryInfo (trim raw) n with
       | Some info =>
           if isEmpty (info_query info) then parseBlocks rest n
           else recordOf info n :: parseBlocks rest (S n)
       | None => parseBlocks rest n
       end.
Proof. reflexivity. Qed.

Lemma tooShort_length (raw : string) :
  tooShort raw = false -> (50 <= String.length (trim raw))%nat.
Proof.
  unfold tooShort. intros H.
  apply orb_false_iff in H as [_ H]. apply Nat.ltb_ge in H. exact H.
Qed.

Lemma length_tooShort (raw : string) :
  (String.length (trim raw) < 50)%nat -> tooShort raw = true.
Proof.
  unfold tooShort. intros H.
  apply orb_true_iff. right. apply Nat.ltb_lt. exact H.
Qed.

(** The numbers of the records made from [blocks] run on from [n]. *)
Lemma parseBlocks_numbers (blocks : list string) (n : nat) :
  map queryNumber (parseBlocks blocks n)
  = map Some (seq n (List.length (parseBlocks blocks n))).
Proof.
  revert n. induction blocks as [|raw rest IH]; intros n.
  - reflexivity.
  - rewrite parseBlocks_cons.
    destruct (tooShort raw); [apply IH|].
    destruct (extractQueryInfo (trim raw) n) as [info|]; [|apply IH].
    destruct (isEmpty (info_query info)); [apply IH|].
    cbn [map List.length seq queryNumber recordOf].
    rewrite IH. reflexivity.
Qed.

Lemma parseBlocks_ids (blocks : list string) (n : nat) :
  Forall (fun q => exists m, queryNumber q = Some m
                             /\ id q = ("glen-berry-" ++ ofNat m)%string)
         (parseBlocks blocks n).
Proof.
  revert n. induction blocks as [|raw rest IH]; intros n.
  - constructor.
  - rewrite parseBlocks_cons.
    destruct (tooShort raw); [apply IH|].
    destruct (extractQueryInfo (trim raw) n) as [info|]; [|apply IH].
    destruct (isEmpty (info_query info)); [apply IH|].
    constructor; [|apply IH].
    exists n. split; reflexivity.
Qed.

(** Every record comes from one of the blocks given to the loop, and that
    block is not a short one. *)
Lemma parseBlocks_origin (blocks : list string) (n : nat) (q : Query) :
  In q (parseBlocks blocks n) ->
  exists i raw m info,
    nth_error blocks i = Some raw
    /\ (50 <= String.length (trim raw))%nat
    /\ extractQueryInfo (trim raw) m = Some info
    /\ q = recordOf info m.
Proof.
  revert n. induction blocks as [|raw rest IH]; intros n Hq.
  - destruct Hq.
  - assert (Hrest : forall k, In q (parseBlocks rest k) ->
              exists i raw0 m info,
                nth_error (raw :: rest) i = Some raw0
                /\ (50 <= String.length (trim raw0))%nat
                /\ extractQueryInfo (trim raw0) m = Some info
                /\ q = recordOf info m).
    { intros k Hk. destruct (IH k Hk) as (i & raw0 & m & info & H).
      exists (S i), raw0, m, info. exact H. }
    rewrite parseBlocks_cons in Hq.
    destruct (tooShort raw) eqn:Hshort; [eapply Hrest, Hq|].
    destruct (extractQueryInfo (trim raw) n) as [info|] eqn:Hinfo; [|eapply Hrest, Hq].
    destruct (isEmpty (info_query info)); [eapply Hrest, Hq|].
    destruct Hq as [<- | Hq]; [|eapply Hrest, Hq].
    exists 0%nat, raw, n, info.
    split; [reflexivity|]. split; [apply tooShort_length, Hshort|].
    split; [exact Hinfo | reflexivity].
Qed.

(** A short block leaves no trace: the loop gives the same records, with
    the same numbers, as if the block were not there. *)
Lemma parseBlocks_skips_short (pre post : list string) (raw : string) (n : nat) :
  (String.length (trim raw) < 50)%nat ->
  parseBlocks (pre ++ raw :: post) n = parseBlocks (pre ++ post) n.
Proof.
  intros Hshort. revert n. induction pre as [|b pre IH]; intros n.
  - cbn [app]. rewrite parseBlocks_cons, (length_tooShort raw Hshort). reflexivity.
  - cbn [app]. rewrite !parseBlocks_cons.
    destruct (tooShort b); [apply IH|].
    destruct (extractQueryInfo (trim b) n) as [info|]; [|apply IH].
    destruct (isEmpty (info_query info)); [apply IH|].
    rewrite IH. reflexivity.
Qed.

(** Whether a block yields a statement does not depend on the number. *)
Lemma extractQueryInfo_number (block : string) (n m : nat) :
  match extractQueryInfo block n, extractQueryInfo block m with
  | Some a, Some b => info_query a = info_query b
  | None, None => True
  | _, _ => False
  end.
Proof.
  unfold extractQueryInfo.
  destruct (matchQueryPattern block); cbv zeta;
    destruct (isEmpty _ || _); cbn [info_query]; try reflexivity; exact I.
Qed.

Lemma accepted_true (raw : string) (n : nat) :
  accepted raw = true ->
  tooShort raw = false
  /\ exists info, extractQueryInfo (trim raw) n = Some info
                  /\ isEmpty (info_query info) = false.
Proof.
  unfold accepted. intros H. apply andb_true_iff in H as [Hshort Hinfo].
  apply negb_true_iff in Hshort. split; [exact Hshort|].
  pose proof (extractQueryInfo_number (trim raw) 0 n) as Hn.
  destruct (extractQueryInfo (trim raw) 0) as [info0|]; [|discriminate].
  destruct (extractQueryInfo (trim raw) n) as [info|]; [|contradiction].
  exists info. split; [reflexivity|]. rewrite <- Hn. apply negb_true_iff, Hinfo.
Qed.

Lemma accepted_false (raw : string) (rest : list string) (n : nat) :
  accepted raw = false -> parseBlocks (raw :: rest) n = parseBlocks rest n.
Proof.
  unfold accepted. intros H. rewrite parseBlocks_cons.
  destruct (tooShort raw); [reflexivity|]. cbn [negb andb] in H.
  pose proof (extractQueryInfo_number (trim raw) 0 n) as Hn.
  destruct (extractQueryInfo (trim raw) n) as [info|]; [|reflexivity].
  destruct (extractQueryInfo (trim raw) 0) as [info0|]; [|contradiction].
  rewrite <- Hn. apply negb_false_iff in H. rewrite H. reflexivity.
Qed.

(** The loop numbers the accepted blocks: its [k]-th record is made from
    the [k]-th accepted block and carries the number [n + k]. *)
Lemma parseBlocks_accepted (blocks : list string) (n : nat) :
  List.length (parseBlocks blocks n) = List.length (filter accepted blocks)
  /\ forall k raw,
      nth_error (filter accepted blocks) k = Some raw ->
      exists info,
        extractQueryInfo (trim raw) (n + k) = Some info
        /\ nth_error (parseBlocks blocks n) k = Some (recordOf info (n + k)).
Proof.
  revert n. induction blocks as [|raw rest IH]; intros n.
  - split; [reflexivity|]. intros k raw H. destruct k; discriminate H.
  - cbn [filter]. destruct (accepted raw) eqn:Hacc.
    + destruct (accepted_true raw n Hacc) as (Hshort & info & Hinfo & Hquery).
      rewrite parseBlocks_cons, Hshort, Hinfo, Hquery.
      destruct (IH (S n)) as [Hlen Hnth].
      split; [cbn [List.length]; rewrite Hlen; reflexivity|].
      intros k raw0 Hk. destruct k as [|k].
      * cbn [nth_error] in Hk. injection Hk as <-.
        exists info. rewrite Nat.add_0_r. split; [exact Hinfo | reflexivity].
      * cbn [nth_error] in Hk. destruct (Hnth k raw0 Hk) as (info0 & H0 & H1).
        exists info0. rewrite Nat.add_succ_r. split; [exact H0 | exact H1].
    + rewrite (accepted_false raw rest n Hacc). apply IH.
Qed.

(** A block that is not accepted leaves no trace: the loop gives the same
    records, with the same numbers, as if the block were not there. *)
Lemma parseBlocks_skips_rejected (pre post : list string) (raw : string) (n : nat) :
  accepted raw = false ->
  parseBlocks (pre ++ raw :: post) n = parseBlocks (pre ++ post) n.
Proof.
  intros Hrej. revert n. induction pre as [|b pre IH]; intros n.
  - cbn [app]. apply accepted_false, Hrej.
  - cbn [app]. rewrite !parseBlocks_cons.
    destruct (tooShort b); [apply IH|].
    destruct (extractQueryInfo (trim b) n) as [info|]; [|apply IH].
    destruct (isEmpty (info_query info)); [apply IH|].
    rewrite IH. reflexivity.
Qed.

Lemma splitDelimiter_nonempty (s : string) (atLineStart : bool) (skip : nat) :
  splitDelimiter atLineStart skip s <> [].
Proof.
  revert atLineStart skip. induction s as [|c s IH]; intros atLineStart skip.
  - discriminate.
  - cbn [splitDelimiter]. destruct skip as [|k]; [|apply IH].
    destruct (delimiterAt atLineStart (String c s)); [discriminate|].
    destruct (splitDelimiter (isLineTerminator c) 0 s); discriminate.
Qed.

(** The split always ends with a remainder: what follows the last
    delimiter line (the whole text when there is none). *)
Lemma splitQueryBlocks_remainder (sqlContent : string) :
  exists blocks remainder, splitQueryBlocks sqlContent = blocks ++ [remainder].
Proof.
  destruct (exists_last (splitDelimiter_nonempty sqlContent true 0)) as (blocks & remainder & H).
  exists blocks, remainder. exact H.
Qed.

Lemma nth_error_removelast {A : Type} (l : list A) (i : nat) (x : A) :
  nth_error (removelast l) i = Some x ->
  nth_error l i = Some x /\ (S i < List.length l)%nat.
Proof.
  revert i. induction l as [|a l IH]; intros i H.
  - destruct i; discriminate H.
  - destruct l as [|b l'].
    + destruct i; discriminate H.
    + destruct i as [|i].
      * cbn in H. split; [exact H | cbn; lia].
      * change (removelast (a :: b :: l')) with (a :: removelast (b :: l')) in H.
        cbn [nth_error] in H. destruct (IH i H) as [Hn Hl].
        split; [exact Hn | cbn [List.length] in *; lia].
Qed.

End PackParsing.

(** C5: the sequence number counts the accepted blocks only.  The records
    of a parse are as many as the accepted blocks among the pieces before
    the remainder, and the [k]-th record (from 0) is the one made from the
    [k]-th accepted block, under the number [k + 1]: so the records carry
    1, 2, ..., n in order, and the id of each is ["glen-berry-"] followed by
    its number.  A block that is not accepted uses up no number: the records
    and their numbers are those of the pack without it.  The example pack
    (three well-formed blocks, one block without a statement between the
    first and the second of them) parses into exactly three records numbered
    1, 2, 3. *)
Theorem parseGlenBerryQueries_sequence_numbers :
  (forall sqlContent version,
      let blocks := removelast (splitQueryBlocks sqlContent) in
      let records := parseGlenBerryQueries sqlContent version in
      List.length records = List.length (filter accepted blocks)
      /\ (forall k raw,
             nth_error (filter accepted blocks) k = Some raw ->
             exists info,
               extractQueryInfo (trim raw) (Datatypes.S k) = Some info
               /\ nth_error records k = Some (recordOf info (Datatypes.S k)))
      /\ map queryNumber records = map Some (seq 1 (List.length records))
      /\ Forall (fun q => exists n, queryNumber q = Some n
                                    /\ id q = ("glen-berry-" ++ ofNat n)%string) records)
  /\ (forall pre raw post n,
         accepted raw = false ->
         parseBlocks (pre ++ raw :: post) n = parseBlocks (pre ++ post) n)
  /\ List.length (splitQueryBlocks examplePack) = 5%nat
  /\ map accepted (removelast (splitQueryBlocks examplePack)) = [true; false; true; true]
  /\ map queryNumber (parseGlenBerryQueries examplePack 2019) = [Some 1; Some 2; Some 3]%nat
  /\ map id (parseGlenBerryQueries examplePack 2019)
     = ["glen-berry-1"; "glen-berry-2"; "glen-berry-3"]%string
  /\ map name (parseGlenBerryQueries examplePack 2019)
     = ["Version Info"; "Configuration Values"; "Top Waits"]%string.
Proof.
  split.
  - intros sqlContent version blocks records. unfold records, parseGlenBerryQueries.
    cbv zeta. fold blocks.
    destruct (parseBlocks_accepted blocks 1) as [Hlen Hnth].
    split; [exact Hlen|].
    split; [exact Hnth|].
    split; [apply parseBlocks_numbers | apply parseBlocks_ids].
  - split; [intros pre raw post n; apply parseBlocks_skips_rejected|].
    repeat split; vm_compute; reflexivity.
Qed.

(** C6: no record comes from the remainder after the last delimiter line,
    and none from a block whose trimmed length is below 50.  Every record
    of a parse is made from a block that is not the last piece of the split
    and that is at least 50 long once trimmed; the parse does not depend on
    the remainder; a short block changes nothing, the records after it keep
    the numbers they would have without it.  The parser is a total function:
    it returns a list of records for every text. *)
Theorem parseGlenBerryQueries_skips_remainder_and_short_blocks :
  (forall sqlContent version q,
      In q (parseGlenBerryQueries sqlContent version) ->
      exists i raw n info,
        nth_error (splitQueryBlocks sqlContent) i = Some raw
        /\ (S i < List.length (splitQueryBlocks sqlContent))%nat
        /\ (50 <= String.length (trim raw))%nat
        /\ extractQueryInfo (trim raw) n = Some info
        /\ queryNumber q = Some n
        /\ query q = info_query info)
  /\ (forall sqlContent version,
         exists blocks remainder,
           splitQueryBlocks sqlContent = blocks ++ [remainder]
           /\ parseGlenBerryQueries sqlContent version = parseBlocks blocks 1)
  /\ (forall pre raw post n,
         (String.length (trim raw) < 50)%nat ->
         parseBlocks (pre ++ raw :: post) n = parseBlocks (pre ++ post) n)
  /\ parseGlenBerryQueries shortBlockPack 2019 = [].
Proof.
  split; [|split; [|split]].
  - intros sqlContent version q Hq. unfold parseGlenBerryQueries in Hq.
    destruct (parseBlocks_origin _ _ _ Hq) as (i & raw & n & info & Hn & Hlen & Hinfo & ->).
    apply nth_error_removelast in Hn as [Hn Hi].
    exists i, raw, n, info. repeat split; assumption || reflexivity.
  - intros sqlContent version.
    destruct (splitQueryBlocks_remainder sqlContent) as (blocks & remainder & H).
    exists blocks, remainder. split; [exact H|].
    unfold parseGlenBerryQueries. rewrite H, removelast_last. reflexivity.
  - intros pre raw post n. apply parseBlocks_skips_short.
  - vm_compute. reflexivity.
Qed.

(** ** The section index *)

Section SectionIndex.

Lemma mapHas_In (m : SectionMap) (key : string) :
  mapHas m key = true <-> In key (map fst m).
Proof.
  induction m as [|[k members] m IH]; cbn [mapHas map fst In].
  - split; [discriminate | contradiction].
  - rewrite orb_true_iff, IH, String.eqb_eq. tauto.
Qed.

Lemma mapHas_mapGet (m : SectionMap) (key : string) :
  mapHas m key = false <-> mapGet m key = None.
Proof.
  induction m as [|[k members] m IH]; cbn [mapHas mapGet].
  - tauto.
  - destruct (String.eqb k key); cbn [orb]; [split; discriminate | exact IH].
Qed.

Lemma mapPush_keys (m : SectionMap) (key : string) (q : Query) :
  map fst (mapPush m key q) = map fst m.
Proof.
  induction m as [|[k members] m IH]; cbn [mapPush map fst]; [reflexivity|].
  destruct (String.eqb k key); cbn [map fst]; [reflexivity | rewrite IH; reflexivity].
Qed.

Lemma mapGet_mapPush (m : SectionMap) (key name : string) (q : Query) :
  mapGet (mapPush m key q) name =
  if String.eqb key name
  then option_map (fun members => members ++ [q]) (mapGet m name)
  else mapGet m name.
Proof.
  induction m as [|[k members] m IH]; cbn [mapPush mapGet].
  - destruct (String.eqb key name); reflexivity.
  - destruct (String.eqb k key) eqn:Ek.
    + apply String.eqb_eq in Ek. subst k. cbn [mapGet].
      destruct (String.eqb key name); reflexivity.
    + cbn [mapGet]. destruct (String.eqb k name) eqn:En.
      * destruct (String.eqb key name) eqn:Ekn; [|reflexivity].
        apply String.eqb_eq in En, Ekn. subst. rewrite String.eqb_refl in Ek. discriminate.
      * exact IH.
Qed.

Lemma mapGet_mapSetNew (m : SectionMap) (key name : string) :
  mapGet (mapSetNew m key) name =
  match mapGet m name with
  | Some members => Some members
  | None => if String.eqb key name then Some [] else None
  end.
Proof.
  unfold mapSetNew. induction m as [|[k members] m IH]; cbn [app mapGet].
  - reflexivity.
  - destruct (String.eqb k name); [reflexivity | exact IH].
Qed.

(** What one step of [organizeSections] does to the list under [name]. *)
Lemma mapGet_organizeStep (m : SectionMap) (q : Query) (name : string) :
  mapGet (organizeStep m q) name =
  if String.eqb (section q) name
  then Some (match mapGet m name with Some members => members ++ [q] | None => [q] end)
  else mapGet m name.
Proof.
  unfold organizeStep. rewrite mapGet_mapPush.
  destruct (mapHas m (section q)) eqn:Hhas.
  - destruct (String.eqb (section q) name) eqn:E; [|reflexivity].
    apply String.eqb_eq in E. subst name.
    destruct (mapGet m (section q)) eqn:G; [reflexivity|].
    apply mapHas_mapGet in G. congruence.
  - rewrite mapGet_mapSetNew.
    destruct (String.eqb (section q) name) eqn:E.
    + apply String.eqb_eq in E. subst name.
      apply mapHas_mapGet in Hhas. rewrite Hhas. reflexivity.
    + destruct (mapGet m name); reflexivity.
Qed.

Lemma organizeStep_keys (m : SectionMap) (q : Query) :
  map fst (organizeStep m q) =
  if mapHas m (section q) then map fst m else map fst m ++ [section q].
Proof.
  unfold organizeStep. rewrite mapPush_keys.
  destruct (mapHas m (section q)); [reflexivity|].
  unfold mapSetNew. rewrite map_app. reflexivity.
Qed.

Lemma organizeStep_NoDup (m : SectionMap) (q : Query) :
  NoDup (map fst m) -> NoDup (map fst (organizeStep m q)).
Proof.
  intros Hnd. rewrite organizeStep_keys.
  destruct (mapHas m (section q)) eqn:Hhas; [exact Hnd|].
  apply NoDup_app; [exact Hnd | constructor; [intros [] | constructor] |].
  intros key Hkey [<- | []].
  apply mapHas_In in Hkey. congruence.
Qed.

Lemma membersOf_snoc (name : string) (queries : list Query) (q : Query) :
  membersOf name (queries ++ [q]) =
  membersOf name queries ++ (if String.eqb (section q) name then [q] else []).
Proof.
  unfold membersOf. rewrite filter_app. cbn [filter].
  destruct (String.eqb (section q) name); reflexivity.
Qed.

Lemma indexes_step (done : list Query) (m : SectionMap) (q : Query) :
  indexes done m -> indexes (done ++ [q]) (organizeStep m q).
Proof.
  intros [Hnd Hget]. split; [apply organizeStep_NoDup, Hnd|].
  intros name. rewrite mapGet_organizeStep, membersOf_snoc, Hget.
  destruct (String.eqb (section q) name).
  - destruct (membersOf name done) as [|x members]; reflexivity.
  - rewrite app_nil_r. reflexivity.
Qed.

Lemma indexes_fold (queries done : list Query) (m : SectionMap) :
  indexes done m -> indexes (done ++ queries) (fold_left organizeStep queries m).
Proof.
  revert done m. induction queries as [|q queries IH]; intros done m H; cbn [fold_left].
  - rewrite app_nil_r. exact H.
  - replace (done ++ q :: queries) with ((done ++ [q]) ++ queries)
      by (rewrite <- app_assoc; reflexivity).
    apply IH, indexes_step, H.
Qed.

Lemma mapGet_In (m : SectionMap) (name : string) (members : list Query) :
  NoDup (map fst m) ->
  (In (name, members) m <-> mapGet m name = Some members).
Proof.
  induction m as [|[k l] m IH]; cbn [map fst mapGet In]; intros Hnd.
  - split; [contradiction | discriminate].
  - inversion Hnd as [|? ? Hk Hnd']; subst.
    destruct (String.eqb k name) eqn:E.
    + apply String.eqb_eq in E. subst k. split.
      * intros [H | H]; [congruence|].
        exfalso. apply Hk. change name with (fst (name, members)). apply in_map, H.
      * intros H. left. congruence.
    + apply String.eqb_neq in E. rewrite <- (IH Hnd'). split.
      * intros [H | H]; [congruence | exact H].
      * intros H. right. exact H.
Qed.

Lemma indexes_partitions (queries : list Query) (m : SectionMap) :
  indexes queries m -> partitions queries m.
Proof.
  intros [Hnd Hget].
  assert (Hmem : forall name members,
             In (name, members) m -> members = membersOf name queries /\ members <> []).
  { intros name members Hin. apply (mapGet_In m name members Hnd) in Hin.
    rewrite Hget in Hin.
    destruct (membersOf name queries) as [|x l]; [discriminate|].
    injection Hin as <-. split; [reflexivity | discriminate]. }
  split; [exact Hnd|]. split; [exact Hmem|]. split.
  - intros q Hq.
    assert (Hqm : In q (membersOf (section q) queries)).
    { unfold membersOf. apply filter_In. split; [exact Hq | apply String.eqb_refl]. }
    exists (membersOf (section q) queries). split; [|exact Hqm].
    apply (mapGet_In m _ _ Hnd). rewrite Hget.
    destruct (membersOf (section q) queries); [destruct Hqm | reflexivity].
  - intros q name members Hin Hq.
    destruct (Hmem name members Hin) as [-> _].
    unfold membersOf in Hq. apply filter_In in Hq as [_ Hq].
    apply String.eqb_eq in Hq. symmetry. exact Hq.
Qed.

Lemma organizeSections_partitions (p : Parser) :
  partitions (queries p) (sections (organizeSections p)).
Proof.
  apply indexes_partitions. unfold organizeSections. cbn [sections].
  apply (indexes_fold (queries p) [] []).
  split; [constructor | reflexivity].
Qed.

Lemma totalCount_cons (name : string) (members : list Query) (m : SectionMap) :
  totalCount ((name, members) :: m) = (List.length members + totalCount m)%nat.
Proof. reflexivity. Qed.

Lemma totalCount_mapPush (m : SectionMap) (key : string) (q : Query) :
  mapHas m key = true -> totalCount (mapPush m key q) = S (totalCount m).
Proof.
  induction m as [|[k members] m IH]; cbn [mapHas mapPush]; intros H; [discriminate|].
  destruct (String.eqb k key); cbn [orb] in H; rewrite !totalCount_cons.
  - rewrite length_app. cbn [List.length]. lia.
  - rewrite (IH H). lia.
Qed.

Lemma totalCount_organizeStep (m : SectionMap) (q : Query) :
  totalCount (organizeStep m q) = S (totalCount m).
Proof.
  unfold organizeStep. destruct (mapHas m (section q)) eqn:Hhas.
  - apply totalCount_mapPush, Hhas.
  - rewrite totalCount_mapPush.
    + unfold totalCount, mapSetNew. rewrite map_app, list_sum_app.
      cbn [map list_sum fold_right snd List.length]. lia.
    + apply mapHas_In. unfold mapSetNew. rewrite map_app.
      apply in_or_app. right. left. reflexivity.
Qed.

Lemma totalCount_fold (queries : list Query) (m : SectionMap) :
  totalCount (fold_left organizeStep queries m) = (totalCount m + List.length queries)%nat.
Proof.
  revert m. induction queries as [|q queries IH]; intros m; cbn [fold_left List.length].
  - lia.
  - rewrite IH, totalCount_organizeStep. lia.
Qed.

Lemma summarize_counts (m : SectionMap) :
  list_sum (map queryCount (map summarize m)) = totalCount m.
Proof.
  unfold totalCount. rewrite map_map. reflexivity.
Qed.

Lemma fold_left_durations (members : list Query) (start : Z) :
  fold_left (fun sum q => (sum + estimatedDuration q)%Z) members start
  = (start + sumDurations members)%Z.
Proof.
  revert start. unfold sumDurations.
  induction members as [|q members IH]; intros start; cbn [fold_left map fold_right].
  - lia.
  - rewrite IH. lia.
Qed.

End SectionIndex.

Lemma organizeSections_summaries (p0 : Parser) :
  let rebuilt := organizeSections p0 in
  let summaries := map summarize (sections rebuilt) in
  partitions (queries rebuilt) (sections rebuilt)
  /\ list_sum (map queryCount summaries) = List.length (queries rebuilt)
  /\ Forall (fun s =>
               queryCount s = List.length (membersOf (summary_name s) (queries rebuilt))
               /\ summary_estimatedDuration s
                  = sumDurations (membersOf (summary_name s) (queries rebuilt)))
            summaries.
Proof.
  intros rebuilt summaries.
  pose proof (organizeSections_partitions p0) as Hpart.
  change (queries rebuilt) with (queries p0).
  split; [exact Hpart|]. split.
  - unfold summaries. rewrite summarize_counts.
    unfold rebuilt, organizeSections. cbn [sections].
    rewrite totalCount_fold. reflexivity.
  - apply Forall_forall. intros s Hs.
    apply in_map_iff in Hs as ([name members] & <- & Hin).
    destruct Hpart as (_ & Hmem & _).
    destruct (Hmem name members Hin) as [Heq _].
    unfold summarize. cbn [fst snd queryCount summary_name summary_estimatedDuration].
    rewrite fold_left_durations, <- Heq. split; [reflexivity | lia].
Qed.

(** C10: after a rebuild of the section index the sections partition the
    loaded records: the section names are distinct, the list of a section
    holds exactly the records carrying that section, in the order in which
    they were loaded, and every record is in the list of its own section and
    in no other.  [getSections] on the rebuilt parser leaves it as it is
    when it holds records, and reports on exactly these records; with no
    record loaded it first loads (what [loadGlenBerryQueries] gives, or the
    sample queries when that is nothing) and reports on what it loaded.
    Either way the report is the summary of the index, section by section:
    the [queryCount] values add up to the number of loaded records, and the
    [estimatedDuration] of a section is the sum over its members. *)
Theorem organizeSections_getSections_partition
        (loadGlenBerryQueries : Z -> list Query) (p : Parser) (version : Z) :
  let rebuilt := organizeSections p in
  let reported := getSections loadGlenBerryQueries rebuilt version in
  let loaded :=
    match queries p with
    | [] => match loadGlenBerryQueries version with
            | [] => getSampleQueries version
            | fromPack => fromPack
            end
    | _ => queries p
    end in
  partitions (queries p) (sections rebuilt)
  /\ queries rebuilt = queries p
  /\ (queries p <> [] -> fst reported = rebuilt)
  /\ queries (fst reported) = loaded
  /\ partitions loaded (sections (fst reported))
  /\ snd reported = map summarize (sections (fst reported))
  /\ map summary_name (snd reported) = map fst (sections (fst reported))
  /\ list_sum (map queryCount (snd reported)) = List.length loaded
  /\ Forall (fun s =>
               queryCount s = List.length (membersOf (summary_name s) loaded)
               /\ summary_estimatedDuration s = sumDurations (membersOf (summary_name s) loaded))
            (snd reported).
Proof.
  intros rebuilt reported loaded.
  pose proof (organizeSections_partitions p) as Hpart. fold rebuilt in Hpart.
  split; [exact Hpart|]. split; [reflexivity|].
  assert (Hsnd : snd reported = map summarize (sections (fst reported))) by reflexivity.
  assert (Hnames : forall m, map summary_name (map summarize m) = map fst m).
  { intros m. rewrite map_map. apply map_ext. intros [name members]. reflexivity. }
  assert (Hreport : forall p0,
             fst reported = organizeSections p0 -> queries p0 = loaded ->
             queries (fst reported) = loaded
             /\ partitions loaded (sections (fst reported))
             /\ snd reported = map summarize (sections (fst reported))
             /\ map summary_name (snd reported) = map fst (sections (fst reported))
             /\ list_sum (map queryCount (snd reported)) = List.length loaded
             /\ Forall (fun s =>
                          queryCount s = List.length (membersOf (summary_name s) loaded)
                          /\ summary_estimatedDuration s
                             = sumDurations (membersOf (summary_name s) loaded))
                       (snd reported)).
  { intros p0 Hfst Hloaded. rewrite Hsnd, Hfst, Hnames.
    destruct (organizeSections_summaries p0) as (H1 & H2 & H3).
    change (queries (organizeSections p0)) with (queries p0) in *.
    rewrite Hloaded in *.
    split; [reflexivity|]. split; [exact H1|]. split; [reflexivity|].
    split; [reflexivity|]. split; [exact H2 | exact H3]. }
  destruct (queries p) as [|q rest] eqn:Hq.
  - split; [intros H; contradiction|].
    assert (Hempty : sections rebuilt = []).
    { unfold rebuilt, organizeSections. rewrite Hq. reflexivity. }
    assert (Hfst : fst reported
                   = loadQueries (loadGlenBerryQueries version) rebuilt version).
    { unfold reported, getSections. rewrite Hempty. reflexivity. }
    unfold loadQueries in Hfst.
    destruct (loadGlenBerryQueries version) as [|q0 fromPack];
      cbn [List.length Nat.ltb Nat.leb] in Hfst; cbv zeta in Hfst;
      apply (Hreport _ Hfst); reflexivity.
  - assert (Hnonempty : sections rebuilt <> []).
    { destruct Hpart as (_ & _ & Hin & _). intros E.
      destruct (Hin q (or_introl eq_refl)) as (members & Hm & _).
      rewrite E in Hm. destruct Hm. }
    assert (Hfst : fst reported = rebuilt).
    { unfold reported, getSections.
      destruct (sections rebuilt) as [|entry m]; [contradiction | reflexivity]. }
    split; [intros _; exact Hfst|].
    apply (Hreport p Hfst). exact Hq.
Qed.

(** ** The execution engine *)

Section EngineProperties.

Context {S : Type} (env : Env S) (config : Config).

Lemma progressOf_app (ev1 ev2 : list Event) :
  progressOf (ev1 ++ ev2) = progressOf ev1 ++ progressOf ev2.
Proof.
  induction ev1 as [|[text ms answer | ms | p] ev1 IH]; cbn [app progressOf];
    rewrite ?IH; reflexivity.
Qed.

Lemma executionsOf_app (ev1 ev2 : list Event) :
  executionsOf (ev1 ++ ev2) = executionsOf ev1 ++ executionsOf ev2.
Proof.
  induction ev1 as [|[text ms answer | ms | p] ev1 IH]; cbn [app executionsOf];
    rewrite ?IH; reflexivity.
Qed.

Lemma sleepsOf_app (ev1 ev2 : list Event) :
  sleepsOf (ev1 ++ ev2) = sleepsOf ev1 ++ sleepsOf ev2.
Proof.
  induction ev1 as [|[text ms answer | ms | p] ev1 IH]; cbn [app sleepsOf];
    rewrite ?IH; reflexivity.
Qed.

Lemma pause_run (retryDelay : Z) (s : S) :
  exists s', pause env retryDelay s
             = (s', if (retryDelay >? 0)%Z then [Slept retryDelay] else [], inl tt).
Proof.
  unfold pause. destruct (retryDelay >? 0)%Z.
  - exists (sleep env s retryDelay). reflexivity.
  - exists s. reflexivity.
Qed.

(** One pass of the retry loop, by the answer of the connection manager. *)
Lemma retryLoop_pass (fuel : nat) (text : string) (ms maxR delay retries : Z) (s : S) :
  (retries <= maxR)%Z ->
  retryLoop env (Datatypes.S fuel) text ms maxR delay retries s =
  match connectionExecute env s text ms with
  | (s1, inl result) => (s1, [Executed text ms (inl result)], inl result)
  | (s1, inr e) =>
      if (retries + 1 >? maxR)%Z
      then (s1, [Executed text ms (inr e)], inr e)
      else
        match pause env delay s1 with
        | (s2, ev2, _) =>
            match retryLoop env fuel text ms maxR delay (retries + 1) s2 with
            | (s3, ev3, r) => (s3, Executed text ms (inr e) :: ev2 ++ ev3, r)
            end
        end
  end.
Proof.
  intros Hle. cbn [retryLoop].
  apply Z.leb_le in Hle. rewrite Hle.
  unfold tryCatch, callExecute.
  destruct (connectionExecute env s text ms) as [s1 [result | e]]; [reflexivity|].
  destruct (retries + 1 >? maxR)%Z; [reflexivity|].
  unfold bind. fold (pause env delay).
  destruct (pause_run delay s1) as [s2 Hp]. rewrite Hp.
  destruct (retryLoop env fuel text ms maxR delay (retries + 1) s2) as [[s3 ev3] r].
  cbn [app]. rewrite app_nil_r || idtac. reflexivity.
Qed.

Lemma retryLoop_exit (fuel : nat) (text : string) (ms maxR delay retries : Z) (s : S) :
  (maxR < retries)%Z ->
  retryLoop env fuel text ms maxR delay retries s = (s, [], inl ResultOther).
Proof.
  intros Hlt. destruct fuel as [|fuel]; cbn [retryLoop]; [reflexivity|].
  apply Z.leb_gt in Hlt. rewrite Hlt. reflexivity.
Qed.

(** The fuel given by [executeQuery] is enough: more of it changes
    nothing. *)
Lemma retryLoop_fuel (fuel fuel' : nat) (text : string) (ms maxR delay retries : Z) (s : S) :
  (Z.to_nat (maxR + 1 - retries) <= fuel)%nat ->
  (Z.to_nat (maxR + 1 - retries) <= fuel')%nat ->
  retryLoop env fuel text ms maxR delay retries s
  = retryLoop env fuel' text ms maxR delay retries s.
Proof.
  revert fuel' retries s.
  induction fuel as [|fuel IH]; intros fuel' retries s Hf Hf'.
  - rewrite !retryLoop_exit by lia. reflexivity.
  - destruct (Z_le_gt_dec retries maxR) as [Hle | Hgt];
      [|rewrite !retryLoop_exit by lia; reflexivity].
    destruct fuel' as [|fuel']; [lia|].
    rewrite !retryLoop_pass by exact Hle.
    destruct (connectionExecute env s text ms) as [s1 [result | e]]; [reflexivity|].
    destruct (retries + 1 >? maxR)%Z; [reflexivity|].
    destruct (pause env delay s1) as [[s2 ev2] u].
    rewrite (IH fuel' (retries + 1)%Z s2) by lia. reflexivity.
Qed.

(** What a run of the retry loop looks like from outside: it calls no
    progress callback, it runs the text it was given and nothing else, at
    most [maxR + 1 - retries] times, and an error that leaves it is the one
    the last call raised. *)
Lemma retryLoop_shape (fuel : nat) (text : string) (ms maxR delay retries : Z) (s : S) :
  match retryLoop env fuel text ms maxR delay retries s with
  | (_, ev, r) =>
      progressOf ev = []
      /\ Forall (fun call => fst call = text) (executionsOf ev)
      /\ (List.length (executionsOf ev) <= Z.to_nat (maxR + 1 - retries))%nat
      /\ match r with
         | inr e => exists ev0, ev = ev0 ++ [Executed text ms (inr e)]
         | inl _ => True
         end
  end.
Proof.
  revert retries s. induction fuel as [|fuel IH]; intros retries s.
  - cbn. split; [reflexivity|]. split; [constructor|]. split; [lia | exact I].
  - destruct (Z_le_gt_dec retries maxR) as [Hle | Hgt].
    2:{ rewrite retryLoop_exit by lia. cbn.
        split; [reflexivity|]. split; [constructor|]. split; [lia | exact I]. }
    rewrite retryLoop_pass by exact Hle.
    destruct (connectionExecute env s text ms) as [s1 [result | e]].
    + cbn. split; [reflexivity|].
      split; [constructor; [reflexivity | constructor]|]. split; [lia | exact I].
    + destruct (retries + 1 >? maxR)%Z eqn:Hlast.
      * cbn. split; [reflexivity|].
        split; [constructor; [reflexivity | constructor]|]. split; [lia|].
        exists []. reflexivity.
      * rewrite Z.gtb_ltb in Hlast. apply Z.ltb_ge in Hlast.
        destruct (pause_run delay s1) as [s2 Hp]. rewrite Hp.
        specialize (IH (retries + 1)%Z s2).
        destruct (retryLoop env fuel text ms maxR delay (retries + 1) s2) as [[s3 ev3] r].
        destruct IH as (Hprog & Hcalls & Hcount & Hlastev).
        cbn [progressOf executionsOf].
        rewrite progressOf_app, executionsOf_app, Hprog.
        assert (Hp0 : progressOf (if (delay >? 0)%Z then [Slept delay] else []) = []
                      /\ executionsOf (if (delay >? 0)%Z then [Slept delay] else []) = []).
        { destruct (delay >? 0)%Z; split; reflexivity. }
        destruct Hp0 as (-> & ->).
        cbn [app List.length].
        split; [reflexivity|]. split; [constructor; [reflexivity | exact Hcalls]|].
        split; [lia|].
        destruct r as [result | e']; [exact I|].
        destruct Hlastev as [ev0 ->].
        eexists (_ :: _ ++ ev0). rewrite app_assoc. reflexivity.
Qed.

(** When the connection manager refuses every call, the loop makes all the
    passes its test allows, with a pause between two of them. *)
Lemma retryLoop_all_refused (text : string) (ms maxR delay : Z) (n : nat) :
  (forall s text' ms', exists s' e, connectionExecute env s text' ms' = (s', inr e)) ->
  forall retries s,
    Z.to_nat (maxR - retries) = n -> (retries <= maxR)%Z ->
    match retryLoop env (Datatypes.S n) text ms maxR delay retries s with
    | (_, ev, r) =>
        List.length (executionsOf ev) = Datatypes.S n
        /\ sleepsOf ev = repeat delay (if (delay >? 0)%Z then n else 0%nat)
        /\ exists e, r = inr e
    end.
Proof.
  intros Hrefuse. induction n as [|n IH]; intros retries s Hn Hle;
    rewrite retryLoop_pass by exact Hle;
    destruct (Hrefuse s text ms) as (s1 & e & ->).
  - assert (Hlast : (retries + 1 >? maxR)%Z = true) by (apply Z.gtb_lt; lia).
    rewrite Hlast. cbn. split; [reflexivity|]. split; [|exists e; reflexivity].
    destruct (delay >? 0)%Z; reflexivity.
  - assert (Hlast : (retries + 1 >? maxR)%Z = false)
      by (rewrite Z.gtb_ltb; apply Z.ltb_ge; lia).
    rewrite Hlast.
    destruct (pause_run delay s1) as [s2 ->].
    specialize (IH (retries + 1)%Z s2 ltac:(lia) ltac:(lia)).
    destruct (retryLoop env (Datatypes.S n) text ms maxR delay (retries + 1) s2) as [[s3 ev3] r].
    destruct IH as (Hcalls & Hsleeps & Hr).
    destruct (delay >? 0)%Z; cbn [executionsOf sleepsOf app List.length];
      rewrite Hcalls, Hsleeps;
      (split; [reflexivity|]; split; [reflexivity | exact Hr]).
Qed.

(** The effective retry budget of [executeQuery]. *)
Lemma executeQuery_shape (q : Query) (s : S) :
  match executeQuery env config q s with
  | (_, ev, r) =>
      progressOf ev = []
      /\ Forall (fun call => fst call = query q) (executionsOf ev)
      /\ (List.length (executionsOf ev)
          <= Z.to_nat (orDefault (maxRetries config) 3 + 1))%nat
      /\ match r with
         | inr e => exists ev0 ms, ev = ev0 ++ [Executed (query q) ms (inr e)]
         | inl _ => True
         end
  end.
Proof.
  unfold executeQuery.
  pose proof (retryLoop_shape (Z.to_nat (orDefault (maxRetries config) 3 + 1)) (query q)
                (orDefault (timeout config) 30000) (orDefault (maxRetries config) 3)
                (orDefault (retryDelay config) 1000) 0 s) as H.
  destruct (retryLoop env _ _ _ _ _ _ s) as [[s' ev] r].
  destruct H as (H1 & H2 & H3 & H4).
  split; [exact H1|]. split; [exact H2|]. split; [rewrite Z.sub_0_r in H3; exact H3|].
  destruct r as [result | e]; [exact I|].
  destruct H4 as [ev0 ->]. exists ev0, (orDefault (timeout config) 30000). reflexivity.
Qed.

(** With a [maxRetries] of at least 1 the bound is the configured one. *)
Lemma executeQuery_calls_bounded (q : Query) (s : S) (m : Z) :
  maxRetries config = Some m -> (1 <= m)%Z ->
  (List.length (executionsOf (snd (fst (executeQuery env config q s))))
   <= Z.to_nat (m + 1))%nat.
Proof.
  intros Hm Hpos. pose proof (executeQuery_shape q s) as H.
  destruct (executeQuery env config q s) as [[s' ev] r]. cbn [fst snd].
  destruct H as (_ & _ & H & _).
  rewrite Hm in H. unfold orDefault in H.
  destruct (m =? 0)%Z eqn:E; [apply Z.eqb_eq in E; lia | exact H].
Qed.

Lemma notify_events (progressCallback : option (ProgressCallback S)) (p : Progress) (s : S) :
  snd (fst (notify progressCallback p s)) = notifyEvents progressCallback p.
Proof.
  destruct progressCallback as [callback|]; cbn [notify notifyEvents]; [|reflexivity].
  destruct (callback s p) as [s1 [e|]]; reflexivity.
Qed.

Lemma notify_quiet (progressCallback : option (ProgressCallback S)) (p : Progress) (s : S) :
  quiet progressCallback ->
  exists s', notify progressCallback p s = (s', notifyEvents progressCallback p, inl tt).
Proof.
  intros Hq. destruct progressCallback as [callback|]; cbn [notify notifyEvents].
  - specialize (Hq callback eq_refl s p).
    destruct (callback s p) as [s1 [e|]]; [discriminate Hq|].
    exists s1. reflexivity.
  - exists s. reflexivity.
Qed.

(** The [try] block of one record, run step by step. *)
Lemma tryRecord_run (progressCallback : option (ProgressCallback S))
      (i n : nat) (q : Query) (s : S) :
  tryRecord env config progressCallback i n q s =
  match notify progressCallback (mkProgress i n (name q)) s with
  | (s1, ev1, inr e) => (s1, ev1, inr e)
  | (s1, ev1, inl _) =>
      let '(s2, queryStartTime) := now env s1 in
      match executeQuery env config q s2 with
      | (s3, ev3, inr e) => (s3, ev1 ++ ev3, inr e)
      | (s3, ev3, inl queryResult) =>
          let '(s4, queryEndTime) := now env s3 in
          let '(s5, stamp) := now env s4 in
          (s5, ev1 ++ ev3,
           inl (mkOutcome (id q) (name q) (section q) (description q) true None
                  (queryEndTime - queryStartTime)%Z (List.length (rowsOf queryResult))
                  (rowsOf queryResult) stamp))
      end
  end.
Proof.
  unfold tryRecord, bind, clock, ret.
  destruct (notify progressCallback (mkProgress i n (name q)) s) as [[s1 ev1] [u | e]];
    [|reflexivity].
  destruct (now env s1) as [s2 t0].
  destruct (executeQuery env config q s2) as [[s3 ev3] [queryResult | e]];
    [|cbn [app]; reflexivity].
  destruct (now env s3) as [s4 t1]. destruct (now env s4) as [s5 t2].
  cbn [app]. rewrite !app_nil_r. reflexivity.
Qed.

(** What the [try] block of one record shows: the progress event of the
    record comes first (when there is a callback), every call is for the
    text of the record, and an error that leaves the block is either the
    callback's or the one raised by the last call. *)
Lemma tryRecord_shape (progressCallback : option (ProgressCallback S))
      (i n : nat) (q : Query) (s : S) :
  match tryRecord env config progressCallback i n q s with
  | (_, ev, r) =>
      (exists rest,
          ev = notifyEvents progressCallback (mkProgress i n (name q)) ++ rest
          /\ progressOf rest = []
          /\ Forall (fun call => fst call = query q) (executionsOf rest)
          /\ match r with
             | inr e => rest = [] \/ exists ev0 ms, rest = ev0 ++ [Executed (query q) ms (inr e)]
             | inl _ => True
             end)
      /\ match r with
         | inl outcome =>
             success outcome = true /\ error outcome = None
             /\ outcome_id outcome = id q /\ outcome_name outcome = name q
         | inr _ => True
         end
  end.
Proof.
  rewrite tryRecord_run.
  pose proof (notify_events progressCallback (mkProgress i n (name q)) s) as Hev.
  destruct (notify progressCallback (mkProgress i n (name q)) s) as [[s1 ev1] [u | e]];
    cbn [fst snd] in Hev; subst ev1.
  2:{ split; [|exact I]. exists []. rewrite app_nil_r.
      split; [reflexivity|]. split; [reflexivity|]. split; [constructor | left; reflexivity]. }
  destruct (now env s1) as [s2 t0].
  pose proof (executeQuery_shape q s2) as Hq.
  destruct (executeQuery env config q s2) as [[s3 ev3] [queryResult | e]].
  - destruct (now env s3) as [s4 t1]. destruct (now env s4) as [s5 t2].
    destruct Hq as (H1 & H2 & _).
    split; [|cbn; repeat split].
    exists ev3. split; [reflexivity|]. split; [exact H1|]. split; [exact H2 | exact I].
  - destruct Hq as (H1 & H2 & _ & H4).
    split; [|exact I].
    exists ev3. split; [reflexivity|]. split; [exact H1|]. split; [exact H2|].
    right. exact H4.
Qed.

Lemma segmentsFor_progress (callback : ProgressCallback S) (n : nat)
      (queries : list Query) (segments : list (list Event)) (i : nat) :
  segmentsFor (Some callback) i n queries segments ->
  progressOf (List.concat segments) = recordProgress i n queries.
Proof.
  revert segments i. induction queries as [|q queries IH]; intros [|segment segments] i H;
    cbn [segmentsFor] in H; try contradiction.
  - reflexivity.
  - destruct H as [(rest & -> & Hrest & _) H].
    cbn [List.concat recordProgress notifyEvents app progressOf].
    rewrite progressOf_app, Hrest, (IH _ _ H). reflexivity.
Qed.

Lemma segmentsFor_executions (progressCallback : option (ProgressCallback S)) (n : nat)
      (queries : list Query) (segments : list (list Event)) (i : nat) :
  segmentsFor progressCallback i n queries segments ->
  Forall (fun call => In (fst call) (map query queries)) (executionsOf (List.concat segments)).
Proof.
  revert segments i. induction queries as [|q queries IH]; intros [|segment segments] i H;
    cbn [segmentsFor] in H; try contradiction.
  - constructor.
  - destruct H as [(rest & -> & _ & Hrest) H].
    cbn [List.concat map]. rewrite !executionsOf_app.
    assert (Hn : executionsOf (notifyEvents progressCallback (mkProgress i n (name q))) = [])
      by (destruct progressCallback; reflexivity).
    rewrite Hn. cbn [app]. apply Forall_app. split.
    + eapply Forall_impl; [|exact Hrest]. intros call ->. left. reflexivity.
    + eapply Forall_impl; [|exact (IH _ _ H)]. intros call Hc. right. exact Hc.
Qed.

Lemma segmentsFor_length (progressCallback : option (ProgressCallback S)) (n : nat)
      (queries : list Query) (segments : list (list Event)) (i : nat) :
  segmentsFor progressCallback i n queries segments ->
  List.length segments = List.length queries.
Proof.
  revert segments i. induction queries as [|q queries IH]; intros [|segment segments] i H;
    cbn [segmentsFor] in H; try contradiction.
  - reflexivity.
  - destruct H as [_ H]. cbn [List.length]. rewrite (IH _ _ H). reflexivity.
Qed.

(** One pass of the [for] loop, by the end of its [try] block. *)
Lemma forLoop_pass (progressCallback : option (ProgressCallback S))
      (i n : nat) (q : Query) (rest : list Query) (results : Results) (s : S) :
  forLoop env config progressCallback i n (q :: rest) results s =
  match tryRecord env config progressCallback i n q s with
  | (s1, ev1, inl outcome) =>
      match forLoop env config progressCallback (Datatypes.S i) n rest
              (mkResults (results_data results ++ [outcome])
                         (Datatypes.S (successful results)) (failed results)
                         (results_executionTime results)) s1 with
      | (s2, ev2, results2, thrown) => (s2, ev1 ++ ev2, results2, thrown)
      end
  | (s1, ev1, inr e) =>
      let results1 :=
        mkResults (results_data results ++ [failureOutcome q e (snd (now env s1))])
                  (successful results) (Datatypes.S (failed results))
                  (results_executionTime results) in
      if continueOnError config
      then match forLoop env config progressCallback (Datatypes.S i) n rest results1
                   (fst (now env s1)) with
           | (s2, ev2, results2, thrown) => (s2, ev1 ++ ev2, results2, thrown)
           end
      else (fst (now env s1), ev1, results1, Some e)
  end.
Proof.
  cbn [forLoop].
  destruct (tryRecord env config progressCallback i n q s) as [[s1 ev1] [outcome | e]];
    [reflexivity|].
  destruct (now env s1) as [s1' stamp]. cbn [fst snd].
  destruct (continueOnError config); reflexivity.
Qed.

Lemma failureOutcome_records (q : Query) (e : JsError) (stamp : Z) :
  recordsFailure q e (failureOutcome q e stamp).
Proof. repeat split. Qed.

(** The run of the loop over [rest], seen from outside.  [k] records were
    attempted: they are the first [k] of [rest], each has its outcome and its
    piece of the events, in order.  The loop ends normally only after the
    last record; an error leaves it only when [continueOnError] is off, at
    the first record that fails, whose failure is the last outcome. *)
Lemma forLoop_shape (progressCallback : option (ProgressCallback S)) (n : nat)
      (rest : list Query) (i : nat) (results : Results) (s : S) :
  match forLoop env config progressCallback i n rest results s with
  | (_, ev, results', thrown) =>
      exists outcomes segments,
        addedOutcomes results results' outcomes
        /\ map outcome_id outcomes = map id (firstn (List.length outcomes) rest)
        /\ map outcome_name outcomes = map name (firstn (List.length outcomes) rest)
        /\ ev = List.concat segments
        /\ segmentsFor progressCallback i n (firstn (List.length outcomes) rest) segments
        /\ match thrown with
           | None => List.length outcomes = List.length rest
           | Some e =>
               continueOnError config = false
               /\ exists before q after last,
                   rest = before ++ q :: after
                   /\ List.length outcomes = Datatypes.S (List.length before)
                   /\ nth_error outcomes (List.length before) = Some last
                   /\ recordsFailure q e last
                   /\ Forall (fun o => success o = true) (firstn (List.length before) outcomes)
           end
  end.
Proof.
  revert i results s. induction rest as [|q rest IH]; intros i results s.
  - cbn [forLoop]. exists [], [].
    split; [unfold addedOutcomes; cbn; rewrite app_nil_r; repeat split; lia|].
    repeat split.
  - rewrite forLoop_pass.
    pose proof (tryRecord_shape progressCallback i n q s) as Htry.
    destruct (tryRecord env config progressCallback i n q s) as [[s1 ev1] [outcome | e]].
    + destruct Htry as [(rest0 & -> & Hprog & Hcalls & _) (Hsucc & Herr & Hid & Hname)].
      match goal with
      | |- context [forLoop env config progressCallback (Datatypes.S i) n rest ?r s1] =>
          specialize (IH (Datatypes.S i) r s1);
          destruct (forLoop env config progressCallback (Datatypes.S i) n rest r s1)
            as [[[s2 ev2] results2] thrown]
      end.
      destruct IH as (outcomes & segments & Hadd & Hids & Hnames & -> & Hseg & Hthrown).
      exists (outcome :: outcomes), ((notifyEvents progressCallback (mkProgress i n (name q)) ++ rest0) :: segments).
      destruct Hadd as (Hd & Hs & Hf & Ht). cbn [results_data successful failed results_executionTime] in *.
      split.
      { unfold addedOutcomes. cbn [filter]. rewrite Hsucc. cbn [negb List.length].
        rewrite Hd, <- app_assoc. repeat split; try assumption; lia. }
      cbn [List.length firstn map]. rewrite Hids, Hnames, Hid, Hname.
      split; [reflexivity|]. split; [reflexivity|]. split; [reflexivity|].
      split.
      { cbn [segmentsFor]. split; [|exact Hseg].
        exists rest0. split; [reflexivity|]. split; assumption. }
      destruct thrown as [e|]; [|lia].
      destruct Hthrown as (Hc & before & qf & after & last & -> & Hlen & Hnth & Hrec & Hall).
      split; [exact Hc|].
      exists (q :: before), qf, after, last. cbn [List.length nth_error firstn app].
      split; [reflexivity|]. split; [lia|]. split; [exact Hnth|]. split; [exact Hrec|].
      constructor; assumption.
    + destruct Htry as [(rest0 & -> & Hprog & Hcalls & _) _].
      cbv zeta. destruct (continueOnError config) eqn:Hcont.
      * match goal with
        | |- context [forLoop env config progressCallback (Datatypes.S i) n rest ?r ?s'] =>
            specialize (IH (Datatypes.S i) r s');
            destruct (forLoop env config progressCallback (Datatypes.S i) n rest r s')
              as [[[s2 ev2] results2] thrown]
        end.
        destruct IH as (outcomes & segments & Hadd & Hids & Hnames & -> & Hseg & Hthrown).
        exists (failureOutcome q e (snd (now env s1)) :: outcomes),
          ((notifyEvents progressCallback (mkProgress i n (name q)) ++ rest0) :: segments).
        destruct Hadd as (Hd & Hs & Hf & Ht).
        cbn [results_data successful failed results_executionTime] in *.
        split.
        { unfold addedOutcomes. cbn [filter failureOutcome success negb List.length].
          rewrite Hd, <- app_assoc. repeat split; try assumption; lia. }
        cbn [List.length firstn map]. rewrite Hids, Hnames.
        split; [reflexivity|]. split; [reflexivity|]. split; [reflexivity|].
        split.
        { cbn [segmentsFor]. split; [|exact Hseg].
          exists rest0. split; [reflexivity|]. split; assumption. }
        destruct thrown as [e'|]; [|lia].
        destruct Hthrown as (Hc & _). congruence.
      * exists [failureOutcome q e (snd (now env s1))], [(notifyEvents progressCallback (mkProgress i n (name q)) ++ rest0)].
        split.
        { unfold addedOutcomes. cbn. repeat split; lia. }
        cbn [List.length firstn map List.concat]. rewrite app_nil_r.
        split; [reflexivity|]. split; [reflexivity|]. split; [reflexivity|].
        split.
        { cbn [segmentsFor]. split; [|exact I].
          exists rest0. split; [reflexivity|]. split; assumption. }
        split; [reflexivity|].
        exists [], q, rest, (failureOutcome q e (snd (now env s1))).
        cbn [List.length nth_error firstn app].
        split; [reflexivity|]. split; [reflexivity|]. split; [reflexivity|].
        split; [apply failureOutcome_records | constructor].
Qed.

(** The loop over a list in two parts: the second part runs from where the
    first one ends, unless an error left the first. *)
Lemma forLoop_app (progressCallback : option (ProgressCallback S)) (n : nat)
      (l1 l2 : list Query) (i : nat) (results : Results) (s : S) :
  forLoop env config progressCallback i n (l1 ++ l2) results s =
  match forLoop env config progressCallback i n l1 results s with
  | (s1, ev1, results1, Some e) => (s1, ev1, results1, Some e)
  | (s1, ev1, results1, None) =>
      match forLoop env config progressCallback (i + List.length l1) n l2 results1 s1 with
      | (s2, ev2, results2, thrown) => (s2, ev1 ++ ev2, results2, thrown)
      end
  end.
Proof.
  revert i results s. induction l1 as [|q l1 IH]; intros i results s.
  - cbn [app forLoop List.length]. rewrite Nat.add_0_r.
    destruct (forLoop env config progressCallback i n l2 results s) as [[[s2 ev2] r2] t].
    reflexivity.
  - cbn [app]. rewrite !forLoop_pass.
    destruct (tryRecord env config progressCallback i n q s) as [[s1 ev1] [outcome | e]].
    + rewrite IH.
      destruct (forLoop env config progressCallback (Datatypes.S i) n l1 _ s1)
        as [[[s2 ev2] r2] [e2|]]; [reflexivity|].
      cbn [List.length]. rewrite Nat.add_succ_r.
      change (Datatypes.S i + List.length l1)%nat with (Datatypes.S (i + List.length l1)).
      destruct (forLoop env config progressCallback (Datatypes.S (i + List.length l1)) n l2 r2 s2)
        as [[[s3 ev3] r3] t].
      cbv beta iota. rewrite app_assoc. reflexivity.
    + cbv zeta. destruct (continueOnError config); [|reflexivity].
      rewrite IH.
      destruct (forLoop env config progressCallback (Datatypes.S i) n l1 _ (fst (now env s1)))
        as [[[s2 ev2] r2] [e2|]]; [reflexivity|].
      cbn [List.length]. rewrite Nat.add_succ_r.
      change (Datatypes.S i + List.length l1)%nat with (Datatypes.S (i + List.length l1)).
      destruct (forLoop env config progressCallback (Datatypes.S (i + List.length l1)) n l2 r2 s2)
        as [[[s3 ev3] r3] t].
      cbv beta iota. rewrite app_assoc. reflexivity.
Qed.

Lemma recordProgress_completed (i n : nat) (queries : list Query) :
  map completed (recordProgress i n queries) = seq i (List.length queries).
Proof.
  revert i. induction queries as [|q queries IH]; intros i; cbn; [reflexivity|].
  rewrite IH. reflexivity.
Qed.

Lemma recordProgress_total (i n : nat) (queries : list Query) (p : Progress) :
  In p (recordProgress i n queries) -> total p = n.
Proof.
  revert i. induction queries as [|q queries IH]; intros i; cbn; [contradiction|].
  intros [<- | H]; [reflexivity | exact (IH _ H)].
Qed.

Lemma recordProgress_length (i n : nat) (queries : list Query) :
  List.length (recordProgress i n queries) = List.length queries.
Proof.
  rewrite <- (length_map completed), recordProgress_completed. apply length_seq.
Qed.

(** [executeQuery] when the server answers the text with rows. *)
Lemma executeQuery_succeeds (q : Query) (s : S) :
  succeedsOn env (query q) ->
  (0 <= orDefault (maxRetries config) 3)%Z ->
  exists s' result ms,
    executeQuery env config q s = (s', [Executed (query q) ms (inl result)], inl result).
Proof.
  intros Hok Hm. unfold executeQuery.
  replace (Z.to_nat (orDefault (maxRetries config) 3 + 1))
    with (Datatypes.S (Z.to_nat (orDefault (maxRetries config) 3))) by lia.
  rewrite retryLoop_pass by exact Hm.
  destruct (Hok s (orDefault (timeout config) 30000)) as (s' & result & ->).
  exists s', result, (orDefault (timeout config) 30000). reflexivity.
Qed.

(** [executeQuery] with one retry when the server refuses the text. *)
Lemma executeQuery_fails_after_one_retry (q : Query) (s : S) :
  maxRetries config = Some 1%Z ->
  failsOn env (query q) ->
  exists s' e1 e2 ms,
    executeQuery env config q s
    = (s',
       Executed (query q) ms (inr e1)
         :: (if (orDefault (retryDelay config) 1000 >? 0)%Z
             then [Slept (orDefault (retryDelay config) 1000)] else [])
         ++ [Executed (query q) ms (inr e2)],
       inr e2)
    /\ message e2 <> EmptyString.
Proof.
  intros Hm Hfail. unfold executeQuery. rewrite Hm. cbn [orDefault Z.eqb].
  change (Z.to_nat (1 + 1)) with 2%nat.
  rewrite retryLoop_pass by lia.
  destruct (Hfail s (orDefault (timeout config) 30000)) as (s1 & e1 & -> & _).
  change (0 + 1 >? 1)%Z with false. cbv iota.
  destruct (pause_run (orDefault (retryDelay config) 1000) s1) as [s2 ->].
  rewrite retryLoop_pass by lia.
  destruct (Hfail s2 (orDefault (timeout config) 30000)) as (s3 & e2 & -> & Hmsg).
  change (0 + 1 + 1 >? 1)%Z with true. cbv iota.
  exists s3, e1, e2, (orDefault (timeout config) 30000). split; [reflexivity | exact Hmsg].
Qed.

Lemma segmentsFor_snoc (progressCallback : option (ProgressCallback S)) (n : nat)
      (before : list Query) (q : Query) (rest : list Event)
      (segments : list (list Event)) (i : nat) :
  segmentsFor progressCallback i n before segments ->
  progressOf rest = [] ->
  Forall (fun call => fst call = query q) (executionsOf rest) ->
  segmentsFor progressCallback i n (before ++ [q])
    (segments ++ [notifyEvents progressCallback
                    (mkProgress (i + List.length before) n (name q)) ++ rest]).
Proof.
  intros Hseg Hprog Hcalls. revert segments i Hseg.
  induction before as [|b before IH]; intros [|segment segments] i Hseg;
    cbn [segmentsFor] in Hseg; try contradiction.
  - cbn [app segmentsFor List.length]. rewrite Nat.add_0_r.
    split; [|exact I]. exists rest. split; [reflexivity|]. split; assumption.
  - destruct Hseg as [Hhead Hseg]. cbn [app segmentsFor]. split; [exact Hhead|].
    cbn [List.length]. rewrite Nat.add_succ_r.
    exact (IH segments (Datatypes.S i) Hseg).
Qed.

Lemma segmentsFor_progress_any (progressCallback : option (ProgressCallback S)) (n : nat)
      (records : list Query) (segments : list (list Event)) (i : nat) :
  segmentsFor progressCallback i n records segments ->
  progressOf (List.concat segments)
  = progressOf (List.concat (map (fun p => notifyEvents progressCallback p)
                                 (recordProgress i n records))).
Proof.
  revert segments i. induction records as [|r records IH]; intros [|segment segments] i H;
    cbn [segmentsFor] in H; try contradiction.
  - reflexivity.
  - destruct H as [(rest0 & -> & Hrest0 & _) H].
    cbn [recordProgress map List.concat].
    rewrite !progressOf_app, Hrest0, (IH _ _ H), app_nil_r. reflexivity.
Qed.

End EngineProperties.

(** C4: a run over N records that comes to its end calls the progress
    callback exactly N + 1 times: once for each record, before anything is
    run for it, with the number of records done so far, the total and the
    record's name, in the order of the records; and once at the end with
    [completed = total = N].  The [completed] values are 0, 1, ..., N. *)
Theorem executeQueries_progress_events {S : Type} (env : Env S) (config : Config)
        (callback : ProgressCallback S) (queries : list Query)
        (s s' : S) (events : list Event) (results : Results) :
  executeQueries env config queries (Some callback) s = (s', events, inl results) ->
  let N := List.length queries in
  progressOf events = recordProgress 0 N queries ++ [mkProgress N N "Complete"]
  /\ List.length (progressOf events) = Datatypes.S N
  /\ map completed (progressOf events) = seq 0 (Datatypes.S N)
  /\ (forall p, In p (progressOf events) -> total p = N)
  /\ exists segments,
      events = List.concat segments ++ [Progressed (mkProgress N N "Complete")]
      /\ segmentsFor (Some callback) 0 N queries segments.
Proof.
  intros Hrun N. unfold executeQueries in Hrun.
  destruct (now env s) as [s0 startTime].
  pose proof (forLoop_shape env config (Some callback) N queries 0 emptyResults s0) as Hloop.
  fold N in Hrun.
  destruct (forLoop env config (Some callback) 0 N queries emptyResults s0)
    as [[[s1 ev1] results1] [e|]]; [discriminate Hrun|].
  destruct Hloop as (outcomes & segments & _ & _ & _ & -> & Hseg & Hlen).
  unfold N in Hlen. rewrite Hlen, firstn_all in Hseg.
  unfold bind, notify, clock, ret in Hrun.
  destruct (callback s1 (mkProgress N N "Complete")) as [s2 [e|]]; [discriminate Hrun|].
  destruct (now env s2) as [s3 endTime].
  injection Hrun as _ <- _. cbn [app]. rewrite ?app_nil_r.
  assert (Hprog : progressOf (List.concat segments ++ [Progressed (mkProgress N N "Complete")])
                  = recordProgress 0 N queries ++ [mkProgress N N "Complete"]).
  { rewrite progressOf_app, (segmentsFor_progress callback N queries segments 0 Hseg).
    reflexivity. }
  rewrite Hprog.
  split; [reflexivity|]. split.
  { rewrite length_app, recordProgress_length. cbn [List.length]. fold N. lia. }
  split.
  { rewrite map_app, recordProgress_completed. cbn [map completed]. fold N.
    rewrite seq_S. reflexivity. }
  split.
  { intros p Hp. apply in_app_or in Hp as [Hp | [<- | []]];
      [exact (recordProgress_total _ _ _ _ Hp) | reflexivity]. }
  exists segments. split; [reflexivity | exact Hseg].
Qed.

Lemma executeQueries_progress_events_witness :
  let events :=
    snd (fst (executeQueries scenarioEnv (scenarioConfig true)
                [record1; record2; record3] (Some scenarioCallback) 0%Z)) in
  progressOf events
  = recordProgress 0 3 [record1; record2; record3] ++ [mkProgress 3 3 "Complete"]
  /\ List.length (progressOf events) = 4%nat
  /\ map completed (progressOf events) = seq 0 4
  /\ (forall p, In p (progressOf events) -> total p = 3%nat)
  /\ exists segments,
      events = List.concat segments ++ [Progressed (mkProgress 3 3 "Complete")]
      /\ segmentsFor (Some scenarioCallback) 0 3 [record1; record2; record3] segments.
Proof.
  pose (run := executeQueries scenarioEnv (scenarioConfig true)
                 [record1; record2; record3] (Some scenarioCallback) 0%Z).
  assert (Hrun : exists results, run = (fst (fst run), snd (fst run), inl results)).
  { vm_compute. eexists. reflexivity. }
  destruct Hrun as [results Hrun].
  exact (executeQueries_progress_events scenarioEnv (scenarioConfig true) scenarioCallback
           [record1; record2; record3] 0%Z (fst (fst run)) (snd (fst run)) results Hrun).
Defined.

(** C1, at the setting [maxRetries = 0]: [executeQuery] reads the setting
    as [this.config.maxRetries || 3], so 0 stands for 3.  Against a
    connection that refuses every call the record is run four times, with
    three pauses, before its failure is final. *)
Theorem executeQuery_maxRetries_zero_runs_four_times {S : Type} (env : Env S)
        (config : Config) (q : Query) (s : S) :
  maxRetries config = Some 0%Z ->
  (forall s text ms, exists s' e, connectionExecute env s text ms = (s', inr e)) ->
  match executeQuery env config q s with
  | (_, events, r) =>
      List.length (executionsOf events) = 4%nat
      /\ sleepsOf events
         = repeat (orDefault (retryDelay config) 1000)
                  (if (orDefault (retryDelay config) 1000 >? 0)%Z then 3 else 0)
      /\ exists e, r = inr e
  end.
Proof.
  intros Hm Hrefuse. unfold executeQuery. rewrite Hm.
  change (orDefault (Some 0%Z) 3) with 3%Z.
  change (Z.to_nat (3 + 1)) with 4%nat.
  exact (retryLoop_all_refused env (query q) (orDefault (timeout config) 30000) 3
           (orDefault (retryDelay config) 1000) 3 Hrefuse 0%Z s eq_refl ltac:(lia)).
Qed.

Lemma executeQuery_maxRetries_zero_runs_four_times_witness :
  match executeQuery refusingEnv (mkConfig None (Some 0%Z) (Some 0%Z) true) record1 0%Z with
  | (_, events, r) =>
      List.length (executionsOf events) = 4%nat
      /\ sleepsOf events = repeat 1000%Z 3
      /\ exists e, r = inr e
  end.
Proof.
  apply (executeQuery_maxRetries_zero_runs_four_times refusingEnv
           (mkConfig None (Some 0%Z) (Some 0%Z) true) record1 0%Z).
  - reflexivity.
  - intros s text ms. eexists. eexists. reflexivity.
Defined.

(** C2: three records, [maxRetries = 1], [continueOnError] on, a server
    that refuses the text of the second record on every attempt and answers
    the two others.  The run returns a result with 2 successes and 1
    failure and three outcomes in the order of the records.  The second
    outcome is a failure with no rows, an elapsed time of 0 and, as its error
    message, the (non-empty) message of the error raised by the last attempt.
    The first and the third record are run once each, the second twice. *)
Theorem executeQueries_continues_after_failure {S : Type} (env : Env S) (config : Config)
        (progressCallback : option (ProgressCallback S)) (q1 q2 q3 : Query) (s : S) :
  maxRetries config = Some 1%Z ->
  continueOnError config = true ->
  quiet progressCallback ->
  succeedsOn env (query q1) ->
  failsOn env (query q2) ->
  succeedsOn env (query q3) ->
  exists s' events results o1 o2 o3 r1 e1 e2 r3,
    executeQueries env config [q1; q2; q3] progressCallback s = (s', events, inl results)
    /\ successful results = 2%nat
    /\ failed results = 1%nat
    /\ results_data results = [o1; o2; o3]
    /\ (success o1 = true /\ outcome_id o1 = id q1 /\ outcome_name o1 = name q1)
    /\ (recordsFailure q2 e2 o2 /\ message e2 <> EmptyString)
    /\ (success o3 = true /\ outcome_id o3 = id q3 /\ outcome_name o3 = name q3)
    /\ executionsOf events
       = [(query q1, inl r1); (query q2, inr e1); (query q2, inr e2); (query q3, inl r3)].
Proof.
  intros Hm Hcont Hquiet Hq1 Hq2 Hq3.
  assert (Hm0 : (0 <= orDefault (maxRetries config) 3)%Z) by (rewrite Hm; cbn; lia).
  unfold executeQueries. destruct (now env s) as [s0 startTime].
  cbn [List.length].
  (* the first record *)
  rewrite forLoop_pass, tryRecord_run.
  destruct (notify_quiet progressCallback (mkProgress 0 3 (name q1)) s0 Hquiet) as [sa ->].
  destruct (now env sa) as [sb t1].
  destruct (executeQuery_succeeds env config q1 sb Hq1 Hm0) as (sc & r1 & ms1 & ->).
  destruct (now env sc) as [sd t2]. destruct (now env sd) as [se t3].
  (* the second record *)
  rewrite forLoop_pass, tryRecord_run.
  destruct (notify_quiet progressCallback (mkProgress 1 3 (name q2)) se Hquiet) as [sf ->].
  destruct (now env sf) as [sg t4].
  destruct (executeQuery_fails_after_one_retry env config q2 sg Hm Hq2)
    as (sh & e1 & e2 & ms2 & -> & Hmsg).
  cbv zeta. rewrite Hcont.
  destruct (now env sh) as [si t5]. cbn [fst snd].
  (* the third record *)
  rewrite forLoop_pass, tryRecord_run.
  destruct (notify_quiet progressCallback (mkProgress 2 3 (name q3)) si Hquiet) as [sj ->].
  destruct (now env sj) as [sk t6].
  destruct (executeQuery_succeeds env config q3 sk Hq3 Hm0) as (sl & r3 & ms3 & ->).
  destruct (now env sl) as [sm t7]. destruct (now env sm) as [sn t8].
  cbn [forLoop List.length].
  (* the final progress event and the total time *)
  unfold bind, clock, ret.
  destruct (notify_quiet progressCallback (mkProgress 3 3 "Complete") sn Hquiet) as [so ->].
  destruct (now env so) as [sp t9].
  do 10 eexists.
  split; [reflexivity|].
  cbn [successful failed results_data emptyResults app].
  split; [reflexivity|]. split; [reflexivity|]. split; [reflexivity|].
  split; [repeat split|].
  split; [split; [apply failureOutcome_records | exact Hmsg]|].
  split; [repeat split|].
  rewrite !executionsOf_app.
  assert (Hn : forall p, executionsOf (notifyEvents progressCallback p) = [])
    by (intros p; destruct progressCallback; reflexivity).
  rewrite !Hn. cbn [executionsOf app].
  rewrite executionsOf_app.
  destruct (orDefault (retryDelay config) 1000 >? 0)%Z; reflexivity.
Qed.

Lemma executeQueries_continues_after_failure_witness :
  exists s' events results o1 o2 o3 r1 e1 e2 r3,
    executeQueries scenarioEnv (scenarioConfig true) [record1; record2; record3]
                   (Some scenarioCallback) 0%Z = (s', events, inl results)
    /\ successful results = 2%nat
    /\ failed results = 1%nat
    /\ results_data results = [o1; o2; o3]
    /\ (success o1 = true /\ outcome_id o1 = id record1 /\ outcome_name o1 = name record1)
    /\ (recordsFailure record2 e2 o2 /\ message e2 <> EmptyString)
    /\ (success o3 = true /\ outcome_id o3 = id record3 /\ outcome_name o3 = name record3)
    /\ executionsOf events
       = [(query record1, inl r1); (query record2, inr e1); (query record2, inr e2);
          (query record3, inl r3)].
Proof.
  apply (executeQueries_continues_after_failure scenarioEnv (scenarioConfig true)
           (Some scenarioCallback) record1 record2 record3 0%Z).
  - reflexivity.
  - reflexivity.
  - intros callback Hc s p. injection Hc as <-. reflexivity.
  - intros s ms. eexists. eexists. reflexivity.
  - intros s ms. eexists. eexists. split; [reflexivity | discriminate].
  - intros s ms. eexists. eexists. reflexivity.
Defined.

(** C3, the claim as stated, on the scenario with [continueOnError] off:
    the run is aborted by the failure of the second record, "Top Waits",
    and the error that reaches the caller is the server's error as it was
    raised; the record's name is not in its message. *)
Lemma executeQueries_abort_error_lacks_record_name :
  exists s' events e,
    executeQueries scenarioEnv (scenarioConfig false) [record1; record2; record3]
                   (Some scenarioCallback) 0%Z = (s', events, inr e)
    /\ message e = "Timeout: Request failed to complete in 30000ms"%string
    /\ includes (message e) (name record2) = false.
Proof.
  do 3 eexists. split; [vm_compute; reflexivity|].
  split; vm_compute; reflexivity.
Qed.

(** C3 (amended): with [continueOnError] off, when the records before [q]
    all succeed and the [try] block of [q] ends in an error [e], the run
    throws and returns no result.  The loop stops there: its events are those
    of the records up to [q] and nothing more (no progress event and no call
    for a later record), and its local results hold one outcome per record up
    to [q], the last being the failure of [q] with the message of [e].  What
    the caller receives is [e] itself, unchanged: the error raised by the
    last call for [q], or the error of the progress callback. *)
Theorem executeQueries_aborts_on_failure {S : Type} (env : Env S) (config : Config)
        (progressCallback : option (ProgressCallback S))
        (before : list Query) (q : Query) (after : list Query)
        (s s1 s2 : S) (ev1 ev2 : list Event) (results1 : Results) (e : JsError) :
  continueOnError config = false ->
  let queries := before ++ q :: after in
  let N := List.length queries in
  forLoop env config progressCallback 0 N before emptyResults (fst (now env s))
  = (s1, ev1, results1, None) ->
  tryRecord env config progressCallback (List.length before) N q s1 = (s2, ev2, inr e) ->
  executeQueries env config queries progressCallback s = (fst (now env s2), ev1 ++ ev2, inr e)
  /\ (exists results',
         forLoop env config progressCallback 0 N queries emptyResults (fst (now env s))
         = (fst (now env s2), ev1 ++ ev2, results', Some e)
         /\ List.length (results_data results') = Datatypes.S (List.length before)
         /\ exists last, nth_error (results_data results') (List.length before) = Some last
                         /\ recordsFailure q e last)
  /\ progressOf (ev1 ++ ev2)
     = progressOf (List.concat
                     (map (fun p => notifyEvents progressCallback p)
                          (recordProgress 0 N (before ++ [q]))))
  /\ Forall (fun call => In (fst call) (map query (before ++ [q]))) (executionsOf (ev1 ++ ev2))
  /\ (ev2 = notifyEvents progressCallback (mkProgress (List.length before) N (name q))
      \/ exists ev0 ms, ev2 = ev0 ++ [Executed (query q) ms (inr e)]).
Proof.
  intros Hcont queries N Hbefore Htry.
  pose proof (forLoop_shape env config progressCallback N before 0 emptyResults (fst (now env s)))
    as Hshape.
  rewrite Hbefore in Hshape.
  destruct Hshape as (outcomes & segments & Hadd & _ & _ & -> & Hseg & Hlen).
  rewrite Hlen, firstn_all in Hseg.
  pose proof (tryRecord_shape env config progressCallback (List.length before) N q s1) as Hq.
  rewrite Htry in Hq. destruct Hq as [(rest & -> & Hprog & Hcalls & Horigin) _].
  assert (Hloop :
            forLoop env config progressCallback 0 N queries emptyResults (fst (now env s))
            = (fst (now env s2),
               List.concat segments
                 ++ notifyEvents progressCallback (mkProgress (List.length before) N (name q))
                 ++ rest,
               mkResults (results_data results1 ++ [failureOutcome q e (snd (now env s2))])
                         (successful results1) (Datatypes.S (failed results1))
                         (results_executionTime results1),
               Some e)).
  { unfold queries. rewrite forLoop_app, Hbefore. cbn [Nat.add].
    rewrite forLoop_pass, Htry. cbv zeta. rewrite Hcont. reflexivity. }
  split.
  { unfold executeQueries. destruct (now env s) as [s0 startTime]. cbn [fst] in *.
    fold queries. fold N. rewrite Hloop. reflexivity. }
  split.
  { eexists. split; [exact Hloop|].
    destruct Hadd as (Hdata & _). cbn [results_data emptyResults app] in *.
    rewrite Hdata, length_app. cbn [List.length]. rewrite Hlen.
    split; [lia|].
    exists (failureOutcome q e (snd (now env s2))).
    split; [|apply failureOutcome_records].
    rewrite nth_error_app2 by lia. rewrite Hlen, Nat.sub_diag. reflexivity. }
  pose proof (segmentsFor_snoc progressCallback N before q rest segments 0 Hseg Hprog Hcalls)
    as Hsegs.
  cbn [Nat.add] in Hsegs.
  assert (Hevents : List.concat segments
                      ++ notifyEvents progressCallback (mkProgress (List.length before) N (name q))
                      ++ rest
                    = List.concat
                        (segments ++ [notifyEvents progressCallback
                                        (mkProgress (List.length before) N (name q)) ++ rest])).
  { rewrite concat_app. cbn [List.concat]. rewrite app_nil_r. reflexivity. }
  split.
  { rewrite Hevents. exact (segmentsFor_progress_any _ _ _ _ _ Hsegs). }
  split.
  { rewrite Hevents. exact (segmentsFor_executions _ _ _ _ _ Hsegs). }
  destruct Horigin as [-> | Hlast].
  - left. rewrite app_nil_r. reflexivity.
  - right. destruct Hlast as (ev0 & ms & ->).
    exists (notifyEvents progressCallback (mkProgress (List.length before) N (name q)) ++ ev0), ms.
    rewrite app_assoc. reflexivity.
Qed.

Lemma executeQueries_aborts_on_failure_witness :
  exists s' events,
    executeQueries scenarioEnv (scenarioConfig false) [record1; record2; record3]
                   (Some scenarioCallback) 0%Z
    = (s', events, inr (mkError "Timeout: Request failed to complete in 30000ms"))
    /\ progressOf events
       = progressOf (List.concat
                       (map (fun p => notifyEvents (Some scenarioCallback) p)
                            (recordProgress 0 3 [record1; record2])))
    /\ Forall (fun call => In (fst call) (map query [record1; record2])) (executionsOf events).
Proof.
  pose (r1 := forLoop scenarioEnv (scenarioConfig false) (Some scenarioCallback) 0 3
                      [record1] emptyResults (fst (now scenarioEnv 0%Z))).
  pose (r2 := tryRecord scenarioEnv (scenarioConfig false) (Some scenarioCallback) 1 3
                        record2 (fst (fst (fst r1)))).
  assert (H1 : r1 = (fst (fst (fst r1)), snd (fst (fst r1)), snd (fst r1), None))
    by (vm_compute; reflexivity).
  assert (H2 : r2 = (fst (fst r2), snd (fst r2),
                     inr (mkError "Timeout: Request failed to complete in 30000ms")))
    by (vm_compute; reflexivity).
  destruct (executeQueries_aborts_on_failure scenarioEnv (scenarioConfig false)
              (Some scenarioCallback) [record1] record2 [record3] 0%Z
              (fst (fst (fst r1))) (fst (fst r2)) (snd (fst (fst r1))) (snd (fst r2))
              (snd (fst r1)) (mkError "Timeout: Request failed to complete in 30000ms")
              eq_refl H1 H2) as (Hrun & _ & Hprog & Hcalls & _).
  exists (fst (now scenarioEnv (fst (fst r2)))), (snd (fst (fst r1)) ++ snd (fst r2)).
  split; [exact Hrun|]. split; [exact Hprog | exact Hcalls].
Defined.

(** * Further properties of the parser *)

Import Catalogue.

Section StringFacts.

Lemma toLowerChar_idempotent (c : ascii) :
  toLowerChar (toLowerChar c) = toLowerChar c.
Proof.
  destruct c as [b0 b1 b2 b3 b4 b5 b6 b7].
  destruct b0, b1, b2, b3, b4, b5, b6, b7; reflexivity.
Qed.

Lemma toLowerCase_idempotent (s : string) :
  toLowerCase (toLowerCase s) = toLowerCase s.
Proof.
  induction s as [|c s IH]; cbn [toLowerCase]; [reflexivity|].
  rewrite toLowerChar_idempotent, IH. reflexivity.
Qed.

Lemma trimStart_idempotent (s : string) : trimStart (trimStart s) = trimStart s.
Proof.
  induction s as [|c s IH]; cbn [trimStart]; [reflexivity|].
  destruct (isWhiteSpace c) eqn:E; [exact IH|].
  cbn [trimStart]. rewrite E. reflexivity.
Qed.

Lemma trimEnd_cons (c : ascii) (s : string) :
  isWhiteSpace c = false -> trimEnd (String c s) = String c (trimEnd s).
Proof.
  intros E. cbn [trimEnd]. destruct (trimEnd s); [rewrite E|]; reflexivity.
Qed.

Lemma trimEnd_idempotent (s : string) : trimEnd (trimEnd s) = trimEnd s.
Proof.
  induction s as [|c s IH]; [reflexivity|].
  cbn [trimEnd]. destruct (trimEnd s) as [|d t] eqn:E.
  - destruct (isWhiteSpace c) eqn:Ec; [reflexivity|].
    cbn [trimEnd]. rewrite Ec. reflexivity.
  - cbn [trimEnd]. cbn [trimEnd] in IH. rewrite IH. reflexivity.
Qed.

Lemma trimStart_trimEnd (s : string) : trimStart (trimEnd s) = trimEnd (trimStart s).
Proof.
  induction s as [|c s IH]; [reflexivity|].
  destruct (isWhiteSpace c) eqn:Ec.
  - cbn [trimStart trimEnd]. rewrite Ec, <- IH.
    destruct (trimEnd s) as [|d t]; [reflexivity|].
    cbn [trimStart]. rewrite Ec. reflexivity.
  - rewrite (trimEnd_cons c s Ec). cbn [trimStart]. rewrite Ec.
    symmetry. apply trimEnd_cons, Ec.
Qed.

Lemma trim_idempotent (s : string) : trim (trim s) = trim s.
Proof.
  unfold trim.
  rewrite (trimStart_trimEnd (trimStart s)), trimStart_idempotent, trimEnd_idempotent.
  reflexivity.
Qed.

(** What [trimStart] leaves does not open with white space. *)
Lemma trimStart_head (s : string) :
  match trimStart s with
  | EmptyString => True
  | String c _ => isWhiteSpace c = false
  end.
Proof.
  induction s as [|c s IH]; cbn [trimStart]; [exact I|].
  destruct (isWhiteSpace c) eqn:E; [exact IH | exact E].
Qed.

Lemma startsWith_drop (s p : string) :
  startsWith s p = true -> s = (p ++ drop (String.length p) s)%string.
Proof.
  revert s. induction p as [|a p IH]; intros s H; cbn [startsWith] in H.
  - reflexivity.
  - destruct s as [|b s]; [discriminate H|].
    apply andb_true_iff in H as [Hab Hp]. apply Ascii.eqb_eq in Hab. subst b.
    cbn [String.length drop String.append]. rewrite <- (IH s Hp). reflexivity.
Qed.

Lemma join_cons (sep x : string) (l : list string) :
  l <> [] -> join sep (x :: l) = (x ++ sep ++ join sep l)%string.
Proof. destruct l; [contradiction | reflexivity]. Qed.

End StringFacts.

Section PackText.

Lemma join_splitDelimiter (s : string) (atLineStart : bool) (skip : nat) :
  join "------" (splitDelimiter atLineStart skip s) = drop skip s.
Proof.
  revert atLineStart skip. induction s as [|c s IH]; intros atLineStart skip.
  - destruct skip; reflexivity.
  - cbn [splitDelimiter]. destruct skip as [|k].
    + destruct (delimiterAt atLineStart (String c s)) eqn:Hd.
      * rewrite join_cons by apply splitDelimiter_nonempty.
        rewrite IH. cbn [drop String.append].
        unfold delimiterAt in Hd.
        apply andb_true_iff in Hd as [Hd _]. apply andb_true_iff in Hd as [_ Hd].
        apply startsWith_drop in Hd. exact (eq_sym Hd).
      * specialize (IH (isLineTerminator c) 0%nat). cbn [drop] in IH.
        pose proof (splitDelimiter_nonempty s (isLineTerminator c) 0) as Hne.
        destruct (splitDelimiter (isLineTerminator c) 0 s) as [|piece rest];
          [contradiction|].
        destruct rest as [|piece' rest].
        -- cbn [join] in *. rewrite IH. reflexivity.
        -- rewrite join_cons in * by discriminate.
           cbn [drop]. rewrite <- IH. reflexivity.
    + rewrite IH. reflexivity.
Qed.

Lemma parseBlocks_length (blocks : list string) (n : nat) :
  (List.length (parseBlocks blocks n) <= List.length blocks)%nat.
Proof.
  revert n. induction blocks as [|raw rest IH]; intros n; [apply le_n|].
  rewrite parseBlocks_cons. cbn [List.length].
  destruct (tooShort raw); [specialize (IH n); lia|].
  destruct (extractQueryInfo (trim raw) n) as [info|]; [|specialize (IH n); lia].
  destruct (isEmpty (info_query info)); [specialize (IH n); lia|].
  cbn [List.length]. specialize (IH (Datatypes.S n)). lia.
Qed.

End PackText.

(** X1: splitting a pack on its delimiter lines loses nothing of the text:
    the pieces joined again with the six hyphens are the text itself.  So
    the pieces are exactly what stands between the delimiter lines, and a
    parse yields at most one record per delimiter line. *)
Theorem splitQueryBlocks_join_round_trip :
  forall sqlContent version,
    join "------" (splitQueryBlocks sqlContent) = sqlContent
    /\ (Datatypes.S (List.length (parseGlenBerryQueries sqlContent version))
        <= List.length (splitQueryBlocks sqlContent))%nat.
Proof.
  intros sqlContent version. split.
  - unfold splitQueryBlocks. rewrite join_splitDelimiter. reflexivity.
  - unfold parseGlenBerryQueries.
    pose proof (parseBlocks_length (removelast (splitQueryBlocks sqlContent)) 1) as H.
    destruct (splitQueryBlocks_remainder sqlContent) as (blocks & remainder & E).
    rewrite E in *. rewrite removelast_last in *.
    rewrite length_app. cbn [List.length]. lia.
Qed.

Section RecordInvariants.

Lemma categorizeQuery_label (description block : string) :
  In (categorizeQuery description block) sectionLabels.
Proof.
  unfold categorizeQuery, sectionLabels.
  repeat match goal with
         | |- context [includes ?text ?keyword] =>
             destruct (includes text keyword); cbn [orb]; try (cbn [In]; tauto)
         end.
Qed.

Lemma estimateQueryDuration_tier (text : string) :
  In (estimateQueryDuration text) durationTiers.
Proof.
  unfold estimateQueryDuration, durationTiers.
  repeat match goal with
         | |- context [includes ?t ?keyword] =>
             destruct (includes t keyword); cbn [orb andb]; try (cbn [In]; tauto)
         end.
Qed.

Lemma extractQueryInfo_some (block : string) (n : nat) (info : QueryInfo) :
  extractQueryInfo block n = Some info ->
  info_query info = bodyOf block
  /\ (10 <= String.length (info_query info))%nat
  /\ In (info_section info) sectionLabels
  /\ (info_name info = info_description info
      \/ (info_name info = ("Query " ++ ofNat n)%string
          /\ info_section info = "General"%string
          /\ info_description info = "SQL Server diagnostic query"%string)).
Proof.
  unfold extractQueryInfo. fold (bodyOf block).
  destruct (matchQueryPattern block) as [captured|];
    destruct (isEmpty (bodyOf block) || (String.length (bodyOf block) <? 10)%nat) eqn:E;
    try discriminate;
    intros H; injection H as <-; cbn [info_query info_section info_name info_description];
    apply orb_false_iff in E as [_ E]; apply Nat.ltb_ge in E.
  - split; [reflexivity|]. split; [exact E|].
    split; [apply categorizeQuery_label | left; reflexivity].
  - split; [reflexivity|]. split; [exact E|].
    split; [unfold sectionLabels; cbn [In]; tauto|].
    right. repeat split.
Qed.

Lemma trimEnd_prefix (s : string) :
  exists w, s = (trimEnd s ++ w)%string.
Proof.
  induction s as [|c s [w IH]]; [exists EmptyString; reflexivity|].
  cbn [trimEnd]. destruct (trimEnd s) as [|d t] eqn:E.
  - destruct (isWhiteSpace c).
    + exists (String c s). reflexivity.
    + exists s. reflexivity.
  - exists w. cbn [String.append]. cbn [String.append] in IH. rewrite <- IH. reflexivity.
Qed.

Lemma startsWith_nil (s : string) : startsWith s EmptyString = true.
Proof. destruct s; reflexivity. Qed.

Lemma startsWith_append (s w p : string) :
  startsWith s p = true -> startsWith (s ++ w) p = true.
Proof.
  revert s. induction p as [|a p IH]; intros s H; [apply startsWith_nil|].
  destruct s as [|b s]; [discriminate H|].
  cbn [startsWith String.append] in *.
  apply andb_true_iff in H as [H1 H2]. rewrite H1, (IH s H2). reflexivity.
Qed.

Lemma hyphen_not_whiteSpace : isWhiteSpace "-" = false.
Proof. reflexivity. Qed.

Lemma startsWith_comment_trimEnd (s : string) :
  startsWith (trimEnd s) "--" = startsWith s "--".
Proof.
  destruct (startsWith s "--") eqn:Hs.
  - apply startsWith_drop in Hs. rewrite Hs. cbn [String.append].
    rewrite !trimEnd_cons by apply hyphen_not_whiteSpace.
    cbn [startsWith]. rewrite startsWith_nil. reflexivity.
  - destruct (startsWith (trimEnd s) "--") eqn:Ht; [|reflexivity].
    destruct (trimEnd_prefix s) as [w Hw].
    apply (startsWith_append _ w) in Ht. rewrite <- Hw in Ht. congruence.
Qed.

Lemma trimStart_append (s w : string) :
  trimStart s <> EmptyString -> trimStart (s ++ w) = (trimStart s ++ w)%string.
Proof.
  induction s as [|c s IH]; cbn [trimStart String.append]; intros H; [contradiction|].
  destruct (isWhiteSpace c); [apply IH, H | reflexivity].
Qed.

Lemma collectSqlLines_head (lines : list string) :
  match collectSqlLines false lines with
  | [] => True
  | line :: _ => isCommentOrBlank line = false
  end.
Proof.
  induction lines as [|line lines IH]; cbn [collectSqlLines]; [exact I|].
  fold (isCommentOrBlank line). cbn [negb andb].
  destruct (isCommentOrBlank line) eqn:E; [exact IH | exact E].
Qed.

(** The tail that [join] puts after the first line: nothing, or a line
    feed and the other lines. *)
Lemma join_nl_head (line : string) (rest : list string) :
  exists tail, join nl (line :: rest) = (line ++ tail)%string
               /\ (tail = EmptyString \/ exists t, tail = String (ascii_of_N 10) t).
Proof.
  destruct rest as [|line' rest].
  - exists EmptyString. split; [|left; reflexivity].
    cbn [join]. clear. induction line as [|c l IH]; cbn; [reflexivity | rewrite <- IH; reflexivity].
  - exists (nl ++ join nl (line' :: rest))%string. split; [reflexivity|].
    right. eexists. reflexivity.
Qed.

(** The body never opens with a comment marker. *)
Lemma bodyOf_not_comment (block : string) :
  startsWith (bodyOf block) "--" = false.
Proof.
  unfold bodyOf.
  pose proof (collectSqlLines_head (splitOn (ascii_of_N 10) block)) as Hhead.
  destruct (collectSqlLines false (splitOn (ascii_of_N 10) block)) as [|line rest];
    [reflexivity|].
  destruct (join_nl_head line rest) as (tail & -> & Htail).
  unfold isCommentOrBlank, trim in Hhead.
  apply orb_false_iff in Hhead as [Hc He].
  rewrite startsWith_comment_trimEnd in Hc.
  assert (Hne : trimStart line <> EmptyString).
  { intros E. rewrite E in He. discriminate He. }
  unfold trim. rewrite startsWith_comment_trimEnd, (trimStart_append line tail Hne).
  pose proof (trimStart_head line) as Hws.
  destruct (trimStart line) as [|a u]; [contradiction|].
  cbn [String.append startsWith] in *.
  destruct (Ascii.eqb "-" a) eqn:Ea; [|reflexivity].
  cbn [andb] in *.
  destruct u as [|b u].
  - destruct Htail as [-> | [t ->]]; reflexivity.
  - cbn [String.append startsWith] in *. rewrite startsWith_nil in *. exact Hc.
Qed.

End RecordInvariants.

(** X2: every record of a parse meets the invariants of the data model.
    Its statement text is there (at least 10 long), is trimmed, and does not
    open with a comment marker; its section is one of the nine labels; its
    estimate is one of the five tiers, hence positive; its name is its
    description, unless the block had no annotation, in which case the name
    is ["Query n"] for its own number, in section ["General"]. *)
Theorem parseGlenBerryQueries_record_invariants :
  forall sqlContent version q,
    In q (parseGlenBerryQueries sqlContent version) ->
    (10 <= String.length (query q))%nat
    /\ trim (query q) = query q
    /\ startsWith (query q) "--" = false
    /\ In (section q) sectionLabels
    /\ In (estimatedDuration q) durationTiers
    /\ (0 < estimatedDuration q)%Z
    /\ (name q = description q
        \/ exists n, queryNumber q = Some n
                     /\ name q = ("Query " ++ ofNat n)%string
                     /\ section q = "General"%string).
Proof.
  intros sqlContent version q Hq. unfold parseGlenBerryQueries in Hq.
  destruct (parseBlocks_origin _ _ _ Hq) as (i & raw & n & info & _ & _ & Hinfo & ->).
  destruct (extractQueryInfo_some _ _ _ Hinfo) as (Hbody & Hlen & Hsec & Hname).
  cbn [recordOf query section estimatedDuration name description queryNumber].
  split; [exact Hlen|].
  split; [rewrite Hbody; unfold bodyOf; apply trim_idempotent|].
  split; [rewrite Hbody; apply bodyOf_not_comment|].
  split; [exact Hsec|].
  pose proof (estimateQueryDuration_tier (info_query info)) as Htier.
  split; [exact Htier|].
  split.
  { unfold durationTiers in Htier. cbn [In] in Htier.
    destruct Htier as [<- | [<- | [<- | [<- | [<- | []]]]]]; lia. }
  destruct Hname as [Hn | (Hn & Hs & _)]; [left; exact Hn|].
  right. exists n. repeat split; assumption.
Qed.

Lemma parseGlenBerryQueries_record_invariants_witness :
  In exampleRecord (parseGlenBerryQueries examplePack 2019)
  /\ (10 <= String.length (query exampleRecord))%nat
  /\ trim (query exampleRecord) = query exampleRecord
  /\ startsWith (query exampleRecord) "--" = false
  /\ In (section exampleRecord) sectionLabels
  /\ In (estimatedDuration exampleRecord) durationTiers
  /\ (0 < estimatedDuration exampleRecord)%Z
  /\ (name exampleRecord = description exampleRecord
      \/ exists n, queryNumber exampleRecord = Some n
                   /\ name exampleRecord = ("Query " ++ ofNat n)%string
                   /\ section exampleRecord = "General"%string).
Proof.
  assert (H : In exampleRecord (parseGlenBerryQueries examplePack 2019)).
  { vm_compute. left. reflexivity. }
  split; [exact H|].
  exact (parseGlenBerryQueries_record_invariants examplePack 2019 exampleRecord H).
Defined.

Section RecordIdentity.

Lemma to_uint_not_nil (n : nat) : Nat.to_uint n <> Decimal.Nil.
Proof.
  rewrite <- (DecimalNat.Unsigned.of_to n) at 1.
  rewrite DecimalNat.Unsigned.to_of. apply DecimalFacts.unorm_nonnil.
Qed.

(** Two numbers that print alike are the same number. *)
Lemma ofNat_injective (n m : nat) : ofNat n = ofNat m -> n = m.
Proof.
  unfold ofNat. intros H.
  apply (f_equal NilZero.uint_of_string) in H.
  rewrite !NilZero.usu in H by apply to_uint_not_nil.
  injection H as H. apply DecimalNat.Unsigned.to_uint_inj, H.
Qed.

Lemma parseBlocks_id_list (blocks : list string) (n : nat) :
  map id (parseBlocks blocks n)
  = map (fun m => ("glen-berry-" ++ ofNat m)%string)
        (seq n (List.length (parseBlocks blocks n))).
Proof.
  revert n. induction blocks as [|raw rest IH]; intros n; [reflexivity|].
  rewrite parseBlocks_cons.
  destruct (tooShort raw); [apply IH|].
  destruct (extractQueryInfo (trim raw) n) as [info|]; [|apply IH].
  destruct (isEmpty (info_query info)); [apply IH|].
  cbn [map List.length seq id recordOf]. rewrite IH. reflexivity.
Qed.

Lemma NoDup_map_injective {A B : Type} (f : A -> B) (l : list A) :
  (forall x y, f x = f y -> x = y) -> NoDup l -> NoDup (map f l).
Proof.
  intros Hinj Hnd. induction Hnd as [|x l Hx Hnd IH]; cbn [map]; constructor; [|exact IH].
  intros Hin. apply in_map_iff in Hin as (y & Hy & Hin).
  apply Hinj in Hy. subst y. exact (Hx Hin).
Qed.

Lemma idOf_injective (n m : nat) :
  ("glen-berry-" ++ ofNat n)%string = ("glen-berry-" ++ ofNat m)%string -> n = m.
Proof.
  cbn [String.append]. intros H. injection H as H. exact (ofNat_injective n m H).
Qed.

Lemma collectSqlLines_all_passed (lines : list string) :
  Forall (fun line => isCommentOrBlank line = true) lines ->
  collectSqlLines false lines = [].
Proof.
  intros H. induction H as [|line lines Hline _ IH]; cbn [collectSqlLines]; [reflexivity|].
  fold (isCommentOrBlank line). rewrite Hline. cbn [negb andb]. exact IH.
Qed.

End RecordIdentity.

(** X3: within one parse no two records share an id, and none share a
    sequence number: the id is a key of the batch. *)
Theorem parseGlenBerryQueries_ids_unique :
  forall sqlContent version,
    NoDup (map id (parseGlenBerryQueries sqlContent version))
    /\ NoDup (map queryNumber (parseGlenBerryQueries sqlContent version)).
Proof.
  intros sqlContent version. unfold parseGlenBerryQueries. split.
  - rewrite parseBlocks_id_list.
    apply NoDup_map_injective; [exact idOf_injective | apply seq_NoDup].
  - rewrite parseBlocks_numbers.
    apply NoDup_map_injective; [intros x y H; injection H as H; exact H | apply seq_NoDup].
Qed.

(** X4: a block that, once trimmed, is made of comment lines and blank
    lines only holds no statement and is turned down, however long it is and
    whatever its annotation says; in a pack it yields no record and takes no
    sequence number. *)
Theorem extractQueryInfo_rejects_comment_only_blocks :
  forall raw queryNumber,
    Forall (fun line => isCommentOrBlank line = true) (splitOn (ascii_of_N 10) (trim raw)) ->
    extractQueryInfo (trim raw) queryNumber = None
    /\ forall rest, parseBlocks (raw :: rest) queryNumber = parseBlocks rest queryNumber.
Proof.
  intros raw queryNumber Hlines.
  assert (Hnone : extractQueryInfo (trim raw) queryNumber = None).
  { unfold extractQueryInfo.
    rewrite (collectSqlLines_all_passed _ Hlines).
    destruct (matchQueryPattern (trim raw)); reflexivity. }
  split; [exact Hnone|].
  intros rest. rewrite parseBlocks_cons, Hnone.
  destruct (tooShort raw); reflexivity.
Qed.

Lemma extractQueryInfo_rejects_comment_only_blocks_witness :
  extractQueryInfo
    (trim ("-- Be sure to apply the latest cumulative update before reading the results"
             ++ nl ++ "-- (nothing to run in this block)" ++ nl)%string) 2 = None
  /\ forall rest,
      parseBlocks (("-- Be sure to apply the latest cumulative update before reading the results"
                      ++ nl ++ "-- (nothing to run in this block)" ++ nl)%string :: rest) 2
      = parseBlocks rest 2.
Proof.
  apply (extractQueryInfo_rejects_comment_only_blocks
           ("-- Be sure to apply the latest cumulative update before reading the results"
              ++ nl ++ "-- (nothing to run in this block)" ++ nl)%string 2).
  vm_compute. repeat constructor.
Defined.

(** * Further properties of the section index *)

Section SectionOrder.



Lemma loadQueries_queries (loaded : list Query) (p : Parser) (version : Z) :
  queries (loadQueries loaded p version)
  = match loaded with
    | [] => getSampleQueries version
    | _ => loaded
    end.
Proof.
  unfold loadQueries, organizeSections. destruct loaded; reflexivity.
Qed.

Lemma partitions_nonempty (queries : list Query) (m : SectionMap) :
  partitions queries m -> queries <> [] -> m <> [].
Proof.
  intros (_ & _ & Hin & _) Hne ->.
  destruct queries as [|q queries]; [contradiction|].
  destruct (Hin q (or_introl eq_refl)) as (members & [] & _).
Qed.

End SectionOrder.


(** X6: [loadQueries] never leaves the parser without records: when
    nothing was loaded it takes the eight sample queries instead.  Its index
    is then not empty either, so a later [getSections] reports on what is
    loaded without loading anything again. *)
Theorem loadQueries_never_empty :
  forall (loaded : list Query) (p : Parser) (version : Z),
    let p1 := loadQueries loaded p version in
    queries p1 <> []
    /\ sections p1 <> []
    /\ (loaded <> [] -> queries p1 = loaded)
    /\ (loaded = [] -> queries p1 = getSampleQueries version
                       /\ List.length (queries p1) = 8%nat)
    /\ forall reload version',
        getSections reload p1 version' = (p1, map summarize (sections p1)).
Proof.
  intros loaded p version p1.
  assert (Hq : queries p1 <> []).
  { unfold p1. rewrite loadQueries_queries. destruct loaded; discriminate. }
  assert (Hs : sections p1 <> []).
  { unfold p1, loadQueries in *.
    match goal with
    | |- sections (organizeSections ?p0) <> [] =>
        exact (partitions_nonempty (queries p0) _ (organizeSections_partitions p0) Hq)
    end. }
  split; [exact Hq|]. split; [exact Hs|]. split.
  { intros Hne. unfold p1. rewrite loadQueries_queries. destruct loaded; [contradiction | reflexivity]. }
  split.
  { intros ->. unfold p1. rewrite loadQueries_queries. split; reflexivity. }
  intros reload version'. unfold getSections.
  destruct (sections p1) as [|entry m] eqn:E; [contradiction|].
  cbn [List.length Nat.eqb]. rewrite E. reflexivity.
Qed.

(** * Further properties of the version list *)

Section VersionOrder.

Local Open Scope Z_scope.

Lemma rankOf_le_1 (v : VersionKey) : (rankOf v <= 1)%nat.
Proof. destruct v; cbn; lia. Qed.

(** Inserting a string into an array that stands in order keeps the
    order: it goes behind everything of its year. *)
Lemma insertSorted_precedes_string (x : VersionKey) (l : list VersionKey) :
  rankOf x = 1%nat -> parses x -> Forall parses l ->
  StronglySorted precedes l ->
  StronglySorted precedes (insertSorted compareDescending x l).
Proof.
  intros Hrank Hx Hl Hs. induction Hs as [|y l Hs IH Hy]; cbn [insertSorted].
  - constructor; constructor.
  - inversion Hl as [|? ? Hpy Hpl]; subst.
    rewrite (compareDescending_years x y Hx Hpy).
    destruct (yearOf y - yearOf x <? 0) eqn:E.
    + apply Z.ltb_lt in E. constructor.
      * constructor; assumption.
      * constructor; [left; lia|].
        eapply Forall_impl; [|exact Hy].
        intros z [Hz | [Hz _]]; left; lia.
    + apply Z.ltb_ge in E. constructor.
      * apply IH. assumption.
      * eapply Permutation_Forall; [apply Permutation_sym, insertSorted_perm|].
        constructor; [|exact Hy].
        destruct (Z.eq_dec (yearOf y) (yearOf x)) as [Heq | Hne].
        -- right. split; [exact Heq|]. rewrite Hrank. apply rankOf_le_1.
        -- left. lia.
Qed.

Lemma fold_insert_strings (strs acc : list VersionKey) :
  Forall (fun v => rankOf v = 1%nat) strs -> Forall parses strs -> Forall parses acc ->
  StronglySorted precedes acc ->
  StronglySorted precedes
    (fold_left (fun acc x => insertSorted compareDescending x acc) strs acc).
Proof.
  revert acc. induction strs as [|x strs IH]; intros acc Hr Hp Hacc Hs; cbn [fold_left].
  - exact Hs.
  - inversion Hr; inversion Hp; subst. apply IH; trivial.
    + eapply Permutation_Forall; [apply Permutation_sym, insertSorted_perm|].
      constructor; assumption.
    + apply insertSorted_precedes_string; assumption.
Qed.

Lemma numbers_sorted_precede (l : list VersionKey) :
  Forall isNumber l -> StronglySorted newerOrSame l -> StronglySorted precedes l.
Proof.
  intros Hnum Hs. induction Hs as [|y l Hs IH Hy]; constructor.
  - inversion Hnum; subst. apply IH. assumption.
  - inversion Hnum as [|? ? Hy0 Hl0]; subst.
    rewrite Forall_forall in *. intros z Hz.
    specialize (Hy z Hz). specialize (Hl0 z Hz). unfold newerOrSame in Hy.
    unfold isNumber in *.
    destruct (Z.eq_dec (yearOf y) (yearOf z)); [right; split; [assumption | lia] | left; lia].
Qed.

(** The versions made from a list of names that holds the integer names
    first: the sorted array stands in [precedes] order. *)
Lemma sort_numbers_then_strings (nums strs : list VersionKey) :
  Forall isNumber nums -> Forall parses nums ->
  Forall (fun v => rankOf v = 1%nat) strs -> Forall parses strs ->
  StronglySorted precedes (sort compareDescending (nums ++ strs)).
Proof.
  intros Hn Hpn Hr Hps. unfold sort. rewrite fold_left_app.
  apply fold_insert_strings; trivial.
  - eapply Permutation_Forall; [apply Permutation_sym, (sort_from_perm _ nums [])|].
    exact Hpn.
  - apply numbers_sorted_precede.
    + eapply Permutation_Forall; [apply Permutation_sym, (sort_from_perm _ nums [])|].
      exact Hn.
    + apply sort_from_descending; [exact Hpn | constructor | constructor].
Qed.

Lemma Object_keys_split :
  Object_keys queryPackFiles = numericNames ++ suffixedNames.
Proof. vm_compute. reflexivity. Qed.

Lemma Forall_map_filter {A B : Type} (P : B -> Prop) (f : A -> B) (keep : A -> bool)
      (l : list A) :
  Forall P (map f l) -> Forall P (map f (filter keep l)).
Proof.
  intros H. rewrite Forall_forall in *. intros y Hy.
  apply in_map_iff in Hy as (x & <- & Hx). apply filter_In in Hx as [Hx _].
  apply H, in_map, Hx.
Qed.

Lemma sorted_versions_precede (keep : string -> bool) :
  StronglySorted precedes
    (sort compareDescending (map toVersion (filter keep (Object_keys queryPackFiles)))).
Proof.
  rewrite Object_keys_split, filter_app, map_app.
  apply sort_numbers_then_strings; apply Forall_map_filter;
    repeat (constructor; [vm_compute; first [reflexivity | discriminate]|]); constructor.
Qed.

Lemma availableVersions_precede (existsSync : string -> bool) :
  StronglySorted precedes (availableVersions existsSync).
Proof. apply sorted_versions_precede. Qed.

Lemma firstNotNewer_first (target : Z) (l : list VersionKey) :
  Forall parses l -> StronglySorted precedes l ->
  match firstNotNewer target l with
  | Some r => In r l /\ yearOf r <= target
              /\ forall v, In v l -> yearOf v <= target -> precedes r v
  | None => forall v, In v l -> target < yearOf v
  end.
Proof.
  intros Hp Hs. induction Hs as [|y l Hs IH Hy]; cbn [firstNotNewer].
  - intros v [].
  - inversion Hp as [|? ? Hpy Hpl]; subst. specialize (IH Hpl).
    assert (Hyear : parseIntVersion y = Some (yearOf y)).
    { unfold parses in Hpy. unfold yearOf. destruct (parseIntVersion y); [reflexivity | contradiction]. }
    rewrite Hyear. destruct (yearOf y <=? target) eqn:E.
    + apply Z.leb_le in E. split; [left; reflexivity|]. split; [exact E|].
      intros v [<- | Hv] _; [right; split; [reflexivity | apply le_n]|].
      rewrite Forall_forall in Hy. exact (Hy v Hv).
    + apply Z.leb_gt in E. destruct (firstNotNewer target l) as [r|].
      * destruct IH as (Hin & Hle & Hfirst). split; [right; exact Hin|]. split; [exact Hle|].
        intros v [<- | Hv] Hvt; [lia | exact (Hfirst v Hv Hvt)].
      * intros v [<- | Hv]; [lia | exact (IH v Hv)].
Qed.

End VersionOrder.

(** X7: between a plain year and a suffixed name of the same year
    (2016 and 2016SP2, 2008 and 2008R2 or 2008STD) the plain year wins: when
    the pack of the year [y] is there and no available pack lies between [y]
    and the target, [getClosestAvailableVersion] returns the Number [y].  In
    particular a year whose pack is there is its own closest version. *)
Theorem getClosestAvailableVersion_prefers_plain_year :
  forall (existsSync : string -> bool) (target y : Z),
    isAvailable existsSync (VNum y) ->
    (y <= target)%Z ->
    (forall v, isAvailable existsSync v -> (yearOf v <= target)%Z -> (yearOf v <= y)%Z) ->
    getClosestAvailableVersion existsSync target = Some (VNum y).
Proof.
  intros existsSync target y Hav Hle Hmax.
  pose proof (firstNotNewer_first target _ (availableVersions_parse existsSync)
                (availableVersions_precede existsSync)) as Hfirst.
  unfold getClosestAvailableVersion. cbv zeta.
  pose proof (proj2 (availableVersions_In existsSync (VNum y)) Hav) as Hin.
  destruct (firstNotNewer target (availableVersions existsSync)) as [r|].
  - destruct Hfirst as (Hr & Hrt & Hprec).
    specialize (Hprec (VNum y) Hin Hle).
    pose proof (Hmax r (proj1 (availableVersions_In existsSync r) Hr) Hrt) as Hry.
    f_equal. unfold precedes in Hprec. change (yearOf (VNum y)) with y in Hprec.
    destruct Hprec as [Hgt | [Heq Hrank]]; [lia|].
    destruct r as [n | | str]; cbn in Hrank; try lia.
    + cbn in Heq. congruence.
    + pose proof (availableVersions_parse existsSync) as Hp.
      rewrite Forall_forall in Hp. specialize (Hp VNaN Hr). exfalso. apply Hp. reflexivity.
  - specialize (Hfirst (VNum y) Hin). change (yearOf (VNum y)) with y in Hfirst. lia.
Qed.

Lemma getClosestAvailableVersion_prefers_plain_year_witness :
  getClosestAvailableVersion (fun _ => true) 2016 = Some (VNum 2016).
Proof.
  apply (getClosestAvailableVersion_prefers_plain_year (fun _ => true) 2016 2016).
  - exists "2016"%string, "sql-server-2016-queries.sql"%string.
    split; [unfold queryPackFiles; cbn [In]; tauto | split; reflexivity].
  - lia.
  - intros v _ H. exact H.
Defined.

Section LocalVersions.

Lemma collectLocalVersions_answered (pathExists : string -> option bool)
      (entries : list (string * string)) (acc : list VersionKey) :
  Forall (fun entry => pathExists (snd entry) <> None) entries ->
  collectLocalVersions pathExists entries acc
  = Some (acc ++ map (fun entry => toVersion (fst entry))
                     (filter (fun entry => answered pathExists (snd entry)) entries)).
Proof.
  intros H. revert acc. induction H as [|[version filename] entries Hhead _ IH]; intros acc.
  - cbn. rewrite app_nil_r. reflexivity.
  - cbn [collectLocalVersions filter snd fst]. unfold answered at 1. cbn [snd] in Hhead.
    destruct (pathExists filename) as [[|]|]; [| |contradiction]; rewrite IH.
    + cbn [map fst]. rewrite <- app_assoc. reflexivity.
    + reflexivity.
Qed.

Lemma collectLocalVersions_rejected (pathExists : string -> option bool)
      (entries : list (string * string)) (acc : list VersionKey) :
  Exists (fun entry => pathExists (snd entry) = None) entries ->
  collectLocalVersions pathExists entries acc = None.
Proof.
  intros H. revert acc. induction entries as [|[version filename] entries IH]; intros acc.
  - inversion H.
  - cbn [collectLocalVersions].
    destruct (pathExists filename) as [present|] eqn:E; [|reflexivity].
    apply IH. inversion H as [? ? Hhead | ? ? Htail]; subst; [|exact Htail].
    cbn [snd] in Hhead. congruence.
Qed.

Lemma entries_versions {V : Type} (o : JsObject V) (keep : V -> bool) (names : list string) :
  map (fun entry => toVersion (fst entry))
      (filter (fun entry => keep (snd entry))
              (flat_map (fun k => match getProperty o k with
                                  | Some v => [(k, v)]
                                  | None => []
                                  end) names))
  = map toVersion
        (filter (fun key => match getProperty o key with
                            | Some v => keep v
                            | None => false
                            end) names).
Proof.
  induction names as [|k names IH]; [reflexivity|].
  cbn [flat_map filter]. destruct (getProperty o k) as [v|]; cbn [app filter snd]; [|exact IH].
  destruct (keep v); cbn [map fst]; rewrite IH; reflexivity.
Qed.

Lemma table_entries_In (key filename : string) :
  In (key, filename) queryPackFiles <-> In (key, filename) (Object_entries queryPackFiles).
Proof.
  assert (E : Object_entries queryPackFiles
              = [ ("2005", "sql-server-2005-queries.sql");
                  ("2008", "sql-server-2008-queries.sql");
                  ("2012", "sql-server-2012-queries.sql");
                  ("2014", "sql-server-2014-queries.sql");
                  ("2016", "sql-server-2016-queries.sql");
                  ("2017", "sql-server-2017-queries.sql");
                  ("2019", "sql-server-2019-queries.sql");
                  ("2022", "sql-server-2022-queries.sql");
                  ("2025", "sql-server-2025-queries.sql");
                  ("2016SP2", "sql-server-2016SP2-queries.sql");
                  ("2008R2", "sql-server-2008R2-queries.sql");
                  ("2008STD", "sql-server-2008STD-queries.sql") ]%string)
    by (vm_compute; reflexivity).
  rewrite E. unfold queryPackFiles. cbn [In]. tauto.
Qed.

End LocalVersions.

(** X8: [getAvailableVersions] lists exactly the versions whose pack file
    is there, newest year first and, within a year, the plain year before
    the suffixed names; it is the same array that
    [getClosestAvailableVersion] walks through.  If a look at the file
    system fails, the answer is the single version 2019, whether or not that
    pack is there. *)
Theorem getAvailableVersions_lists_local_packs :
  forall (pathExists : string -> option bool),
    ((forall key filename, In (key, filename) queryPackFiles -> pathExists filename <> None) ->
     getAvailableVersions pathExists = availableVersions (answered pathExists)
     /\ StronglySorted precedes (getAvailableVersions pathExists)
     /\ forall v, In v (getAvailableVersions pathExists)
                  <-> isAvailable (answered pathExists) v)
    /\ ((exists key filename, In (key, filename) queryPackFiles
                              /\ pathExists filename = None) ->
        getAvailableVersions pathExists = [VNum 2019]).
Proof.
  intros pathExists. split.
  - intros Hok.
    assert (Heq : getAvailableVersions pathExists = availableVersions (answered pathExists)).
    { unfold getAvailableVersions, availableVersions.
      rewrite collectLocalVersions_answered.
      - cbn [app]. unfold Object_entries. rewrite entries_versions. reflexivity.
      - apply Forall_forall. intros [key filename] Hin.
        apply table_entries_In in Hin. exact (Hok key filename Hin). }
    split; [exact Heq|]. rewrite Heq.
    split; [apply availableVersions_precede|].
    intros v. apply availableVersions_In.
  - intros (key & filename & Hin & Hrej).
    unfold getAvailableVersions. rewrite collectLocalVersions_rejected; [reflexivity|].
    apply Exists_exists. exists (key, filename).
    split; [apply table_entries_In, Hin | exact Hrej].
Qed.

(** * Further properties of the execution engine *)

Section EngineAttempts.

Context {S : Type} (env : Env S) (config : Config).

Lemma timeoutsOf_app (ev1 ev2 : list Event) :
  timeoutsOf (ev1 ++ ev2) = timeoutsOf ev1 ++ timeoutsOf ev2.
Proof.
  induction ev1 as [|[text ms answer | ms | p] ev1 IH]; cbn [app timeoutsOf];
    rewrite ?IH; reflexivity.
Qed.

(** The attempts of the retry loop: a run of refused calls, then the call
    whose answer is the answer of the loop. *)
Lemma retryLoop_attempts (text : string) (ms maxR delay : Z) (n : nat) :
  forall retries s,
    Z.to_nat (maxR - retries) = n -> (retries <= maxR)%Z ->
    match retryLoop env (Datatypes.S n) text ms maxR delay retries s with
    | (_, ev, r) =>
        exists errs,
          executionsOf ev = map (failedCall text) errs ++ [(text, r)]
          /\ timeoutsOf ev = repeat ms (Datatypes.S (List.length errs))
          /\ sleepsOf ev = repeat delay (if (delay >? 0)%Z then List.length errs else 0%nat)
          /\ (List.length errs <= n)%nat
          /\ match r with
             | inr _ => List.length errs = n
             | inl _ => True
             end
    end.
Proof.
  induction n as [|n IH]; intros retries s Hn Hle;
    rewrite retryLoop_pass by exact Hle;
    destruct (connectionExecute env s text ms) as [s1 [result | e]].
  - exists []. cbn. destruct (delay >? 0)%Z; repeat split; lia.
  - assert (Hlast : (retries + 1 >? maxR)%Z = true) by (apply Z.gtb_lt; lia).
    rewrite Hlast. exists []. cbn. destruct (delay >? 0)%Z; repeat split; lia.
  - exists []. cbn. destruct (delay >? 0)%Z; repeat split; lia.
  - assert (Hlast : (retries + 1 >? maxR)%Z = false)
      by (rewrite Z.gtb_ltb; apply Z.ltb_ge; lia).
    rewrite Hlast.
    destruct (pause_run env delay s1) as [s2 ->].
    specialize (IH (retries + 1)%Z s2 ltac:(lia) ltac:(lia)).
    destruct (retryLoop env (Datatypes.S n) text ms maxR delay (retries + 1) s2) as [[s3 ev3] r].
    destruct IH as (errs & Hcalls & Htimes & Hsleeps & Hlen & Hr).
    exists (e :: errs).
    destruct (delay >? 0)%Z; cbn [executionsOf timeoutsOf sleepsOf app map List.length repeat];
      rewrite Hcalls, Htimes, Hsleeps;
      (split; [reflexivity|]; split; [reflexivity|]; split; [reflexivity|];
       split; [lia|]; destruct r; [exact I | lia]).
Qed.

Lemma executeQuery_never_runs (q : Query) (s : S) :
  (orDefault (maxRetries config) 3 < 0)%Z ->
  executeQuery env config q s = (s, [], inl ResultOther).
Proof.
  intros Hneg. unfold executeQuery. apply retryLoop_exit. exact Hneg.
Qed.

Lemma tryRecord_outcome (progressCallback : option (ProgressCallback S))
      (i n : nat) (q : Query) (s s' : S) (ev : list Event) (outcome : Outcome) :
  tryRecord env config progressCallback i n q s = (s', ev, inl outcome) ->
  success outcome = true /\ error outcome = None
  /\ rowCount outcome = List.length (data outcome)
  /\ outcome_section outcome = section q
  /\ outcome_description outcome = description q.
Proof.
  rewrite tryRecord_run.
  destruct (notify progressCallback (mkProgress i n (name q)) s) as [[s1 ev1] [u | e]];
    [|discriminate].
  destruct (now env s1) as [s2 t0].
  destruct (executeQuery env config q s2) as [[s3 ev3] [queryResult | e]]; [|discriminate].
  destruct (now env s3) as [s4 t1]. destruct (now env s4) as [s5 t2].
  intros H. injection H as _ _ <-. repeat split.
Qed.

Lemma forLoop_wellFormed (progressCallback : option (ProgressCallback S)) (n : nat)
      (rest : list Query) (i : nat) (results : Results) (s : S) :
  Forall wellFormed (results_data results) ->
  match forLoop env config progressCallback i n rest results s with
  | (_, _, results', _) => Forall wellFormed (results_data results')
  end.
Proof.
  revert i results s. induction rest as [|q rest IH]; intros i results s Hwf.
  - exact Hwf.
  - rewrite forLoop_pass.
    destruct (tryRecord env config progressCallback i n q s) as [[s1 ev1] [outcome | e]] eqn:Htry.
    + destruct (tryRecord_outcome _ _ _ _ _ _ _ _ Htry) as (H1 & H2 & H3 & _).
      match goal with
      | |- context [forLoop env config progressCallback (Datatypes.S i) n rest ?r s1] =>
          specialize (IH (Datatypes.S i) r s1);
          destruct (forLoop env config progressCallback (Datatypes.S i) n rest r s1)
            as [[[s2 ev2] results2] thrown]
      end.
      apply IH. cbn [results_data]. apply Forall_app. split; [exact Hwf|].
      constructor; [|constructor]. split; [exact H3 | left; split; assumption].
    + assert (Hfail : Forall wellFormed
                        (results_data results ++ [failureOutcome q e (snd (now env s1))])).
      { apply Forall_app. split; [exact Hwf|]. constructor; [|constructor].
        split; [reflexivity|]. right. repeat split. discriminate. }
      cbv zeta. destruct (continueOnError config); [|exact Hfail].
      match goal with
      | |- context [forLoop env config progressCallback (Datatypes.S i) n rest ?r ?s'] =>
          specialize (IH (Datatypes.S i) r s');
          destruct (forLoop env config progressCallback (Datatypes.S i) n rest r s')
            as [[[s2 ev2] results2] thrown]
      end.
      apply IH. exact Hfail.
Qed.

End EngineAttempts.

(** X9: the attempts of [executeQuery] on one record.  Every attempt but
    the last was refused, and the answer of the last attempt, rows or error,
    is the answer of [executeQuery]: it stops at the first success and never
    calls again after it.  An error comes out only after [maxRetries + 1]
    refused attempts ([maxRetries] as read by the engine).  Every attempt
    carries the same text and the same timeout, and there is one pause, of
    [retryDelay], between two attempts and none after the last. *)
Theorem executeQuery_attempts {S : Type} (env : Env S) (config : Config) (q : Query) (s : S) :
  (0 <= orDefault (maxRetries config) 3)%Z ->
  let budget := Z.to_nat (orDefault (maxRetries config) 3) in
  let delay := orDefault (retryDelay config) 1000 in
  match executeQuery env config q s with
  | (_, events, answer) =>
      exists refused,
        executionsOf events = map (failedCall (query q)) refused ++ [(query q, answer)]
        /\ timeoutsOf events
           = repeat (orDefault (timeout config) 30000) (Datatypes.S (List.length refused))
        /\ sleepsOf events
           = repeat delay (if (delay >? 0)%Z then List.length refused else 0%nat)
        /\ (List.length refused <= budget)%nat
        /\ match answer with
           | inr _ => List.length refused = budget
           | inl _ => True
           end
  end.
Proof.
  intros Hm budget delay. unfold executeQuery.
  replace (Z.to_nat (orDefault (maxRetries config) 3 + 1)) with (Datatypes.S budget)
    by (unfold budget; lia).
  apply retryLoop_attempts; [unfold budget; f_equal; lia | exact Hm].
Qed.

Lemma executeQuery_attempts_witness :
  match executeQuery scenarioEnv (scenarioConfig true) record2 0%Z with
  | (_, events, answer) =>
      exists refused,
        executionsOf events = map (failedCall (query record2)) refused ++ [(query record2, answer)]
        /\ timeoutsOf events = repeat 30000%Z (Datatypes.S (List.length refused))
        /\ sleepsOf events = repeat 1000%Z (List.length refused)
        /\ (List.length refused <= 1)%nat
        /\ match answer with
           | inr _ => List.length refused = 1%nat
           | inl _ => True
           end
  end.
Proof.
  apply (executeQuery_attempts scenarioEnv (scenarioConfig true) record2 0%Z).
  cbn. lia.
Defined.

(** X10: a run that returns accounts for every record exactly once.  There
    is one outcome per record, in the order of the records and under their
    ids and names; [successful] and [failed] count the outcomes of each kind
    and add up to the number of records; each outcome is a success without
    an error message, or a failure with one, no rows and no elapsed time. *)
Theorem executeQueries_accounts_for_every_record {S : Type} (env : Env S) (config : Config)
        (progressCallback : option (ProgressCallback S)) (queries : list Query)
        (s s' : S) (events : list Event) (results : Results) :
  executeQueries env config queries progressCallback s = (s', events, inl results) ->
  List.length (results_data results) = List.length queries
  /\ map outcome_id (results_data results) = map id queries
  /\ map outcome_name (results_data results) = map name queries
  /\ successful results = List.length (filter success (results_data results))
  /\ failed results = List.length (filter (fun o => negb (success o)) (results_data results))
  /\ (successful results + failed results = List.length queries)%nat
  /\ Forall wellFormed (results_data results).
Proof.
  intros Hrun. unfold executeQueries in Hrun.
  destruct (now env s) as [s0 startTime].
  pose proof (forLoop_shape env config progressCallback (List.length queries) queries 0
                emptyResults s0) as Hshape.
  pose proof (forLoop_wellFormed env config progressCallback (List.length queries) queries 0
                emptyResults s0 (Forall_nil _)) as Hwf.
  destruct (forLoop env config progressCallback 0 (List.length queries) queries emptyResults s0)
    as [[[s1 ev1] results1] [e|]]; [discriminate Hrun|].
  destruct Hshape as (outcomes & segments & (Hd & Hs & Hf & _) & Hids & Hnames & _ & _ & Hlen).
  cbn [results_data successful failed emptyResults app Nat.add] in Hd, Hs, Hf.
  rewrite Hlen, firstn_all in Hids, Hnames.
  destruct (bind (notify progressCallback _) _ s1) as [[s2 ev2] [r | e]] eqn:Hend;
    [|discriminate Hrun].
  injection Hrun as _ _ <-.
  unfold bind, clock, ret in Hend.
  destruct (notify progressCallback _ s1) as [[sa eva] [u | e]]; [|discriminate Hend].
  destruct (now env sa) as [sb endTime].
  injection Hend as _ _ <-. cbn [results_data successful failed].
  rewrite Hd in *.
  assert (Hcount : forall l : list Outcome,
             (List.length (filter success l) + List.length (filter (fun o => negb (success o)) l)
              = List.length l)%nat).
  { induction l as [|o l IH]; [reflexivity|].
    cbn [filter]. destruct (success o); cbn [negb List.length]; lia. }
  repeat split; try assumption.
  rewrite Hs, Hf, Hcount. exact Hlen.
Qed.

Lemma executeQueries_accounts_for_every_record_witness :
  exists results,
    snd (executeQueries scenarioEnv (scenarioConfig true) [record1; record2; record3]
                        None 0%Z) = inl results
    /\ map outcome_id (results_data results) = map id [record1; record2; record3]
    /\ (successful results + failed results = 3)%nat
    /\ Forall wellFormed (results_data results).
Proof.
  pose (run := executeQueries scenarioEnv (scenarioConfig true)
                 [record1; record2; record3] None 0%Z).
  assert (Hrun : exists results, run = (fst (fst run), snd (fst run), inl results)).
  { vm_compute. eexists. reflexivity. }
  destruct Hrun as [results Hrun].
  destruct (executeQueries_accounts_for_every_record scenarioEnv (scenarioConfig true) None
              [record1; record2; record3] 0%Z (fst (fst run)) (snd (fst run)) results Hrun)
    as (_ & Hids & _ & _ & _ & Hsum & Hwf).
  exists results. fold run. rewrite Hrun.
  split; [reflexivity|]. split; [exact Hids|]. split; [exact Hsum | exact Hwf].
Defined.

(** X11: with [continueOnError] on, no failure of a record ends the run.
    When the progress callback does not throw (or there is none) the run
    returns a result, whatever the connection does; and an error can leave
    the run only from the last call of the callback, after every record has
    had its turn. *)
Theorem executeQueries_continueOnError_never_aborts {S : Type} (env : Env S) (config : Config)
        (progressCallback : option (ProgressCallback S)) (queries : list Query) (s : S) :
  continueOnError config = true ->
  (quiet progressCallback ->
   exists s' events results,
     executeQueries env config queries progressCallback s = (s', events, inl results))
  /\ (forall s' events e,
         executeQueries env config queries progressCallback s = (s', events, inr e) ->
         exists segments,
           events = List.concat segments
                      ++ notifyEvents progressCallback
                           (mkProgress (List.length queries) (List.length queries) "Complete")
           /\ segmentsFor progressCallback 0 (List.length queries) queries segments
           /\ progressCallback <> None).
Proof.
  intros Hcont. unfold executeQueries.
  destruct (now env s) as [s0 startTime].
  pose proof (forLoop_shape env config progressCallback (List.length queries) queries 0
                emptyResults s0) as Hshape.
  destruct (forLoop env config progressCallback 0 (List.length queries) queries emptyResults s0)
    as [[[s1 ev1] results1] [e|]].
  { destruct Hshape as (? & ? & _ & _ & _ & _ & _ & Hc & _). congruence. }
  destruct Hshape as (outcomes & segments & _ & _ & _ & -> & Hseg & Hlen).
  rewrite Hlen, firstn_all in Hseg.
  split.
  - intros Hquiet. unfold bind, clock, ret.
    destruct (notify_quiet progressCallback
                (mkProgress (List.length queries) (List.length queries) "Complete") s1 Hquiet)
      as [sa ->].
    destruct (now env sa) as [sb endTime]. do 3 eexists. reflexivity.
  - intros s' events e Hrun. unfold bind, clock, ret in Hrun.
    pose proof (notify_events progressCallback
                  (mkProgress (List.length queries) (List.length queries) "Complete") s1) as Hev.
    destruct (notify progressCallback _ s1) as [[sa eva] [u | e']] eqn:Hn.
    + destruct (now env sa) as [sb endTime]. discriminate Hrun.
    + cbn [fst snd] in Hev. injection Hrun as _ <- _. subst eva.
      exists segments. split; [reflexivity|]. split; [exact Hseg|].
      intros ->. discriminate Hn.
Qed.

Lemma executeQueries_continueOnError_never_aborts_witness :
  exists s' events results,
    executeQueries refusingEnv (scenarioConfig true) [record1; record2; record3]
                   (Some scenarioCallback) 0%Z = (s', events, inl results).
Proof.
  apply (executeQueries_continueOnError_never_aborts refusingEnv (scenarioConfig true)
           (Some scenarioCallback) [record1; record2; record3] 0%Z eq_refl).
  intros callback Hc s p. injection Hc as <-. reflexivity.
Defined.

Section EngineEdges.

Context {S : Type} (env : Env S) (config : Config).

(** The loop over records that are never run: each one is a success with
    no rows. *)
Lemma forLoop_never_runs (progressCallback : option (ProgressCallback S)) (n : nat)
      (rest : list Query) (i : nat) (results : Results) (s : S) :
  (orDefault (maxRetries config) 3 < 0)%Z ->
  quiet progressCallback ->
  match forLoop env config progressCallback i n rest results s with
  | (_, ev, results', thrown) =>
      thrown = None
      /\ executionsOf ev = []
      /\ successful results' = (successful results + List.length rest)%nat
      /\ failed results' = failed results
      /\ exists outcomes,
          results_data results' = results_data results ++ outcomes
          /\ List.length outcomes = List.length rest
          /\ Forall (fun o => success o = true /\ rowCount o = 0%nat /\ data o = []) outcomes
  end.
Proof.
  intros Hneg Hquiet. revert i results s.
  induction rest as [|q rest IH]; intros i results s.
  - cbn [forLoop List.length]. repeat split; try lia.
    exists []. rewrite app_nil_r. repeat split. constructor.
  - rewrite forLoop_pass, tryRecord_run.
    destruct (notify_quiet progressCallback (mkProgress i n (name q)) s Hquiet) as [s1 ->].
    destruct (now env s1) as [s2 t0].
    rewrite (executeQuery_never_runs env config q s2 Hneg).
    destruct (now env s2) as [s3 t1]. destruct (now env s3) as [s4 t2].
    match goal with
    | |- context [forLoop env config progressCallback (Datatypes.S i) n rest ?r s4] =>
        specialize (IH (Datatypes.S i) r s4);
        destruct (forLoop env config progressCallback (Datatypes.S i) n rest r s4)
          as [[[s5 ev5] results5] thrown]
    end.
    destruct IH as (Ht & Hcalls & Hs & Hf & outcomes & Hd & Hlen & Hall).
    cbn [results_data successful failed rowsOf List.length] in *.
    split; [exact Ht|]. split.
    { rewrite !executionsOf_app, Hcalls.
      destruct progressCallback; reflexivity. }
    split; [lia|]. split; [exact Hf|].
    eexists (_ :: outcomes). split; [rewrite Hd, <- app_assoc; reflexivity|].
    split; [cbn [List.length]; lia|].
    constructor; [repeat split | exact Hall].
Qed.

Lemma testConnection_run (s : S) :
  testConnection env s =
  match connectionExecute env s "SELECT 1 as test" 5000 with
  | (s1, answer) =>
      (s1, [Executed "SELECT 1 as test" 5000 answer],
       inl match answer with
           | inl (ResultArray rows) => (0 <? List.length rows)%nat
           | _ => false
           end)
  end.
Proof.
  unfold testConnection, tryCatch, bind, callExecute, ret.
  destruct (connectionExecute env s "SELECT 1 as test" 5000) as [s1 [[rows | rows |] | e]];
    reflexivity.
Qed.

End EngineEdges.

(** X12: a [maxRetries] below zero switches the engine off without a
    word.  The test of the retry loop fails at once, so the connection is
    never asked; [executeQuery] falls through to [undefined], and every
    record is counted as a success with no rows. *)
Theorem executeQueries_negative_maxRetries_runs_nothing {S : Type} (env : Env S)
        (config : Config) (progressCallback : option (ProgressCallback S))
        (queries : list Query) (s : S) :
  (orDefault (maxRetries config) 3 < 0)%Z ->
  quiet progressCallback ->
  exists s' events results,
    executeQueries env config queries progressCallback s = (s', events, inl results)
    /\ executionsOf events = []
    /\ successful results = List.length queries
    /\ failed results = 0%nat
    /\ List.length (results_data results) = List.length queries
    /\ Forall (fun o => success o = true /\ rowCount o = 0%nat /\ data o = [])
              (results_data results).
Proof.
  intros Hneg Hquiet. unfold executeQueries.
  destruct (now env s) as [s0 startTime].
  pose proof (forLoop_never_runs env config progressCallback (List.length queries) queries 0
                emptyResults s0 Hneg Hquiet) as Hloop.
  destruct (forLoop env config progressCallback 0 (List.length queries) queries emptyResults s0)
    as [[[s1 ev1] results1] thrown].
  destruct Hloop as (-> & Hcalls & Hs & Hf & outcomes & Hd & Hlen & Hall).
  unfold bind, clock, ret.
  destruct (notify_quiet progressCallback
              (mkProgress (List.length queries) (List.length queries) "Complete") s1 Hquiet)
    as [sa ->].
  destruct (now env sa) as [sb endTime].
  do 3 eexists. split; [reflexivity|].
  cbn [results_data successful failed emptyResults app Nat.add] in *.
  split.
  { rewrite !executionsOf_app, Hcalls. destruct progressCallback; reflexivity. }
  split; [exact Hs|]. split; [exact Hf|].
  rewrite Hd. split; [exact Hlen | exact Hall].
Qed.

Lemma executeQueries_negative_maxRetries_runs_nothing_witness :
  exists s' events results,
    executeQueries refusingEnv (mkConfig None (Some (-1)%Z) None false)
                   [record1; record2; record3] None 0%Z = (s', events, inl results)
    /\ executionsOf events = []
    /\ successful results = 3%nat
    /\ failed results = 0%nat
    /\ List.length (results_data results) = 3%nat
    /\ Forall (fun o => success o = true /\ rowCount o = 0%nat /\ data o = [])
              (results_data results).
Proof.
  apply (executeQueries_negative_maxRetries_runs_nothing refusingEnv
           (mkConfig None (Some (-1)%Z) None false) None [record1; record2; record3] 0%Z).
  - cbn. lia.
  - intros callback Hc. discriminate Hc.
Defined.

(** X13: [testConnection] never throws and never retries: it asks the
    connection once, for ["SELECT 1 as test"] with a timeout of 5000 ms
    whatever the configuration says, and answers [true] exactly when rows
    came back and there is at least one; a refusal is answered with
    [false]. *)
Theorem testConnection_asks_once {S : Type} (env : Env S) (s : S) :
  exists s' answer connected,
    testConnection env s
    = (s', [Executed "SELECT 1 as test" 5000 answer], inl connected)
    /\ connectionExecute env s "SELECT 1 as test" 5000 = (s', answer)
    /\ (connected = true
        <-> exists rows, answer = inl (ResultArray rows) /\ rows <> []).
Proof.
  rewrite testConnection_run.
  destruct (connectionExecute env s "SELECT 1 as test" 5000) as [s1 answer].
  do 3 eexists. split; [reflexivity|]. split; [reflexivity|].
  destruct answer as [[rows | rows |] | e].
  - destruct rows as [|row rows]; cbn.
    + split; [discriminate | intros (r & H & Hne); injection H as <-; contradiction].
    + split; [intros _; eexists; split; [reflexivity | discriminate] | reflexivity].
  - split; [discriminate | intros (r & H & _); discriminate H].
  - split; [discriminate | intros (r & H & _); discriminate H].
  - split; [discriminate | intros (r & H & _); discriminate H].
Qed.

(** * The engine in front of the connection manager *)

Section ManagedConnection.

Context {P C : Type} (poolQuery : ConnectionManager.PoolQuery P)
        (timer : C -> Z -> C) (read : C -> C * Z).

Lemma manager_refuses_when_disconnected (m : ConnectionManager.Manager P)
      (text : string) (timeoutMs : Z) :
  ConnectionManager.isConnected m = false ->
  ConnectionManager.executeQuery poolQuery m text timeoutMs = (m, inr notConnected).
Proof.
  intros H. unfold ConnectionManager.executeQuery. rewrite H. reflexivity.
Qed.

Lemma retryLoop_disconnected (text : string) (ms maxR delay : Z) (n : nat) :
  forall retries (w : ConnectionManager.Manager P * C),
    ConnectionManager.isConnected (fst w) = false ->
    Z.to_nat (maxR - retries) = n -> (retries <= maxR)%Z ->
    match retryLoop (ConnectionManager.managedEnv poolQuery timer read)
                    (Datatypes.S n) text ms maxR delay retries w with
    | (w', ev, r) =>
        fst w' = fst w
        /\ executionsOf ev = repeat (text, inr notConnected) (Datatypes.S n)
        /\ sleepsOf ev = repeat delay (if (delay >? 0)%Z then n else 0%nat)
        /\ r = inr notConnected
    end.
Proof.
  induction n as [|n IH]; intros retries [m c] Hm Hn Hle;
    rewrite retryLoop_pass by exact Hle;
    cbn [connectionExecute ConnectionManager.managedEnv fst snd] in *;
    rewrite (manager_refuses_when_disconnected m text ms Hm).
  - assert (Hlast : (retries + 1 >? maxR)%Z = true) by (apply Z.gtb_lt; lia).
    rewrite Hlast. cbn. repeat split. destruct (delay >? 0)%Z; reflexivity.
  - assert (Hlast : (retries + 1 >? maxR)%Z = false)
      by (rewrite Z.gtb_ltb; apply Z.ltb_ge; lia).
    rewrite Hlast. unfold pause, callSleep, ret.
    destruct (delay >? 0)%Z eqn:Hd; cbn [sleep ConnectionManager.managedEnv fst snd].
    + specialize (IH (retries + 1)%Z (m, timer c delay) Hm ltac:(lia) ltac:(lia)).
      destruct (retryLoop _ (Datatypes.S n) text ms maxR delay (retries + 1) (m, timer c delay))
        as [[w3 ev3] r].
      destruct IH as (Hw & Hcalls & Hsleeps & ->).
      cbn [executionsOf sleepsOf app fst]. rewrite Hcalls, Hsleeps.
      repeat split; assumption.
    + specialize (IH (retries + 1)%Z (m, c) Hm ltac:(lia) ltac:(lia)).
      destruct (retryLoop _ (Datatypes.S n) text ms maxR delay (retries + 1) (m, c))
        as [[w3 ev3] r].
      destruct IH as (Hw & Hcalls & Hsleeps & ->).
      cbn [executionsOf sleepsOf app fst]. rewrite Hcalls, Hsleeps.
      repeat split; assumption.
Qed.

Lemma orDefault_not_zero (value : option Z) (fallback : Z) :
  fallback <> 0%Z -> orDefault value fallback <> 0%Z.
Proof.
  intros Hf. unfold orDefault. destruct value as [v|]; [|exact Hf].
  destruct (v =? 0)%Z eqn:E; [exact Hf | apply Z.eqb_neq, E].
Qed.

End ManagedConnection.

(** X14: the engine in front of a connection manager that is not
    connected.  The manager refuses at once with "Not connected to SQL
    Server" and leaves its pool alone, and the engine still goes through its
    whole retry budget: [maxRetries + 1] refused attempts ([maxRetries] as
    read by the engine) and the pauses between them, before that error is
    the record's failure.  The timeout the engine hands over is never 0, so a
    request of a connected manager always has its timeout set. *)
Theorem executeQuery_on_disconnected_manager {P C : Type}
        (poolQuery : ConnectionManager.PoolQuery P)
        (timer : C -> Z -> C) (read : C -> C * Z) (config : Config) (q : Query)
        (w : ConnectionManager.Manager P * C) :
  ConnectionManager.isConnected (fst w) = false ->
  (0 <= orDefault (maxRetries config) 3)%Z ->
  let budget := Z.to_nat (orDefault (maxRetries config) 3) in
  let delay := orDefault (retryDelay config) 1000 in
  exists w' events,
    executeQuery (ConnectionManager.managedEnv poolQuery timer read) config q w
    = (w', events, inr notConnected)
    /\ fst w' = fst w
    /\ executionsOf events = repeat (query q, inr notConnected) (Datatypes.S budget)
    /\ sleepsOf events = repeat delay (if (delay >? 0)%Z then budget else 0%nat)
    /\ ConnectionManager.requestTimeout (orDefault (timeout config) 30000)
       = Some (orDefault (timeout config) 30000).
Proof.
  intros Hm Hbudget budget delay. unfold executeQuery.
  replace (Z.to_nat (orDefault (maxRetries config) 3 + 1)) with (Datatypes.S budget)
    by (unfold budget; lia).
  pose proof (retryLoop_disconnected poolQuery timer read (query q)
                (orDefault (timeout config) 30000) (orDefault (maxRetries config) 3)
                delay budget 0%Z w Hm ltac:(unfold budget; f_equal; lia) Hbudget) as H.
  fold delay.
  destruct (retryLoop _ (Datatypes.S budget) (query q) _ _ delay 0 w) as [[w' ev] r].
  destruct H as (Hw & Hcalls & Hsleeps & ->).
  exists w', ev. split; [reflexivity|]. split; [exact Hw|].
  split; [exact Hcalls|]. split; [exact Hsleeps|].
  unfold ConnectionManager.requestTimeout.
  destruct (orDefault (timeout config) 30000 =? 0)%Z eqn:E; [|reflexivity].
  apply Z.eqb_eq in E. exfalso. revert E. apply orDefault_not_zero. discriminate.
Qed.

Lemma executeQuery_on_disconnected_manager_witness :
  exists w' events,
    executeQuery (ConnectionManager.managedEnv
                    (fun (pool : nat) (text : string) (ms : option Z) =>
                       (Datatypes.S pool, inl (Some ["row"%string])))
                    (fun (c : Z) (ms : Z) => (c + ms)%Z) (fun c : Z => (c, c)))
                 (scenarioConfig true) record1
                 (ConnectionManager.mkManager false 0%nat, 0%Z)
    = (w', events, inr notConnected)
    /\ fst w' = ConnectionManager.mkManager false 0%nat
    /\ executionsOf events = repeat (query record1, inr notConnected) 2
    /\ sleepsOf events = repeat 1000%Z 1
    /\ ConnectionManager.requestTimeout 30000 = Some 30000%Z.
Proof.
  apply (executeQuery_on_disconnected_manager
           (fun (pool : nat) (text : string) (ms : option Z) =>
              (Datatypes.S pool, inl (Some ["row"%string])))
           (fun (c : Z) (ms : Z) => (c + ms)%Z) (fun c : Z => (c, c))
           (scenarioConfig true) record1 (ConnectionManager.mkManager false 0%nat, 0%Z)).
  - reflexivity.
  - cbn. lia.
Defined.

(** * Properties of the pack sources *)

Import PackSource.

Section PackSourceFacts.

Local Open Scope Z_scope.

Context (lead : Z -> Z) (numberOfLiteral : string -> option Z) (world : World).

Lemma mapVersionValueToKey_number (n : Z) :
  mapVersionValueToKey lead (VNum n) = mapVersionToKey lead n.
Proof. reflexivity. Qed.

Lemma keyOfNumber_year (y : Z) :
  2005 <= y <= 2025 -> keyOfNumber (Some y) = y.
Proof.
  intros Hy. cbn [keyOfNumber].
  destruct ((2005 <=? y) && (y <=? 2025)) eqn:E; [reflexivity|].
  apply andb_false_iff in E as [E | E]; apply Z.leb_gt in E; lia.
Qed.

Lemma mapVersionValueToKey_year (y : Z) :
  2005 <= y <= 2025 -> mapVersionValueToKey lead (VNum y) = y.
Proof.
  intros Hy. unfold mapVersionValueToKey. cbn [parseIntValue].
  rewrite parseIntNumber_small by (change (10 ^ 21) with 1000000000000000000000; lia).
  apply keyOfNumber_year, Hy.
Qed.

Lemma after_nil (r : option Loaded) : after [] r = r.
Proof. destruct r as [[queries io]|]; reflexivity. Qed.

Lemma after_some (io : list IO) (r : option Loaded) :
  r <> None -> after io r <> None.
Proof. destruct r as [[queries io']|]; [discriminate | contradiction]. Qed.

Lemma firstNotNewerThan_number (t : Z) (l : list VersionKey) :
  firstNotNewerThan (Some t) l = firstNotNewer t l.
Proof.
  induction l as [|v l IH]; cbn [firstNotNewerThan firstNotNewer]; [reflexivity|].
  destruct (parseIntVersion v); [|exact IH].
  destruct (_ <=? t); [reflexivity | exact IH].
Qed.

Lemma firstNotNewerThan_NaN (l : list VersionKey) :
  firstNotNewerThan None l = None.
Proof.
  induction l as [|v l IH]; cbn [firstNotNewerThan]; [reflexivity|].
  destruct (parseIntVersion v); exact IH.
Qed.

Lemma getClosestAvailableVersionOf_number (existsSync : string -> bool) (v : Version) (t : Z) :
  toNumber numberOfLiteral v = Some t ->
  getClosestAvailableVersionOf numberOfLiteral existsSync v
  = getClosestAvailableVersion existsSync t.
Proof.
  intros H. unfold getClosestAvailableVersionOf, getClosestAvailableVersion.
  rewrite H, firstNotNewerThan_number. reflexivity.
Qed.

Lemma getClosestAvailableVersionOf_NaN (existsSync : string -> bool) (v : Version) :
  toNumber numberOfLiteral v = None ->
  getClosestAvailableVersionOf numberOfLiteral existsSync v
  = lastElement (availableVersions existsSync).
Proof.
  intros H. unfold getClosestAvailableVersionOf.
  rewrite H, firstNotNewerThan_NaN. reflexivity.
Qed.

Lemma firstNotNewer_In (t : Z) (l : list VersionKey) (r : VersionKey) :
  firstNotNewer t l = Some r -> In r l.
Proof.
  induction l as [|v l IH]; cbn [firstNotNewer]; [discriminate|].
  destruct (parseIntVersion v); [|intros H; right; exact (IH H)].
  destruct (_ <=? t); [intros H; injection H as <-; left; reflexivity|].
  intros H; right; exact (IH H).
Qed.

Lemma lastElement_In {A : Type} (l : list A) (r : A) :
  lastElement l = Some r -> In r l.
Proof.
  induction l as [|x l IH]; [discriminate|].
  destruct l as [|y l'].
  - intros H. injection H as <-. left. reflexivity.
  - intros H. right. exact (IH H).
Qed.

Lemma getClosestAvailableVersionOf_In (existsSync : string -> bool) (v : Version)
      (f : VersionKey) :
  getClosestAvailableVersionOf numberOfLiteral existsSync v = Some f ->
  In f (availableVersions existsSync).
Proof.
  destruct (toNumber numberOfLiteral v) as [t|] eqn:E.
  - rewrite (getClosestAvailableVersionOf_number _ _ _ E).
    unfold getClosestAvailableVersion. cbv zeta.
    destruct (firstNotNewer t (availableVersions existsSync)) as [r|] eqn:F.
    + intros H. injection H as <-. exact (firstNotNewer_In _ _ _ F).
    + apply lastElement_In.
  - rewrite (getClosestAvailableVersionOf_NaN _ _ E). apply lastElement_In.
Qed.

(** What an available version can be: the Number of a release year whose
    file is there, or one of the three suffixed names. *)
Lemma available_cases (existsSync : string -> bool) (f : VersionKey) :
  In f (availableVersions existsSync) ->
  (exists y filename, f = VNum y /\ In y releaseYears
                      /\ packFileOf y = Some filename /\ existsSync filename = true)
  \/ (exists s, f = VStr s /\ In s suffixedNames).
Proof.
  intros Hin. apply (proj1 (availableVersions_In existsSync f)) in Hin.
  destruct Hin as (key & filename & Htable & He & <-).
  unfold queryPackFiles in Htable. cbn [In] in Htable.
  repeat (destruct Htable as [Htable | Htable];
          [injection Htable as <- <-;
           first [ left; eexists; eexists; split; [vm_compute; reflexivity|];
                   split; [unfold releaseYears; cbn [In]; tauto|];
                   split; [vm_compute; reflexivity | exact He]
                 | right; eexists; split; [vm_compute; reflexivity|];
                   unfold suffixedNames; cbn [In]; tauto ]|]).
  contradiction.
Qed.

Lemma releaseYear_range (y : Z) : In y releaseYears -> 2005 <= y <= 2025.
Proof.
  unfold releaseYears. cbn [In]. intros H.
  repeat (destruct H as [<- | H]; [lia|]). contradiction.
Qed.

Lemma releaseYear_url (y : Z) : In y releaseYears -> urlOf y <> None.
Proof.
  unfold releaseYears. cbn [In]. intros H.
  repeat (destruct H as [<- | H]; [vm_compute; discriminate|]). contradiction.
Qed.

Lemma suffixedName_facts (s : string) :
  In s suffixedNames ->
  toNumber numberOfLiteral (VStr s) = None
  /\ urlOf (mapVersionValueToKey lead (VStr s)) <> None
  /\ truthy (VStr s) = true.
Proof.
  unfold suffixedNames. cbn [In]. intros H.
  repeat (destruct H as [<- | H];
          [split; [vm_compute; reflexivity|]; split; [vm_compute; discriminate | reflexivity]|]).
  contradiction.
Qed.

(** A year whose pack is there is its own closest version. *)
Lemma closest_of_available_year (existsSync : string -> bool) (y : Z) :
  In (VNum y) (availableVersions existsSync) ->
  getClosestAvailableVersionOf numberOfLiteral existsSync (VNum y) = Some (VNum y).
Proof.
  intros Hin.
  rewrite (getClosestAvailableVersionOf_number existsSync (VNum y) y eq_refl).
  pose proof (firstNotNewer_first y _ (availableVersions_parse existsSync)
                (availableVersions_precede existsSync)) as Hfirst.
  unfold getClosestAvailableVersion. cbv zeta.
  destruct (firstNotNewer y (availableVersions existsSync)) as [r|].
  - destruct Hfirst as (Hr & Hry & Hprec).
    specialize (Hprec (VNum y) Hin (Z.le_refl y)).
    unfold precedes in Hprec. change (yearOf (VNum y)) with y in Hprec.
    f_equal. destruct Hprec as [Hgt | [Heq Hrank]]; [lia|].
    destruct r as [n | | str]; cbn in Hrank; try lia.
    + cbn in Heq. congruence.
    + pose proof (availableVersions_parse existsSync) as Hp.
      rewrite Forall_forall in Hp. specialize (Hp VNaN Hr). exfalso. apply Hp. reflexivity.
  - specialize (Hfirst (VNum y) Hin). change (yearOf (VNum y)) with y in Hfirst. lia.
Qed.

End PackSourceFacts.

(** C8: [getClosestAvailableVersion] on a target of any kind.  For a target
    that is a number or reads as one (2017, ["2017"]) it returns the
    available version of the greatest year not above the target, and when
    every available version is above the target the available version of
    the smallest year; with nothing available it returns nothing.  With the
    2012, 2016 and 2019 packs present, the target 2017 yields 2016 and the
    target 2005 yields 2012.  For a target that does not read as a number,
    as the suffixed names do that the function itself returns, every
    comparison fails and the answer is the available version of the smallest
    year, whatever the target: with the 2016SP2 and 2008R2 packs present,
    the target ["2016SP2"] yields ["2008R2"], although the 2016SP2 pack is
    there and is not newer than the target. *)
Theorem getClosestAvailableVersion_closest
        (numberOfLiteral : string -> option Z) (existsSync : string -> bool)
        (target : Version) :
  (forall t, toNumber numberOfLiteral target = Some t ->
     ((exists v, isAvailable existsSync v /\ (yearOf v <= t)%Z) ->
      exists r, getClosestAvailableVersionOf numberOfLiteral existsSync target = Some r
                /\ isAvailable existsSync r
                /\ (yearOf r <= t)%Z
                /\ forall v, isAvailable existsSync v -> (yearOf v <= t)%Z ->
                             (yearOf v <= yearOf r)%Z)
     /\ ((exists v, isAvailable existsSync v) ->
         (forall v, isAvailable existsSync v -> (t < yearOf v)%Z) ->
         exists r, getClosestAvailableVersionOf numberOfLiteral existsSync target = Some r
                   /\ isAvailable existsSync r
                   /\ forall v, isAvailable existsSync v -> (yearOf r <= yearOf v)%Z))
  /\ (toNumber numberOfLiteral target = None ->
      (exists v, isAvailable existsSync v) ->
      exists r, getClosestAvailableVersionOf numberOfLiteral existsSync target = Some r
                /\ lastElement (availableVersions existsSync) = Some r
                /\ isAvailable existsSync r
                /\ forall v, isAvailable existsSync v -> (yearOf r <= yearOf v)%Z)
  /\ ((forall v, ~ isAvailable existsSync v) ->
      getClosestAvailableVersionOf numberOfLiteral existsSync target = None)
  /\ getClosestAvailableVersionOf numberOfLiteral packs_2012_2016_2019 (VNum 2017)
     = Some (VNum 2016)
  /\ getClosestAvailableVersionOf numberOfLiteral packs_2012_2016_2019 (VNum 2005)
     = Some (VNum 2012)
  /\ getClosestAvailableVersionOf numberOfLiteral packs_2012_2016_2019 (VStr "2017")
     = Some (VNum 2016)
  /\ (isAvailable (fileExists suffixedPacksOffline) (VStr "2016SP2")
      /\ yearOf (VStr "2016SP2") = 2016%Z
      /\ toNumber numberOfLiteral (VStr "2016SP2") = None
      /\ getClosestAvailableVersionOf numberOfLiteral (fileExists suffixedPacksOffline)
           (VStr "2016SP2")
         = Some (VStr "2008R2")).
Proof.
  split.
  { intros t Ht.
    rewrite (getClosestAvailableVersionOf_number numberOfLiteral existsSync target t Ht).
    apply getClosestAvailableVersion_for_number. }
  split.
  { intros Hnan (v & Hav).
    rewrite (getClosestAvailableVersionOf_NaN numberOfLiteral existsSync target Hnan).
    destruct (lastElement_spec (availableVersions existsSync)) as (r & Hr & Hin & Hmin).
    - pose proof (proj2 (availableVersions_In existsSync v) Hav) as Hv.
      intros E. rewrite E in Hv. exact Hv.
    - apply availableVersions_descending.
    - exists r. split; [exact Hr|]. split; [exact Hr|].
      split; [exact (proj1 (availableVersions_In existsSync r) Hin)|].
      intros v' Hv'. exact (Hmin v' (proj2 (availableVersions_In existsSync v') Hv')). }
  split.
  { intros Hnone. unfold getClosestAvailableVersionOf. cbv zeta.
    destruct (availableVersions existsSync) as [|v l] eqn:E.
    - cbn [firstNotNewerThan lastElement]. reflexivity.
    - exfalso. apply (Hnone v).
      apply (proj1 (availableVersions_In existsSync v)). rewrite E. left. reflexivity. }
  split; [vm_compute; reflexivity|].
  split; [vm_compute; reflexivity|].
  split; [vm_compute; reflexivity|].
  split.
  { exists "2016SP2"%string, "sql-server-2016SP2-queries.sql"%string.
    split; [unfold queryPackFiles; cbn [In]; tauto|].
    split; vm_compute; reflexivity. }
  split; [vm_compute; reflexivity|].
  split; vm_compute; reflexivity.
Qed.

Section LoadChain.

Local Open Scope Z_scope.

Context (lead : Z -> Z) (numberOfLiteral : string -> option Z) (world : World).

Let load (fuel : nat) : Version -> option Loaded :=
  loadGlenBerryQueries fuel lead numberOfLiteral world.

Let download (loadAgain : Version -> option Loaded) : Version -> option Loaded :=
  downloadAndParseQueries loadAgain lead numberOfLiteral world.

Let closest : Version -> option VersionKey :=
  getClosestAvailableVersionOf numberOfLiteral (fileExists world).

Lemma load_succ (fuel : nat) (v : Version) :
  load (S fuel) v
  = match loadLocalQueryPack lead world v with
    | (Some sqlContent, io) =>
        if negb (isEmpty sqlContent) then Some (parsePack sqlContent v, io)
        else after io (download (load fuel) v)
    | (None, io) => after io (download (load fuel) v)
    end.
Proof. reflexivity. Qed.

Lemma keyOfNumber_range (versionNum : option Z) :
  2005 <= keyOfNumber versionNum <= 2025.
Proof.
  destruct versionNum as [n|]; cbn [keyOfNumber]; [|lia].
  destruct ((2005 <=? n) && (n <=? 2025)) eqn:E.
  - apply andb_true_iff in E as [E1 E2]. apply Z.leb_le in E1, E2. lia.
  - repeat match goal with
           | |- context [(?a <=? n)] => destruct (a <=? n)
           end; lia.
Qed.

(** The two tables have the same numeric names: the release years. *)
Lemma key_cases (key : Z) :
  2005 <= key <= 2025 ->
  (In key releaseYears /\ packFileOf key <> None /\ urlOf key <> None)
  \/ (~ In key releaseYears /\ packFileOf key = None /\ urlOf key = None).
Proof.
  intros Hk.
  assert (Hcases : exists n, (n <= 20)%nat /\ key = 2005 + Z.of_nat n).
  { exists (Z.to_nat (key - 2005)). split; lia. }
  destruct Hcases as (n & Hn & ->).
  do 21 (destruct n as [|n];
         [first [ left; split; [unfold releaseYears; cbn [In]; tauto|];
                  split; vm_compute; discriminate
                | right; split; [unfold releaseYears; cbn [In]; intros H;
                                 repeat (destruct H as [H | H]; [discriminate H|]); exact H|];
                  split; vm_compute; reflexivity ]|]).
  lia.
Qed.

Lemma localPack_io (v : Version) :
  match loadLocalQueryPack lead world v with
  | (sqlContent, io) =>
      (io = [] /\ sqlContent = None)
      \/ (exists filename,
             io = [ReadFile filename]
             /\ packFileOf (mapVersionValueToKey lead v) = Some filename
             /\ fileExists world filename = true
             /\ sqlContent = readFile world filename)
  end.
Proof.
  unfold loadLocalQueryPack. cbv zeta.
  destruct (packFileOf (mapVersionValueToKey lead v)) as [filename|]; [|left; split; reflexivity].
  destruct (fileExists world filename) eqn:E; cbn [negb].
  - right. exists filename. repeat split; assumption.
  - left. split; reflexivity.
Qed.

Lemma readsOf_app (io io' : list IO) : readsOf (io ++ io') = readsOf io ++ readsOf io'.
Proof. unfold readsOf. apply flat_map_app. Qed.

Lemma requestsOf_app (io io' : list IO) :
  requestsOf (io ++ io') = requestsOf io ++ requestsOf io'.
Proof. unfold requestsOf. apply flat_map_app. Qed.

Lemma within_le (n m : nat) (r : option Loaded) :
  (n <= m)%nat -> within n r -> within m r.
Proof.
  intros Hle (queries & io & -> & Hr & Hq).
  exists queries, io. repeat split; lia.
Qed.

Lemma within_after (n : nat) (io : list IO) (r : option Loaded) :
  (List.length (readsOf io) <= 1)%nat -> (List.length (requestsOf io) <= 1)%nat ->
  within n r -> within (S n) (after io r).
Proof.
  intros H1 H2 (queries & io' & -> & Hr & Hq).
  exists queries, (io ++ io'). split; [reflexivity|].
  rewrite readsOf_app, requestsOf_app, !length_app. lia.
Qed.

(** A version whose key has no URL has no file either: its load is the
    load of 2019, and nothing is read or requested for the version itself. *)
Lemma load_without_url (fuel : nat) (v : Version) :
  urlOf (mapVersionValueToKey lead v) = None ->
  load (S fuel) v = load fuel (VNum 2019).
Proof.
  intros Hurl. rewrite load_succ.
  unfold loadLocalQueryPack, download, downloadAndParseQueries. cbv zeta.
  destruct (key_cases (mapVersionValueToKey lead v) (keyOfNumber_range _))
    as [(_ & _ & H) | (_ & Hfile & _)]; [contradiction|].
  rewrite Hfile, Hurl. apply after_nil.
Qed.

(** A load ends when the loads its download may start end, with one read
    and one request more at most. *)
Lemma load_ends (fuel k : nat) (v : Version) :
  (urlOf (mapVersionValueToKey lead v) = None -> within (S k) (load fuel (VNum 2019))) ->
  (forall f, closest v = Some f -> strictlyDiffers f v = true -> within k (load fuel f)) ->
  within (S k) (load (S fuel) v).
Proof.
  intros Hdefault Hclosest.
  destruct (urlOf (mapVersionValueToKey lead v)) as [url|] eqn:Hurl;
    [|rewrite (load_without_url fuel v Hurl); apply Hdefault; reflexivity].
  assert (Hd : exists r, download (load fuel) v = after [HttpGet url] r /\ within k r).
  { unfold download, downloadAndParseQueries. cbv zeta. rewrite Hurl.
    assert (Hnone : forall queries,
               exists r, Some (queries, [HttpGet url]) = after [HttpGet url] r /\ within k r).
    { intros queries. exists (Some (queries, [])). split; [reflexivity|].
      exists queries, []. repeat split; cbn; lia. }
    destruct (httpGet world url); [apply Hnone|].
    fold closest. destruct (closest v) as [f|] eqn:Ef; [|apply Hnone].
    destruct (truthy f); cbn [andb]; [|apply Hnone].
    destruct (strictlyDiffers f v) eqn:Ed; [|apply Hnone].
    exists (load fuel f). split; [reflexivity|]. apply Hclosest; [reflexivity | exact Ed]. }
  destruct Hd as (r & Hd & Hr).
  assert (Hone : forall io,
             (List.length (readsOf io) <= 1)%nat -> requestsOf io = [] ->
             within (S k) (after io (download (load fuel) v))).
  { intros io H1 H2. rewrite Hd.
    destruct Hr as (queries & io' & -> & Hr & Hq).
    exists queries, (io ++ [HttpGet url] ++ io'). split; [reflexivity|].
    rewrite !readsOf_app, !requestsOf_app, H2, !length_app. cbn. lia. }
  rewrite load_succ.
  pose proof (localPack_io v) as Hlocal.
  destruct (loadLocalQueryPack lead world v) as [sqlContent io].
  assert (Hio : (List.length (readsOf io) <= 1)%nat /\ requestsOf io = []).
  { destruct Hlocal as [(-> & _) | (filename & -> & _)]; split; cbn; try reflexivity; lia. }
  destruct sqlContent as [sqlContent|]; [|apply Hone; apply Hio].
  destruct (negb (isEmpty sqlContent)); [|apply Hone; apply Hio].
  exists (parsePack sqlContent v), io. split; [reflexivity|].
  destruct Hio as [H1 H2]. rewrite H2. cbn. lia.
Qed.

Lemma strictlyDiffers_same (v : Version) :
  v <> VNaN -> strictlyDiffers v v = false.
Proof.
  destruct v as [n | | s]; intros H; [| contradiction |]; cbn [strictlyDiffers].
  - rewrite Z.eqb_refl. reflexivity.
  - rewrite String.eqb_refl. reflexivity.
Qed.

(** The load of a year whose pack file is there starts no other load. *)
Lemma load_available_year (fuel : nat) (y : Z) :
  In (VNum y) (availableVersions (fileExists world)) ->
  within 1 (load (S fuel) (VNum y)).
Proof.
  intros Hin. apply load_ends.
  - intros Hurl. exfalso.
    destruct (available_cases _ _ Hin) as [(y' & filename & Hy & Hrel & _) | (s & Hs & _)];
      [|discriminate].
    injection Hy as <-.
    rewrite (mapVersionValueToKey_year lead y (releaseYear_range y Hrel)) in Hurl.
    exact (releaseYear_url y Hrel Hurl).
  - intros f Hf Hd. unfold closest in Hf.
    rewrite (closest_of_available_year numberOfLiteral _ y Hin) in Hf.
    injection Hf as <-. rewrite strictlyDiffers_same in Hd; discriminate.
Qed.

(** The load of a suffixed name whose pack file is there starts at most one
    other load: its number is NaN, so its closest version is the last
    element of the array, and the closest version of that one is itself. *)
Lemma load_available_name (fuel : nat) (s : string) :
  In (VStr s) (availableVersions (fileExists world)) ->
  within 2 (load (S (S fuel)) (VStr s)).
Proof.
  intros Hin.
  assert (Hname : forall s', In (VStr s') (availableVersions (fileExists world)) ->
                             In s' suffixedNames).
  { intros s' H. destruct (available_cases _ _ H) as [(y & fn & Hy & _) | (s0 & Hs & Hs0)];
      [discriminate | injection Hs as ->; exact Hs0]. }
  assert (Hlast : forall s', In (VStr s') (availableVersions (fileExists world)) ->
                             closest (VStr s') = lastElement (availableVersions (fileExists world))).
  { intros s' H. apply getClosestAvailableVersionOf_NaN.
    apply (suffixedName_facts lead numberOfLiteral s' (Hname s' H)). }
  apply load_ends.
  - intros Hurl. exfalso.
    exact (proj1 (proj2 (suffixedName_facts lead numberOfLiteral s (Hname s Hin))) Hurl).
  - intros f Hf _. rewrite (Hlast s Hin) in Hf.
    pose proof (lastElement_In _ _ Hf) as Hfin.
    destruct f as [y | | s'].
    + apply load_available_year, Hfin.
    + destruct (available_cases _ _ Hfin) as [(y & fn & Hy & _) | (s0 & Hs & _)]; discriminate.
    + apply load_ends.
      * intros Hurl. exfalso.
        exact (proj1 (proj2 (suffixedName_facts lead numberOfLiteral s' (Hname s' Hfin))) Hurl).
      * intros f' Hf' Hd. rewrite (Hlast s' Hfin), Hf in Hf'. injection Hf' as <-.
        rewrite strictlyDiffers_same in Hd; discriminate.
Qed.

Lemma load_available (fuel : nat) (f : VersionKey) :
  In f (availableVersions (fileExists world)) ->
  within 2 (load (S (S fuel)) f).
Proof.
  intros Hin. destruct f as [y | | s].
  - apply (within_le 1 2); [lia | apply load_available_year, Hin].
  - destruct (available_cases _ _ Hin) as [(y & fn & Hy & _) | (s0 & Hs & _)]; discriminate.
  - apply load_available_name, Hin.
Qed.

Lemma load_with_url (fuel : nat) (v : Version) :
  urlOf (mapVersionValueToKey lead v) <> None ->
  within 3 (load (S (S (S fuel))) v).
Proof.
  intros Hurl. apply load_ends.
  - intros H. contradiction.
  - intros f Hf _. apply load_available.
    exact (getClosestAvailableVersionOf_In numberOfLiteral _ _ _ Hf).
Qed.

Lemma load_four (fuel : nat) (v : Version) :
  within 3 (load (S (S (S (S fuel)))) v).
Proof.
  apply load_ends.
  - intros _. apply load_with_url. vm_compute. discriminate.
  - intros f Hf _. apply load_available.
    exact (getClosestAvailableVersionOf_In numberOfLiteral _ _ _ Hf).
Qed.

Lemma after_mono (io : list IO) (r r' : option Loaded) (result : Loaded) :
  (forall x, r = Some x -> r' = Some x) ->
  after io r = Some result -> after io r' = Some result.
Proof.
  intros H. destruct r as [[queries io0]|]; [|discriminate].
  rewrite (H _ eq_refl). exact (fun e => e).
Qed.

Lemma download_mono (k k' : Version -> option Loaded) (v : Version) (result : Loaded) :
  (forall x r, k x = Some r -> k' x = Some r) ->
  download k v = Some result -> download k' v = Some result.
Proof.
  intros H. unfold download, downloadAndParseQueries. cbv zeta.
  destruct (urlOf (mapVersionValueToKey lead v)) as [url|]; [|apply H].
  destruct (httpGet world url); [exact (fun e => e)|].
  destruct (getClosestAvailableVersionOf numberOfLiteral (fileExists world) v) as [f|];
    [|exact (fun e => e)].
  destruct (truthy f && strictlyDiffers f v); [|exact (fun e => e)].
  apply after_mono. apply H.
Qed.

(** More fuel does not change the result of a load that ended. *)
Lemma load_mono (fuel : nat) (v : Version) (result : Loaded) :
  load fuel v = Some result -> load (S fuel) v = Some result.
Proof.
  revert v result. induction fuel as [|fuel IH]; intros v result; [discriminate|].
  rewrite (load_succ (S fuel)), (load_succ fuel).
  destruct (loadLocalQueryPack lead world v) as [[sqlContent|] io].
  - destruct (negb (isEmpty sqlContent)); [exact (fun e => e)|].
    apply after_mono. intros x. apply download_mono. exact IH.
  - apply after_mono. intros x. apply download_mono. exact IH.
Qed.

Lemma load_mono_le (fuel fuel' : nat) (v : Version) (result : Loaded) :
  (fuel <= fuel')%nat -> load fuel v = Some result -> load fuel' v = Some result.
Proof.
  intros Hle H. induction Hle as [|m Hle IH]; [exact H | apply load_mono, IH].
Qed.

End LoadChain.


(** X15.  Whatever the pack directory holds and whatever the network
    answers, [loadGlenBerryQueries] ends: it calls itself, through
    [downloadAndParseQueries], to a depth of four loads at most, reading at
    most three files and sending at most three requests; a larger bound
    gives the same result.  The depth of four is reached: with the 2016 SP2
    and 2008 R2 packs only and no network, the load for 2006 goes on to
    2019, 2016SP2 and 2008R2 and sends three requests. *)
Theorem loadGlenBerryQueries_ends_within_four_loads :
  (forall (lead : Z -> Z) (numberOfLiteral : string -> option Z) (world : World)
          (sqlServerVersion : Version) (fuel : nat),
      exists queries io,
        loadGlenBerryQueries (4 + fuel) lead numberOfLiteral world sqlServerVersion
        = Some (queries, io)
        /\ loadGlenBerryQueries 4 lead numberOfLiteral world sqlServerVersion
           = Some (queries, io)
        /\ (List.length (readsOf io) <= 3)%nat
        /\ (List.length (requestsOf io) <= 3)%nat)
  /\ (exists io,
         loadGlenBerryQueries 3 (fun _ => 1%Z) (fun _ => None) suffixedPacksOffline (VNum 2006)
         = None
         /\ loadGlenBerryQueries 4 (fun _ => 1%Z) (fun _ => None) suffixedPacksOffline (VNum 2006)
            = Some ([], io)
         /\ List.length (requestsOf io) = 3%nat).
Proof.
  split.
  - intros lead numberOfLiteral world v fuel.
    destruct (load_four lead numberOfLiteral world 0 v) as (queries & io & H4 & Hr & Hq).
    exists queries, io. split; [|split; [exact H4 | split; assumption]].
    apply (load_mono_le lead numberOfLiteral world 4 (4 + fuel)); [lia | exact H4].
  - eexists. split; [vm_compute; reflexivity|].
    split; vm_compute; reflexivity.
Qed.

(** X16.  Every file a load reads is there and is the pack file of a plain
    release year, and every request goes to the URL of a plain release
    year: the packs of the suffixed names (2016SP2, 2008R2, 2008STD) are
    never read, although they count among the available versions. *)
Theorem loadGlenBerryQueries_reads_plain_year_packs_only :
  forall (fuel : nat) (lead : Z -> Z) (numberOfLiteral : string -> option Z) (world : World)
         (sqlServerVersion : Version) (queries : list Query) (io : list IO),
    loadGlenBerryQueries fuel lead numberOfLiteral world sqlServerVersion = Some (queries, io) ->
    (forall filename, In filename (readsOf io) ->
       fileExists world filename = true
       /\ (exists year, In year releaseYears /\ packFileOf year = Some filename)
       /\ ~ In filename suffixedPackFiles)
    /\ (forall url, In url (requestsOf io) ->
          exists year, In year releaseYears /\ urlOf year = Some url).
Proof.
  intros fuel lead numberOfLiteral world.
  assert (Hfile : forall year filename,
             In year releaseYears -> packFileOf year = Some filename ->
             ~ In filename suffixedPackFiles).
  { intros year filename Hy. unfold releaseYears in Hy. cbn [In] in Hy.
    repeat (destruct Hy as [<- | Hy];
            [vm_compute; intros E; injection E as <-; intros H;
             repeat (destruct H as [H | H]; [discriminate H|]); exact H|]).
    contradiction. }
  induction fuel as [|fuel IH]; intros v queries io; [discriminate|].
  change (loadGlenBerryQueries (S fuel) lead numberOfLiteral world v)
    with (match loadLocalQueryPack lead world v with
          | (Some sqlContent, io) =>
              if negb (isEmpty sqlContent) then Some (parsePack sqlContent v, io)
              else after io (downloadAndParseQueries
                               (loadGlenBerryQueries fuel lead numberOfLiteral world)
                               lead numberOfLiteral world v)
          | (None, io) =>
              after io (downloadAndParseQueries
                          (loadGlenBerryQueries fuel lead numberOfLiteral world)
                          lead numberOfLiteral world v)
          end).
  set (key := mapVersionValueToKey lead v).
  assert (Hkey : forall x, packFileOf key = Some x \/ urlOf key = Some x -> In key releaseYears).
  { intros x Hx.
    destruct (key_cases key (keyOfNumber_range _)) as [(H & _) | (_ & Hf & Hu)]; [exact H|].
    rewrite Hf, Hu in Hx. destruct Hx; discriminate. }
  assert (Hdown : forall queries io,
             downloadAndParseQueries (loadGlenBerryQueries fuel lead numberOfLiteral world)
               lead numberOfLiteral world v = Some (queries, io) ->
             (forall filename, In filename (readsOf io) ->
                fileExists world filename = true
                /\ (exists year, In year releaseYears /\ packFileOf year = Some filename)
                /\ ~ In filename suffixedPackFiles)
             /\ (forall url, In url (requestsOf io) ->
                   exists year, In year releaseYears /\ urlOf year = Some url)).
  { intros queries' io'. unfold downloadAndParseQueries. cbv zeta. fold key.
    destruct (urlOf key) as [url|] eqn:Hurl; [|apply IH].
    assert (Hone : forall q, Some (q, [HttpGet url]) = Some (queries', io') ->
               (forall filename, In filename (readsOf io') ->
                  fileExists world filename = true
                  /\ (exists year, In year releaseYears /\ packFileOf year = Some filename)
                  /\ ~ In filename suffixedPackFiles)
               /\ (forall url, In url (requestsOf io') ->
                     exists year, In year releaseYears /\ urlOf year = Some url)).
    { intros q E. injection E as _ <-. split; [intros filename []|].
      intros u [<- | []]. exists key. split; [exact (Hkey url (or_intror eq_refl)) | exact Hurl]. }
    destruct (httpGet world url); [apply Hone|].
    destruct (getClosestAvailableVersionOf numberOfLiteral (fileExists world) v) as [f|];
      [|apply Hone].
    destruct (truthy f && strictlyDiffers f v); [|apply Hone].
    destruct (loadGlenBerryQueries fuel lead numberOfLiteral world f) as [[q0 io0]|] eqn:E0;
      [|discriminate].
    cbn [after]. intros E. injection E as _ <-.
    destruct (IH f q0 io0 E0) as [Hr Hq].
    split.
    - intros filename Hin. apply Hr. exact Hin.
    - intros u [<- | Hin]; [|apply Hq; exact Hin].
      exists key. split; [exact (Hkey url (or_intror eq_refl)) | exact Hurl]. }
  pose proof (localPack_io lead world v) as Hlocal.
  destruct (loadLocalQueryPack lead world v) as [sqlContent io0].
  assert (Hio0 : (forall filename, In filename (readsOf io0) ->
                    fileExists world filename = true
                    /\ (exists year, In year releaseYears /\ packFileOf year = Some filename)
                    /\ ~ In filename suffixedPackFiles)
                 /\ requestsOf io0 = []).
  { destruct Hlocal as [(-> & _) | (filename & -> & Hf & He & _)];
      (split; [|reflexivity]); [intros x []|].
    intros x [<- | []]. fold key in Hf.
    pose proof (Hkey filename (or_introl Hf)) as Hy.
    split; [exact He|]. split; [exists key; split; assumption|].
    exact (Hfile key filename Hy Hf). }
  assert (Hafter : after io0 (downloadAndParseQueries
                                (loadGlenBerryQueries fuel lead numberOfLiteral world)
                                lead numberOfLiteral world v) = Some (queries, io) ->
            (forall filename, In filename (readsOf io) ->
               fileExists world filename = true
               /\ (exists year, In year releaseYears /\ packFileOf year = Some filename)
               /\ ~ In filename suffixedPackFiles)
            /\ (forall url, In url (requestsOf io) ->
                  exists year, In year releaseYears /\ urlOf year = Some url)).
  { destruct (downloadAndParseQueries _ lead numberOfLiteral world v) as [[q1 io1]|] eqn:E1;
      [|discriminate].
    cbn [after]. intros E. injection E as _ <-.
    destruct (Hdown q1 io1 eq_refl) as [Hr Hq]. destruct Hio0 as [Hr0 Hq0].
    split.
    - intros filename Hin. rewrite readsOf_app in Hin.
      apply in_app_or in Hin as [Hin | Hin]; [apply Hr0 | apply Hr]; exact Hin.
    - intros u Hin. rewrite requestsOf_app, Hq0 in Hin. apply Hq. exact Hin. }
  destruct sqlContent as [sqlContent|]; [|exact Hafter].
  destruct (negb (isEmpty sqlContent)); [|exact Hafter].
  intros E. injection E as _ <-. destruct Hio0 as [Hr0 Hq0].
  split; [exact Hr0|]. rewrite Hq0. intros u [].
Qed.

Lemma loadGlenBerryQueries_reads_plain_year_packs_only_witness :
  (forall filename, In filename (readsOf [ReadFile "sql-server-2019-queries.sql"]) ->
     fileExists localPacksOffline filename = true
     /\ (exists year, In year releaseYears /\ packFileOf year = Some filename)
     /\ ~ In filename suffixedPackFiles)
  /\ (forall url, In url (requestsOf [ReadFile "sql-server-2019-queries.sql"]) ->
        exists year, In year releaseYears /\ urlOf year = Some url).
Proof.
  apply (loadGlenBerryQueries_reads_plain_year_packs_only
           1 (fun _ => 1%Z) (fun _ => None) localPacksOffline (VNum 15)
           (parseGlenBerryQueries examplePack 15)).
  vm_compute. reflexivity.
Defined.

(** X17.  The queries a load answers come from its last action alone: the
    parse of the non-empty pack file read last, or of the body answered to
    the last request, or nothing when that request failed.  Every action
    before the last one gave nothing: a file that could not be read or was
    empty, a request that failed. *)
Theorem loadGlenBerryQueries_result_comes_from_last_action :
  forall (fuel : nat) (lead : Z -> Z) (numberOfLiteral : string -> option Z) (world : World)
         (sqlServerVersion : Version) (queries : list Query) (io : list IO),
    loadGlenBerryQueries fuel lead numberOfLiteral world sqlServerVersion = Some (queries, io) ->
    exists before a,
      io = before ++ [a]
      /\ Forall (gaveNothing world) before
      /\ settles world a queries.
Proof.
  intros fuel lead numberOfLiteral world.
  induction fuel as [|fuel IH]; intros v queries io; [discriminate|].
  rewrite (load_succ lead numberOfLiteral world fuel v).
  assert (Hdown : forall q1 io1,
             downloadAndParseQueries (loadGlenBerryQueries fuel lead numberOfLiteral world)
               lead numberOfLiteral world v = Some (q1, io1) ->
             exists before a,
               io1 = before ++ [a] /\ Forall (gaveNothing world) before /\ settles world a q1).
  { intros q1 io1. unfold downloadAndParseQueries. cbv zeta.
    destruct (urlOf (mapVersionValueToKey lead v)) as [url|]; [|apply IH].
    destruct (httpGet world url) as [data|] eqn:Hget.
    - intros E. injection E as <- <-. exists [], (HttpGet url).
      split; [reflexivity|]. split; [constructor|].
      cbn [settles]. rewrite Hget. eexists. unfold parsePack. reflexivity.
    - assert (Hnone : Some (@nil Query, [HttpGet url]) = Some (q1, io1) ->
                exists before a,
                  io1 = before ++ [a] /\ Forall (gaveNothing world) before
                  /\ settles world a q1).
      { intros E. injection E as <- <-. exists [], (HttpGet url).
        split; [reflexivity|]. split; [constructor|].
        cbn [settles]. rewrite Hget. reflexivity. }
      destruct (getClosestAvailableVersionOf numberOfLiteral (fileExists world) v) as [f|];
        [|exact Hnone].
      destruct (truthy f && strictlyDiffers f v); [|exact Hnone].
      destruct (loadGlenBerryQueries fuel lead numberOfLiteral world f) as [[q0 io0]|] eqn:E0;
        [|discriminate].
      cbn [after]. intros E. injection E as <- <-.
      destruct (IH f q0 io0 E0) as (before & a & -> & Hb & Hs).
      exists (HttpGet url :: before), a. split; [reflexivity|].
      split; [constructor; [exact Hget | exact Hb] | exact Hs]. }
  assert (Hafter : forall filename,
             gaveNothing world (ReadFile filename) ->
             after [ReadFile filename]
               (downloadAndParseQueries (loadGlenBerryQueries fuel lead numberOfLiteral world)
                  lead numberOfLiteral world v) = Some (queries, io) ->
             exists before a,
               io = before ++ [a] /\ Forall (gaveNothing world) before
               /\ settles world a queries).
  { intros filename Hnothing.
    destruct (downloadAndParseQueries _ lead numberOfLiteral world v) as [[q1 io1]|] eqn:E1;
      [|discriminate].
    cbn [after]. intros E. injection E as <- <-.
    destruct (Hdown q1 io1 eq_refl) as (before & a & -> & Hb & Hs).
    exists (ReadFile filename :: before), a. split; [reflexivity|].
    split; [constructor; [exact Hnothing | exact Hb] | exact Hs]. }
  pose proof (localPack_io lead world v) as Hlocal.
  destruct (loadLocalQueryPack lead world v) as [sqlContent io0].
  destruct Hlocal as [(-> & ->) | (filename & -> & _ & _ & ->)].
  - rewrite after_nil. apply Hdown.
  - destruct (readFile world filename) as [content|] eqn:Hread.
    + destruct content as [|c content]; cbn [isEmpty negb].
      * apply Hafter. right. exact Hread.
      * intros E. injection E as <- <-. exists [], (ReadFile filename).
        split; [reflexivity|]. split; [constructor|].
        cbn [settles]. eexists. eexists. split; [exact Hread|].
        split; [discriminate | unfold parsePack; reflexivity].
    + apply Hafter. left. exact Hread.
Qed.

Lemma loadGlenBerryQueries_result_comes_from_last_action_witness :
  exists before a,
    [HttpGet "https://www.dropbox.com/s/6rb2f97ocvkq7fw/SQL%20Server%202022%20Diagnostic%20Information%20Queries.sql?dl=1";
     ReadFile "sql-server-2012-queries.sql"]
    = before ++ [a]
    /\ Forall (gaveNothing localPacksOffline) before
    /\ settles localPacksOffline a [].
Proof.
  apply (loadGlenBerryQueries_result_comes_from_last_action
           2 (fun _ => 1%Z) (fun _ => None) localPacksOffline (VNum 16)).
  vm_compute. reflexivity.
Defined.

Section FallbackChoice.

Local Open Scope Z_scope.

Lemma firstNotNewer_none (target : Z) (l : list VersionKey) :
  (forall f year, In f l -> parseIntVersion f = Some year -> target < year) ->
  firstNotNewer target l = None.
Proof.
  induction l as [|f l IH]; intros H; cbn [firstNotNewer]; [reflexivity|].
  destruct (parseIntVersion f) as [year|] eqn:E.
  - pose proof (H f year (or_introl eq_refl) E) as Hlt.
    destruct (year <=? target) eqn:Hle; [apply Z.leb_le in Hle; lia|].
    apply IH. intros f' y' Hin. apply H. right. exact Hin.
  - apply IH. intros f' y' Hin. apply H. right. exact Hin.
Qed.

(** No pack is older than 2005. *)
Lemma available_year_lower_bound (existsSync : string -> bool) (f : VersionKey) (year : Z) :
  In f (availableVersions existsSync) -> parseIntVersion f = Some year -> 2005 <= year.
Proof.
  intros Hin Hyear.
  destruct (available_cases existsSync f Hin) as [(y & fn & -> & Hrel & _) | (s & -> & Hs)].
  - cbn in Hyear. injection Hyear as <-. apply releaseYear_range, Hrel.
  - unfold suffixedNames in Hs. cbn [In] in Hs.
    repeat (destruct Hs as [<- | Hs]; [vm_compute in Hyear; injection Hyear as <-; lia|]).
    contradiction.
Qed.

Lemma available_truthy (existsSync : string -> bool) (f : VersionKey) :
  In f (availableVersions existsSync) -> truthy f = true.
Proof.
  intros Hin.
  destruct (available_cases existsSync f Hin) as [(y & fn & -> & Hrel & _) | (s & -> & Hs)].
  - pose proof (releaseYear_range y Hrel) as Hy. cbn [truthy].
    destruct (y =? 0) eqn:E; [apply Z.eqb_eq in E; lia | reflexivity].
  - unfold suffixedNames in Hs. cbn [In] in Hs.
    repeat (destruct Hs as [<- | Hs]; [reflexivity|]). contradiction.
Qed.

Lemma availableVersions_none (existsSync : string -> bool) :
  (forall filename, existsSync filename = false) ->
  availableVersions existsSync = [].
Proof.
  intros Hnone. unfold availableVersions.
  assert (Hfilter : forall keys,
             filter (fun key => match getProperty queryPackFiles key with
                                | Some filename => existsSync filename
                                | None => false
                                end) keys = []).
  { induction keys as [|key keys IH]; cbn [filter]; [reflexivity|].
    destruct (getProperty queryPackFiles key); [rewrite Hnone|]; exact IH. }
  rewrite Hfilter. reflexivity.
Qed.

End FallbackChoice.

(** X18.  When the request for a version below 2005, as a major version
    number is, fails, the pack used instead is the oldest one in the pack
    directory, whatever the version: the fallback compares the pack years
    with the number as given, not with the year it stands for. *)
Theorem downloadAndParseQueries_major_version_falls_back_to_oldest_pack :
  forall (loadAgain : Version -> option Loaded) (lead : Z -> Z)
         (numberOfLiteral : string -> option Z) (world : World)
         (majorVersion : Z) (url : string) (oldest : VersionKey),
    (majorVersion < 2005)%Z ->
    urlOf (mapVersionToKey lead majorVersion) = Some url ->
    httpGet world url = None ->
    lastElement (availableVersions (fileExists world)) = Some oldest ->
    getClosestAvailableVersion (fileExists world) majorVersion = Some oldest
    /\ downloadAndParseQueries loadAgain lead numberOfLiteral world (VNum majorVersion)
       = after [HttpGet url] (loadAgain oldest).
Proof.
  intros loadAgain lead numberOfLiteral world n url oldest Hn Hurl Hget Hlast.
  assert (Hclosest : getClosestAvailableVersion (fileExists world) n = Some oldest).
  { unfold getClosestAvailableVersion. cbv zeta.
    rewrite firstNotNewer_none; [exact Hlast|].
    intros f year Hin Hyear.
    pose proof (available_year_lower_bound _ f year Hin Hyear). lia. }
  split; [exact Hclosest|].
  unfold downloadAndParseQueries. cbv zeta.
  rewrite mapVersionValueToKey_number, Hurl, Hget.
  rewrite (getClosestAvailableVersionOf_number numberOfLiteral _ (VNum n) n eq_refl), Hclosest.
  pose proof (lastElement_In _ _ Hlast) as Hin.
  rewrite (available_truthy _ oldest Hin). cbn [andb].
  assert (Hd : strictlyDiffers oldest (VNum n) = true).
  { destruct oldest as [y | | s]; try reflexivity. cbn [strictlyDiffers].
    pose proof (available_year_lower_bound _ (VNum y) y Hin eq_refl).
    destruct (y =? n)%Z eqn:E; [apply Z.eqb_eq in E; lia | reflexivity]. }
  rewrite Hd. reflexivity.
Qed.

Lemma downloadAndParseQueries_major_version_falls_back_to_oldest_pack_witness :
  getClosestAvailableVersion (fileExists localPacksOffline) 16 = Some (VNum 2012)
  /\ downloadAndParseQueries
       (loadGlenBerryQueries 1 (fun _ => 1%Z) (fun _ => None) localPacksOffline)
       (fun _ => 1%Z) (fun _ => None) localPacksOffline (VNum 16)
     = after [HttpGet "https://www.dropbox.com/s/6rb2f97ocvkq7fw/SQL%20Server%202022%20Diagnostic%20Information%20Queries.sql?dl=1"]
         (loadGlenBerryQueries 1 (fun _ => 1%Z) (fun _ => None) localPacksOffline (VNum 2012)).
Proof.
  apply (downloadAndParseQueries_major_version_falls_back_to_oldest_pack
           (loadGlenBerryQueries 1 (fun _ => 1%Z) (fun _ => None) localPacksOffline)
           (fun _ => 1%Z) (fun _ => None) localPacksOffline 16).
  - lia.
  - vm_compute. reflexivity.
  - reflexivity.
  - vm_compute. reflexivity.
Defined.

(** X19.  A version that reads as a year from 2005 to 2025 with no pack of
    its own (2006, 2007, 2009, ...) is loaded as 2019: nothing is read or
    requested for the year itself, and the result is that of the load of
    the Number 2019. *)
Theorem loadGlenBerryQueries_year_without_pack_loads_2019 :
  forall (fuel : nat) (lead : Z -> Z) (numberOfLiteral : string -> option Z) (world : World)
         (sqlServerVersion : Version) (year : Z),
    parseIntValue lead sqlServerVersion = Some year ->
    (2005 <= year <= 2025)%Z ->
    ~ In year releaseYears ->
    loadLocalQueryPack lead world sqlServerVersion = (None, [])
    /\ loadGlenBerryQueries (S fuel) lead numberOfLiteral world sqlServerVersion
       = loadGlenBerryQueries fuel lead numberOfLiteral world (VNum 2019).
Proof.
  intros fuel lead numberOfLiteral world v year Hparse Hrange Hnot.
  assert (Hkey : mapVersionValueToKey lead v = year).
  { unfold mapVersionValueToKey. rewrite Hparse. apply keyOfNumber_year, Hrange. }
  destruct (key_cases year Hrange) as [(H & _) | (_ & Hfile & Hurl)]; [contradiction|].
  split.
  - unfold loadLocalQueryPack. cbv zeta. rewrite Hkey, Hfile. reflexivity.
  - apply load_without_url. rewrite Hkey. exact Hurl.
Qed.

Lemma loadGlenBerryQueries_year_without_pack_loads_2019_witness :
  loadLocalQueryPack (fun _ => 1%Z) localPacksOffline (VStr "2006") = (None, [])
  /\ loadGlenBerryQueries 2 (fun _ => 1%Z) (fun _ => None) localPacksOffline (VStr "2006")
     = loadGlenBerryQueries 1 (fun _ => 1%Z) (fun _ => None) localPacksOffline (VNum 2019).
Proof.
  apply (loadGlenBerryQueries_year_without_pack_loads_2019
           1 (fun _ => 1%Z) (fun _ => None) localPacksOffline (VStr "2006") 2006).
  - reflexivity.
  - lia.
  - unfold releaseYears. cbn [In]. intros H.
    repeat (destruct H as [H | H]; [discriminate H|]). exact H.
Defined.

(** X20.  With no pack file in the pack directory and no answer from the
    network, a load sends one request and answers no query, and
    [loadQueries] then keeps the built-in sample queries. *)
Theorem loadQueries_without_packs_or_network_uses_samples :
  forall (fuel : nat) (lead : Z -> Z) (numberOfLiteral : string -> option Z) (world : World)
         (sqlServerVersion : Version) (p : Parser) (version : Z),
    (forall filename, fileExists world filename = false) ->
    (forall url, httpGet world url = None) ->
    exists url,
      loadGlenBerryQueries (2 + fuel) lead numberOfLiteral world sqlServerVersion
      = Some ([], [HttpGet url])
      /\ queries (loadQueries [] p version) = getSampleQueries version.
Proof.
  intros fuel lead numberOfLiteral world v p version Hfiles Hnet.
  assert (Hone : forall n v' url,
             urlOf (mapVersionValueToKey lead v') = Some url ->
             loadGlenBerryQueries (S n) lead numberOfLiteral world v'
             = Some ([], [HttpGet url])).
  { intros n v' url Hurl. rewrite load_succ.
    unfold loadLocalQueryPack, downloadAndParseQueries, getClosestAvailableVersionOf.
    cbv zeta. rewrite Hurl, Hnet, (availableVersions_none _ Hfiles).
    cbn [firstNotNewerThan lastElement].
    destruct (packFileOf (mapVersionValueToKey lead v')) as [filename|]; [|reflexivity].
    rewrite Hfiles. reflexivity. }
  destruct (urlOf (mapVersionValueToKey lead v)) as [url|] eqn:Hurl.
  - exists url. split; [apply Hone, Hurl | apply loadQueries_queries].
  - eexists. split; [|apply loadQueries_queries].
    change (2 + fuel)%nat with (S (S fuel)).
    rewrite (load_without_url lead numberOfLiteral world (S fuel) v Hurl).
    apply Hone. vm_compute. reflexivity.
Qed.

Lemma loadQueries_without_packs_or_network_uses_samples_witness :
  exists url,
    loadGlenBerryQueries (2 + 0) (fun _ => 1%Z) (fun _ => None) nothingThere (VNum 16)
    = Some ([], [HttpGet url])
    /\ queries (loadQueries [] (mkParser [] []) 16) = getSampleQueries 16.
Proof.
  apply (loadQueries_without_packs_or_network_uses_samples
           0 (fun _ => 1%Z) (fun _ => None) nothingThere (VNum 16) (mkParser [] []) 16).
  - intros filename. reflexivity.
  - intros url. reflexivity.
Defined.


(** * Properties of the extraction of one block *)

Section Extraction.

Lemma join_splitOn (s : string) : join nl (splitOn (ascii_of_N 10) s) = s.
Proof.
  induction s as [|c s IH]; [reflexivity|].
  cbn [splitOn]. destruct (Ascii.eqb c (ascii_of_N 10)) eqn:E.
  - apply Ascii.eqb_eq in E. subst c.
    destruct (splitOn (ascii_of_N 10) s) as [|piece rest] eqn:Es.
    + cbn [join] in IH. subst s. discriminate Es.
    + rewrite join_cons by discriminate. rewrite IH. reflexivity.
  - destruct (splitOn (ascii_of_N 10) s) as [|piece rest] eqn:Es.
    + cbn [join] in IH. subst s. discriminate Es.
    + destruct rest as [|piece' rest].
      * cbn [join] in *. rewrite IH. reflexivity.
      * rewrite join_cons in * by discriminate.
        cbn [String.append]. rewrite IH. reflexivity.
Qed.

Lemma collectSqlLines_inQuery (lines : list string) : collectSqlLines true lines = lines.
Proof.
  induction lines as [|line lines IH]; cbn [collectSqlLines negb andb]; [reflexivity|].
  rewrite IH. reflexivity.
Qed.

(** The loop passes over the leading comment and blank lines and keeps
    the rest. *)
Lemma collectSqlLines_split (lines : list string) :
  exists skipped,
    lines = skipped ++ collectSqlLines false lines
    /\ Forall (fun line => isCommentOrBlank line = true) skipped.
Proof.
  induction lines as [|line lines (skipped & IH & Hs)]; [exists []; split; [reflexivity | constructor]|].
  cbn [collectSqlLines]. fold (isCommentOrBlank line). cbn [negb andb].
  destruct (isCommentOrBlank line) eqn:E.
  - exists (line :: skipped). split; [cbn [app]; rewrite <- IH; reflexivity|].
    constructor; assumption.
  - exists []. split; [|constructor]. rewrite collectSqlLines_inQuery. reflexivity.
Qed.

Lemma append_nil_r (a : string) : (a ++ EmptyString)%string = a.
Proof. induction a as [|x a IH]; cbn; [reflexivity | rewrite IH; reflexivity]. Qed.

Lemma takeWhile_skipWhile (p : ascii -> bool) (s : string) :
  s = (takeWhile p s ++ skipWhile p s)%string /\ allChars p (takeWhile p s) = true.
Proof.
  induction s as [|c s [IH1 IH2]]; [split; reflexivity|].
  cbn [takeWhile skipWhile]. destruct (p c) eqn:E.
  - cbn [String.append allChars]. rewrite <- IH1, E, IH2. split; reflexivity.
  - split; reflexivity.
Qed.

Lemma expect_some (c : ascii) (s s' : string) :
  expect c s = Some s' -> s = String c s'.
Proof.
  destruct s as [|c' s0]; cbn [expect]; [discriminate|].
  destruct (Ascii.eqb c' c) eqn:E; [|discriminate].
  apply Ascii.eqb_eq in E. intros H. injection H as <-. subst. reflexivity.
Qed.

Lemma expectLetter_some (upper lower : ascii) (s s' : string) :
  expectLetter upper lower s = Some s' ->
  exists c, s = String c s' /\ (c = upper \/ c = lower).
Proof.
  destruct s as [|c s0]; cbn [expectLetter]; [discriminate|].
  destruct (Ascii.eqb c upper || Ascii.eqb c lower) eqn:E; [|discriminate].
  intros H. injection H as <-. exists c. split; [reflexivity|].
  apply orb_true_iff in E as [E | E]; apply Ascii.eqb_eq in E; [left | right]; exact E.
Qed.

Lemma some_some (p : ascii -> bool) (s s' : string) :
  some p s = Some s' ->
  exists run, s = (run ++ s')%string /\ run <> EmptyString /\ allChars p run = true.
Proof.
  destruct s as [|c s0]; cbn [some]; [discriminate|].
  destruct (p c) eqn:E; [|discriminate].
  intros H. injection H as <-.
  destruct (takeWhile_skipWhile p s0) as [H1 H2].
  exists (String c (takeWhile p s0)). split; [cbn [String.append]; rewrite <- H1; reflexivity|].
  split; [discriminate|]. cbn [allChars]. rewrite E, H2. reflexivity.
Qed.

Lemma andThen_some {A B : Type} (x : option A) (f : A -> option B) (b : B) :
  x >>= f = Some b -> exists a, x = Some a /\ f a = Some b.
Proof. destruct x as [a|]; [intros H; exists a; split; [reflexivity | exact H] | discriminate]. Qed.

Lemma matchAnnotation_some (s captured : string) :
  matchAnnotation s = Some captured ->
  exists word blanks digits gap rest,
    s = ("(" ++ word ++ blanks ++ digits ++ ")" ++ gap ++ "(" ++ captured ++ ")" ++ rest)%string
    /\ toLowerCase word = "query"%string
    /\ blanks <> EmptyString /\ allChars isWhiteSpace blanks = true
    /\ digits <> EmptyString /\ allChars isDigit digits = true
    /\ allChars isWhiteSpace gap = true
    /\ captured <> EmptyString /\ allChars notCloseParen captured = true.
Proof.
  unfold matchAnnotation. intros H.
  apply andThen_some in H as (s2 & H & Hcap).
  apply andThen_some in H as (s1 & H & Hgap).
  apply andThen_some in H as (t8 & H & H9). apply expect_some in H9.
  apply andThen_some in H as (t7 & H & H8). apply some_some in H8 as (digits & H8 & Hd1 & Hd2).
  apply andThen_some in H as (t6 & H & H7). apply some_some in H7 as (blanks & H7 & Hb1 & Hb2).
  apply andThen_some in H as (t5 & H & H6). apply expectLetter_some in H6 as (y & H6 & Hy).
  apply andThen_some in H as (t4 & H & H5). apply expectLetter_some in H5 as (r & H5 & Hr).
  apply andThen_some in H as (t3 & H & H4). apply expectLetter_some in H4 as (e & H4 & He).
  apply andThen_some in H as (t2 & H & H3). apply expectLetter_some in H3 as (u & H3 & Hu).
  apply andThen_some in H as (t1 & H & H2). apply expectLetter_some in H2 as (q & H2 & Hq).
  apply expect_some in H.
  cbv zeta in Hcap.
  destruct (isEmpty (takeWhile notCloseParen s2)) eqn:Hne; [discriminate|].
  apply andThen_some in Hcap as (rest & Hclose & Hc). injection Hc as <-.
  apply expect_some in Hclose. apply expect_some in Hgap.
  destruct (takeWhile_skipWhile notCloseParen s2) as [Hs2 Hs2'].
  destruct (takeWhile_skipWhile isWhiteSpace s1) as [Hs1 Hs1'].
  exists (String q (String u (String e (String r (String y EmptyString))))),
         blanks, digits, (takeWhile isWhiteSpace s1), rest.
  split.
  - rewrite H, H2, H3, H4, H5, H6, H7, H8, H9. cbn [String.append].
    do 6 f_equal. f_equal. f_equal. cbn [String.append]. f_equal.
    rewrite Hs1 at 1. f_equal. rewrite Hgap. cbn [String.append]. f_equal.
    rewrite Hs2 at 1. f_equal. exact Hclose.
  - split.
    { destruct Hq as [-> | ->], Hu as [-> | ->], He as [-> | ->], Hr as [-> | ->],
        Hy as [-> | ->]; reflexivity. }
    repeat split; try assumption.
    destruct (takeWhile notCloseParen s2); [discriminate Hne | discriminate].
Qed.

Lemma lazyDotThenAnnotation_some (s captured : string) :
  lazyDotThenAnnotation s = Some captured ->
  exists lineRest rest,
    s = (lineRest ++ rest)%string
    /\ allChars notLineTerminator lineRest = true
    /\ matchAnnotation rest = Some captured.
Proof.
  induction s as [|c s IH].
  - cbn [lazyDotThenAnnotation].
    destruct (matchAnnotation EmptyString) as [x|] eqn:E; [|discriminate].
    intros H. injection H as <-. exists EmptyString, EmptyString. repeat split. exact E.
  - cbn [lazyDotThenAnnotation].
    destruct (matchAnnotation (String c s)) as [x|] eqn:E.
    + intros H. injection H as <-. exists EmptyString, (String c s). repeat split. exact E.
    + destruct (isLineTerminator c) eqn:Ec; [discriminate|].
      intros H. destruct (IH H) as (lineRest & rest & -> & Hl & Hm).
      exists (String c lineRest), rest. split; [reflexivity|].
      split; [|exact Hm]. cbn [allChars]. unfold notLineTerminator at 1. rewrite Ec, Hl.
      reflexivity.
Qed.

Lemma matchQueryPattern_some (block captured : string) :
  matchQueryPattern block = Some captured -> annotatedWith block captured.
Proof.
  assert (Hhere : forall s,
             (if startsWith s "--" then lazyDotThenAnnotation (drop 2 s) else None)
             = Some captured ->
             annotatedWith s captured).
  { intros s H. destruct (startsWith s "--") eqn:Es; [|discriminate].
    pose proof (startsWith_drop s "--" Es) as Hs. cbn [String.length] in Hs.
    apply lazyDotThenAnnotation_some in H as (lineRest & rest & Hd & Hl & Hm).
    apply matchAnnotation_some in Hm
      as (word & blanks & digits & gap & post & -> & Hw & Hb1 & Hb2 & Hd1 & Hd2 & Hg & Hc1 & Hc2).
    exists EmptyString, lineRest, word, blanks, digits, gap, post.
    split; [|repeat split; assumption].
    rewrite Hs, Hd. cbn [String.append]. reflexivity. }
  induction block as [|c block IH].
  - cbn [matchQueryPattern].
    destruct (if startsWith EmptyString "--" then _ else None) as [x|] eqn:E; [|discriminate].
    intros H. injection H as <-. apply Hhere. exact E.
  - cbn [matchQueryPattern].
    destruct (if startsWith (String c block) "--" then _ else None) as [x|] eqn:E.
    + intros H. injection H as <-. apply Hhere. exact E.
    + intros H.
      destruct (IH H)
        as (before & lineRest & word & blanks & digits & gap & post & -> & Hrest).
      exists (String c before), lineRest, word, blanks, digits, gap, post.
      split; [reflexivity | exact Hrest].
Qed.

Lemma skipWhile_run (p : ascii -> bool) (run rest : string) :
  allChars p run = true -> skipWhile p (run ++ rest) = skipWhile p rest.
Proof.
  induction run as [|c run IH]; cbn [allChars String.append skipWhile]; [reflexivity|].
  intros H. apply andb_true_iff in H as [Hc Hrun]. rewrite Hc. exact (IH Hrun).
Qed.

Lemma takeWhile_run (p : ascii -> bool) (run rest : string) :
  allChars p run = true -> takeWhile p (run ++ rest) = (run ++ takeWhile p rest)%string.
Proof.
  induction run as [|c run IH]; cbn [allChars String.append takeWhile]; [reflexivity|].
  intros H. apply andb_true_iff in H as [Hc Hrun]. rewrite Hc, (IH Hrun). reflexivity.
Qed.

Lemma some_run (p : ascii -> bool) (run rest : string) :
  run <> EmptyString -> allChars p run = true ->
  some p (run ++ rest) = Some (skipWhile p rest).
Proof.
  destruct run as [|c run]; [contradiction|]. intros _ H.
  cbn [allChars] in H. apply andb_true_iff in H as [Hc Hrun].
  cbn [String.append some]. rewrite Hc, (skipWhile_run p run rest Hrun). reflexivity.
Qed.

Lemma toLowerChar_letter (c lower : ascii) :
  In lower ["q"; "u"; "e"; "r"; "y"]%char ->
  toLowerChar c = lower ->
  Ascii.eqb c (ascii_of_N (N_of_ascii lower - 32)) || Ascii.eqb c lower = true.
Proof.
  intros Hl. cbn [In] in Hl.
  destruct c as [b0 b1 b2 b3 b4 b5 b6 b7].
  repeat (destruct Hl as [<- | Hl];
          [destruct b0, b1, b2, b3, b4, b5, b6, b7; vm_compute; intros H;
           first [reflexivity | discriminate H]|]).
  contradiction.
Qed.

Lemma digit_not_whiteSpace (c : ascii) : isDigit c = true -> isWhiteSpace c = false.
Proof.
  unfold isDigit, isWhiteSpace. intros H. apply andb_true_iff in H as [H1 H2].
  apply N.leb_le in H1, H2.
  destruct (9 <=? code c)%N eqn:E1, (code c <=? 13)%N eqn:E2, (code c =? 32)%N eqn:E3,
           (code c =? 160)%N eqn:E4; cbn; try reflexivity;
    try apply N.leb_le in E2; try apply N.eqb_eq in E3; try apply N.eqb_eq in E4; lia.
Qed.

Lemma skipWhile_stops (p : ascii -> bool) (c : ascii) (s : string) :
  p c = false -> skipWhile p (String c s) = String c s.
Proof. intros H. cbn [skipWhile]. rewrite H. reflexivity. Qed.

(** The matcher finds an annotation that stands at the start of the text. *)
Lemma matchAnnotation_complete (word blanks digits gap captured rest : string) :
  toLowerCase word = "query"%string ->
  blanks <> EmptyString -> allChars isWhiteSpace blanks = true ->
  digits <> EmptyString -> allChars isDigit digits = true ->
  allChars isWhiteSpace gap = true ->
  captured <> EmptyString -> allChars notCloseParen captured = true ->
  matchAnnotation ("(" ++ word ++ blanks ++ digits ++ ")" ++ gap ++ "(" ++ captured
                       ++ ")" ++ rest)%string
  = Some captured.
Proof.
  intros Hw Hb1 Hb2 Hd1 Hd2 Hg Hc1 Hc2.
  destruct word as [|q [|u [|e [|r [|y [|z word]]]]]]; try discriminate Hw.
  cbn [toLowerCase] in Hw. injection Hw as Hq Hu He Hr Hy.
  apply (toLowerChar_letter q "q") in Hq; [|cbn; tauto].
  apply (toLowerChar_letter u "u") in Hu; [|cbn; tauto].
  apply (toLowerChar_letter e "e") in He; [|cbn; tauto].
  apply (toLowerChar_letter r "r") in Hr; [|cbn; tauto].
  apply (toLowerChar_letter y "y") in Hy; [|cbn; tauto].
  unfold matchAnnotation.
  cbn [String.append expect expectLetter andThen Ascii.eqb Bool.eqb].
  change (ascii_of_N (N_of_ascii "q" - 32)) with "Q"%char in Hq.
  change (ascii_of_N (N_of_ascii "u" - 32)) with "U"%char in Hu.
  change (ascii_of_N (N_of_ascii "e" - 32)) with "E"%char in He.
  change (ascii_of_N (N_of_ascii "r" - 32)) with "R"%char in Hr.
  change (ascii_of_N (N_of_ascii "y" - 32)) with "Y"%char in Hy.
  rewrite Hq. cbn [andThen expectLetter]. rewrite Hu. cbn [andThen expectLetter].
  rewrite He. cbn [andThen expectLetter]. rewrite Hr. cbn [andThen expectLetter].
  rewrite Hy. cbn [andThen].
  rewrite (some_run isWhiteSpace blanks _ Hb1 Hb2).
  destruct digits as [|d digits]; [contradiction|].
  pose proof Hd2 as Hd2'. cbn [allChars] in Hd2'. apply andb_true_iff in Hd2' as [Hd _].
  cbn [String.append]. rewrite (skipWhile_stops isWhiteSpace d _ (digit_not_whiteSpace d Hd)).
  cbn [andThen].
  change (String d (digits ++ String ")" (gap ++ String "(" (captured ++ String ")" rest))))%string
    with (String d digits ++ String ")" (gap ++ String "(" (captured ++ String ")" rest)))%string.
  rewrite (some_run isDigit (String d digits) _ Hd1 Hd2).
  rewrite (skipWhile_stops isDigit ")" _ eq_refl).
  cbn [andThen expect Ascii.eqb Bool.eqb].
  rewrite (skipWhile_run isWhiteSpace gap _ Hg).
  rewrite (skipWhile_stops isWhiteSpace "(" _ eq_refl).
  cbn [expect Ascii.eqb Bool.eqb andThen]. cbv zeta.
  rewrite (takeWhile_run notCloseParen captured _ Hc2).
  rewrite (skipWhile_run notCloseParen captured _ Hc2).
  cbn [takeWhile skipWhile notCloseParen Ascii.eqb Bool.eqb negb expect andThen].
  rewrite append_nil_r.
  destruct captured; [contradiction | reflexivity].
Qed.

Lemma lazyDotThenAnnotation_complete (lineRest rest captured : string) :
  allChars notLineTerminator lineRest = true ->
  matchAnnotation rest = Some captured ->
  lazyDotThenAnnotation (lineRest ++ rest) <> None.
Proof.
  intros Hl Hm. induction lineRest as [|c lineRest IH].
  - cbn [String.append]. destruct rest; cbn [lazyDotThenAnnotation]; rewrite Hm; discriminate.
  - cbn [allChars] in Hl. apply andb_true_iff in Hl as [Hc Hl].
    cbn [String.append lazyDotThenAnnotation].
    destruct (matchAnnotation (String c (lineRest ++ rest))); [discriminate|].
    unfold notLineTerminator in Hc. apply negb_true_iff in Hc. rewrite Hc.
    exact (IH Hl).
Qed.

Lemma matchQueryPattern_complete (before s : string) :
  lazyDotThenAnnotation s <> None ->
  matchQueryPattern (before ++ "--" ++ s) <> None.
Proof.
  intros H. induction before as [|c before IH].
  - change ("" ++ "--" ++ s)%string with (String "-" (String "-" s)).
    cbn [matchQueryPattern].
    replace (startsWith (String "-" (String "-" s)) "--") with true
      by (cbn [startsWith Ascii.eqb Bool.eqb andb]; rewrite startsWith_nil; reflexivity).
    cbn [drop].
    destruct (lazyDotThenAnnotation s); [discriminate | contradiction].
  - cbn [String.append matchQueryPattern].
    destruct (if startsWith (String c (before ++ String "-" (String "-" s))) "--" then _ else None);
      [discriminate|].
    exact IH.
Qed.

(** The matcher finds an annotation exactly when the block has one. *)
Lemma matchQueryPattern_iff (block : string) :
  matchQueryPattern block <> None <-> exists captured, annotatedWith block captured.
Proof.
  split.
  - destruct (matchQueryPattern block) as [captured|] eqn:E; [|contradiction].
    intros _. exists captured. apply matchQueryPattern_some, E.
  - intros (captured & before & lineRest & word & blanks & digits & gap & rest & ->
            & Hl & Hw & Hb1 & Hb2 & Hd1 & Hd2 & Hg & Hc1 & Hc2).
    apply matchQueryPattern_complete.
    apply (lazyDotThenAnnotation_complete lineRest _ captured Hl).
    apply matchAnnotation_complete; assumption.
Qed.

End Extraction.

(** X21.  The statement of a record is its block without the leading
    comment and blank lines: the lines of the block are those passed over,
    all of them comments or blank, and then the first line that is neither
    with every line after it, comments included; the statement is these
    lines joined again and trimmed. *)
Theorem extractQueryInfo_statement_is_block_after_leading_comments :
  forall (block : string) (queryNumber : nat) (info : QueryInfo),
    extractQueryInfo block queryNumber = Some info ->
    exists skipped first rest,
      splitOn (ascii_of_N 10) block = skipped ++ first :: rest
      /\ join nl (skipped ++ first :: rest) = block
      /\ Forall (fun line => isCommentOrBlank line = true) skipped
      /\ isCommentOrBlank first = false
      /\ info_query info = trim (join nl (first :: rest)).
Proof.
  intros block n info H.
  destruct (extractQueryInfo_some block n info H) as (Hq & Hlen & _).
  destruct (collectSqlLines_split (splitOn (ascii_of_N 10) block)) as (skipped & Hsplit & Hs).
  pose proof (collectSqlLines_head (splitOn (ascii_of_N 10) block)) as Hhead.
  unfold bodyOf in Hq.
  destruct (collectSqlLines false (splitOn (ascii_of_N 10) block)) as [|first rest].
  - rewrite Hq in Hlen. cbn in Hlen. lia.
  - exists skipped, first, rest. split; [exact Hsplit|].
    split; [rewrite <- Hsplit; apply join_splitOn|].
    split; [exact Hs|]. split; [exact Hhead | exact Hq].
Qed.

Lemma extractQueryInfo_statement_is_block_after_leading_comments_witness :
  exists skipped first rest,
    splitOn (ascii_of_N 10) exampleBlock = skipped ++ first :: rest
    /\ join nl (skipped ++ first :: rest) = exampleBlock
    /\ Forall (fun line => isCommentOrBlank line = true) skipped
    /\ isCommentOrBlank first = false
    /\ info_query
         (mkQueryInfo "Hardware Info" "Hardware & OS" "Hardware Info"
            ("SELECT cpu_count AS [Logical CPU Count]" ++ nl
             ++ "-- committed memory, in megabytes" ++ nl
             ++ "FROM sys.dm_os_sys_info WITH (NOLOCK);"))
       = trim (join nl (first :: rest)).
Proof.
  apply (extractQueryInfo_statement_is_block_after_leading_comments exampleBlock 17).
  vm_compute. reflexivity.
Defined.

(** X22.  A record takes its name and description from an annotation
    exactly when its block has one: a comment marker, then on the same line
    [(Query], blanks, digits and [)], then, after blanks if any, the
    description in parentheses.  The description is then the text between
    that parenthesis and the first closing one, trimmed, and it decides the
    section; the digits play no part.  A block without an annotation gets
    the name ["Query n"] for its sequence number, the section ["General"]
    and the stock description. *)
Theorem extractQueryInfo_annotation :
  forall (block : string) (queryNumber : nat) (info : QueryInfo),
    extractQueryInfo block queryNumber = Some info ->
    ((exists captured, annotatedWith block captured) ->
     exists captured,
       annotatedWith block captured
       /\ info_description info = trim captured
       /\ info_name info = trim captured
       /\ info_section info = categorizeQuery (trim captured) block)
    /\ ((~ exists captured, annotatedWith block captured) ->
        info_name info = ("Query " ++ ofNat queryNumber)%string
        /\ info_section info = "General"%string
        /\ info_description info = "SQL Server diagnostic query"%string).
Proof.
  intros block n info H.
  pose proof (matchQueryPattern_iff block) as Hiff.
  unfold extractQueryInfo in H.
  destruct (matchQueryPattern block) as [captured|] eqn:E.
  - cbv zeta in H.
    destruct (isEmpty _ || _); [discriminate|]. injection H as <-.
    split.
    + intros _. exists captured. split; [apply matchQueryPattern_some, E|].
      repeat split.
    + intros Hno. exfalso. apply Hno. apply (proj1 Hiff). discriminate.
  - cbv zeta in H.
    destruct (isEmpty _ || _); [discriminate|]. injection H as <-.
    split.
    + intros Hyes. exfalso. exact (proj2 Hiff Hyes eq_refl).
    + intros _. repeat split.
Qed.

Lemma extractQueryInfo_annotation_witness :
  ((exists captured, annotatedWith exampleBlock captured) ->
   exists captured,
     annotatedWith exampleBlock captured
     /\ "Hardware Info"%string = trim captured
     /\ "Hardware Info"%string = trim captured
     /\ "Hardware & OS"%string = categorizeQuery (trim captured) exampleBlock)
  /\ ((~ exists captured, annotatedWith exampleBlock captured) ->
      "Hardware Info"%string = ("Query " ++ ofNat 17)%string
      /\ "Hardware & OS"%string = "General"%string
      /\ "Hardware Info"%string = "SQL Server diagnostic query"%string).
Proof.
  apply (extractQueryInfo_annotation exampleBlock 17
           (mkQueryInfo "Hardware Info" "Hardware & OS" "Hardware Info"
              ("SELECT cpu_count AS [Logical CPU Count]" ++ nl
               ++ "-- committed memory, in megabytes" ++ nl
               ++ "FROM sys.dm_os_sys_info WITH (NOLOCK);"))).
  vm_compute. reflexivity.
Defined.
